(** * mastodon-to-bluesky: the transfer pipeline of [transfer.py]

    A shallow embedding of [TransferManager] (src/mastodon_to_bluesky/transfer.py)
    and of the records of [models.py].

    - A Python [str] is a sequence of Unicode code points: [list N].
    - A Python [int] that may go negative ([max_length - 10]) is a [Z].
    - [set[str]] is a [gset], a [dict] read by key is a [gmap].
    - The two network clients, the console, the clock and the file
      system are collaborators; they are the fields of the class
      [Collaborators] over an abstract state of the outside world.
    - An exception is a value: code that may raise returns a [result],
      and [except Exception] is a match on it that lets a
      [KeyboardInterrupt] pass.

    The model comes first, then the notions in which the properties are
    stated, then the properties, then runs of the model in a small
    concrete world. *)

From Stdlib Require Import ZArith NArith Ascii String.
From stdpp Require Import gmap list sorting.

Set Warnings "-register-all".

(** ** Python strings *)

Abbreviation str := (list N).

(** A literal of the source, read as code points. *)
Fixpoint u (s : string) : str :=
  match s with
  | EmptyString => []
  | String a s' => N_of_ascii a :: u s'
  end.
Arguments u : simpl never.

Module Py.

Definition LF : N := 10%N.
Definition SP : N := 32%N.

(** [str.isspace] on one code point, which is also [\s] of [re] on a
    [str] pattern and the separator class of [str.split()] and
    [str.strip()]. *)
Definition isspace (c : N) : bool :=
  ((9 <=? c) && (c <=? 13) || (28 <=? c) && (c <=? 32) || (c =? 133)
   || (c =? 160) || (c =? 5760) || (8192 <=? c) && (c <=? 8202)
   || (c =? 8232) || (c =? 8233) || (c =? 8239) || (c =? 8287)
   || (c =? 12288))%N.

(** Truth value of a [str]: non-empty. *)
Definition truthy (s : str) : bool :=
  match s with [] => false | _ :: _ => true end.

Definition len (s : str) : Z := Z.of_nat (length s).

(** [s.split()]: the maximal runs of non-space characters. *)
Fixpoint split_go (cur : str) (s : str) : list str :=
  match s with
  | [] => if truthy cur then [rev cur] else []
  | c :: s' =>
      if isspace c
      then (if truthy cur then rev cur :: split_go [] s' else split_go [] s')
      else split_go (c :: cur) s'
  end.

Definition split (s : str) : list str := split_go [] s.

(** [s.lstrip()], [s.rstrip()], [s.strip()]. *)
Fixpoint lstrip (s : str) : str :=
  match s with
  | [] => []
  | c :: s' => if isspace c then lstrip s' else s
  end.

Definition rstrip (s : str) : str := rev (lstrip (rev s)).

Definition strip (s : str) : str := rstrip (lstrip s).

(** [str(n)] for a non-negative [int]. *)
Fixpoint uint_digits (d : Decimal.uint) : str :=
  match d with
  | Decimal.Nil => []
  | Decimal.D0 d => 48%N :: uint_digits d
  | Decimal.D1 d => 49%N :: uint_digits d
  | Decimal.D2 d => 50%N :: uint_digits d
  | Decimal.D3 d => 51%N :: uint_digits d
  | Decimal.D4 d => 52%N :: uint_digits d
  | Decimal.D5 d => 53%N :: uint_digits d
  | Decimal.D6 d => 54%N :: uint_digits d
  | Decimal.D7 d => 55%N :: uint_digits d
  | Decimal.D8 d => 56%N :: uint_digits d
  | Decimal.D9 d => 57%N :: uint_digits d
  end.

Definition str_of_nat (n : nat) : str := uint_digits (Nat.to_uint n).

(** [s.startswith(prefix)] *)
Fixpoint startswith (s prefix : str) : bool :=
  match prefix, s with
  | [], _ => true
  | _ :: _, [] => false
  | p :: prefix', c :: s' => (c =? p)%N && startswith s' prefix'
  end.

(** [s.replace(old, new)] for a non-empty [old]: the occurrences of [old]
    are found from the left and do not overlap; [skip] counts the
    characters of an occurrence that are still to be passed over. *)
Fixpoint replace_go (old new : str) (skip : nat) (s : str) : str :=
  match s with
  | [] => []
  | c :: s' =>
      match skip with
      | S k => replace_go old new k s'
      | O =>
          if startswith s old
          then new ++ replace_go old new (length old - 1) s'
          else c :: replace_go old new 0 s'
      end
  end.

(** [s.replace(old, new)]; an empty [old] matches before every character
    and at the end. *)
Definition replace (s old new : str) : str :=
  match old with
  | [] => new ++ List.flat_map (fun c => c :: new) s
  | _ :: _ => replace_go old new 0 s
  end.

End Py.

(** ** The two regular expressions of [transfer.py] *)

Module Re.

(** The class [[.!?]] of the look-behind. *)
Definition sentence_end (c : N) : bool :=
  ((c =? 46) || (c =? 33) || (c =? 63))%N.

(** [re.split(r"(?<=[.!?])\s+", text)].

    A match starts at a space whose predecessor is in [[.!?]], and the
    greedy [\s+] takes the whole run of spaces; the next piece starts
    after it.  [in_sep] says the scan is inside such a run, [after_end]
    that the previous character is in [[.!?]], [cur] is the piece read
    so far, reversed.  A separator at the end of the text leaves an empty
    last piece, as [re.split] does. *)
Fixpoint split_go (in_sep after_end : bool) (cur : str) (s : str)
  : list str :=
  match s with
  | [] => [rev cur]
  | c :: s' =>
      if Py.isspace c && in_sep then split_go true false [] s'
      else if Py.isspace c && after_end then rev cur :: split_go true false [] s'
      else split_go false (sentence_end c) (c :: cur) s'
  end.

Definition split_sentences (text : str) : list str :=
  split_go false false [] text.

(** [re.sub(r"\n{3,}", "\n\n", text)]: every maximal run of three or
    more newlines becomes two newlines.  [run] counts the newlines read
    since the last other character. *)
Fixpoint sub_go (run : nat) (s : str) : str :=
  match s with
  | [] => replicate (min run 2) Py.LF
  | c :: s' =>
      if (c =? Py.LF)%N then sub_go (S run) s'
      else replicate (min run 2) Py.LF ++ c :: sub_go 0 s'
  end.

Definition sub_newlines (text : str) : str := sub_go 0 text.

End Re.

(** ** The Segmenter: [TransferManager._split_text] *)

Module Segmenter.

Definition dots : str := u "...".

(** One step of either loop body (lines 214-219 for a word, 220-225 for
    a sentence): the piece joins the current chunk when it leaves the
    headroom of 10, otherwise the current chunk is closed with an
    ellipsis and a new one opens with an ellipsis. *)
Definition add_piece (max_length : Z) (acc : list str * str) (piece : str)
  : list str * str :=
  let '(chunks, current_chunk) := acc in
  if (Py.len current_chunk + Py.len piece + 1 <=? max_length - 10)%Z
  then (chunks,
        current_chunk ++ (if Py.truthy current_chunk then [Py.SP] else [])
                      ++ piece)
  else ((if Py.truthy current_chunk
         then chunks ++ [current_chunk ++ dots] else chunks),
        dots ++ piece).

(** The body of [for sentence in sentences] (lines 209-225). *)
Definition add_sentence (max_length : Z) (acc : list str * str)
    (sentence : str) : list str * str :=
  if (max_length <? Py.len sentence)%Z
  then foldl (add_piece max_length) acc (Py.split sentence)
  else add_piece max_length acc sentence.

(** Lines 200-228: the chunks before the thread indicators are added. *)
Definition chunks_of (text : str) (max_length : Z) : list str :=
  if (Py.len text <=? max_length)%Z then [text]
  else
    let '(chunks, current_chunk) :=
      foldl (add_sentence max_length) ([], []) (Re.split_sentences text) in
    if Py.truthy current_chunk then chunks ++ [current_chunk] else chunks.

(** Lines 230-233: [f"[{i+1}/{len(chunks)}] {chunk}"]. *)
Definition indicator (i n : nat) : str :=
  u "[" ++ Py.str_of_nat (i + 1) ++ u "/" ++ Py.str_of_nat n ++ u "] ".

Definition add_indicators (chunks : list str) : list str :=
  if (1 <? length chunks)%nat
  then imap (fun i chunk => indicator i (length chunks) ++ chunk) chunks
  else chunks.

Definition _split_text (text : str) (max_length : Z) : list str :=
  add_indicators (chunks_of text max_length).

End Segmenter.

(** ** The Content Normalizer: [TransferManager._html_to_text] *)

Module Soup.

(** The tree that [BeautifulSoup(html, "html.parser")] builds, as far as
    the code looks at it: strings that [get_text] returns, strings that
    it leaves out (comments and the like), and tags with their name and
    contents. *)
Inductive node :=
| NavigableString (s : str)
| Comment (s : str)
| Tag (name : str) (contents : list node).

Definition is_tag (name : str) (n : node) : bool :=
  match n with
  | Tag name' _ => bool_decide (name' = name)
  | _ => false
  end.

(** [for br in soup.find_all("br"): br.replace_with("\n")] *)
Fixpoint replace_br (n : node) : node :=
  match n with
  | Tag name contents =>
      if bool_decide (name = u "br") then NavigableString [Py.LF]
      else Tag name (List.map replace_br contents)
  | _ => n
  end.

(** [for p in soup.find_all("p"): p.insert_after("\n\n")], on the
    contents of the parent of each [p]. *)
Fixpoint insert_after_p (n : node) : node :=
  match n with
  | Tag name contents =>
      Tag name
        (List.flat_map
           (fun c => if is_tag (u "p") c
                     then [insert_after_p c; NavigableString [Py.LF; Py.LF]]
                     else [insert_after_p c])
           contents)
  | _ => n
  end.

(** [get_text()] of one node. *)
Fixpoint get_text (n : node) : str :=
  match n with
  | NavigableString s => s
  | Comment _ => []
  | Tag _ contents => List.flat_map get_text contents
  end.

(** The [BeautifulSoup] object is the tag named [[document]]. *)
Definition document (contents : list node) : node :=
  Tag (u "[document]") contents.

End Soup.

(** A model of the parser for markup made of text, start tags and end
    tags: what [html.parser] builds for it.  Character references,
    comments, declarations and quoted attribute values that hold [>] are
    outside this model; the pipeline itself takes the parser as a
    collaborator. *)
Module HtmlParser.

Inductive token :=
| Data (s : str)
| StartTag (name : str)
| EndTag (name : str).

Definition lower (c : N) : N :=
  if ((65 <=? c) && (c <=? 90))%N then (c + 32)%N else c.

Definition is_letter (c : N) : bool :=
  ((65 <=? c) && (c <=? 90) || (97 <=? c) && (c <=? 122))%N.

Fixpoint tag_name (body : str) : str :=
  match body with
  | [] => []
  | c :: body' =>
      if Py.isspace c || (c =? 47)%N then [] else lower c :: tag_name body'
  end.

(** The token for the text between [<] and [>]. *)
Definition tag_token (body : str) : token :=
  match body with
  | c :: body' =>
      if (c =? 47)%N then EndTag (tag_name body')
      else if is_letter c then StartTag (tag_name body)
      else Data (u "<" ++ body ++ u ">")
  | [] => Data (u "<>")
  end.

Fixpoint lex (in_tag : bool) (cur : str) (s : str) : list token :=
  match s with
  | [] =>
      if in_tag then [Data (u "<" ++ rev cur)]
      else if Py.truthy cur then [Data (rev cur)] else []
  | c :: s' =>
      if in_tag then
        if (c =? 62)%N then tag_token (rev cur) :: lex false [] s'
        else lex true (c :: cur) s'
      else if (c =? 60)%N then
        (if Py.truthy cur then [Data (rev cur)] else []) ++ lex true [] s'
      else lex false (c :: cur) s'
  end.

(** Elements without contents. *)
Definition void (name : str) : bool :=
  bool_decide (name ∈ map u ["area"; "base"; "br"; "col"; "embed"; "hr";
                             "img"; "input"; "link"; "meta"; "param";
                             "source"; "track"; "wbr"]%string).

(** The open elements, innermost first, each with the siblings read
    before it (reversed). *)
Definition open_elements := list (str * list Soup.node).

Fixpoint pop_to (name : str) (stack : open_elements) (cur : list Soup.node)
  : open_elements * list Soup.node :=
  match stack with
  | [] => ([], cur)
  | (name', siblings) :: stack' =>
      let cur' := Soup.Tag name' (rev cur) :: siblings in
      if bool_decide (name' = name) then (stack', cur')
      else pop_to name stack' cur'
  end.

Fixpoint build (stack : open_elements) (cur : list Soup.node)
    (ts : list token) : list Soup.node :=
  match ts with
  | [] =>
      rev (foldl (fun cur '(name, siblings) =>
                    Soup.Tag name (rev cur) :: siblings) cur stack)
  | Data s :: ts' => build stack (Soup.NavigableString s :: cur) ts'
  | StartTag name :: ts' =>
      if void name then build stack (Soup.Tag name [] :: cur) ts'
      else build ((name, cur) :: stack) [] ts'
  | EndTag name :: ts' =>
      if bool_decide (name ∈ stack.*1)
      then let '(stack', cur') := pop_to name stack cur in build stack' cur' ts'
      else build stack cur ts'
  end.

Definition parse (html : str) : list Soup.node :=
  build [] [] (lex false [] html).

End HtmlParser.

(** ** [models.py] *)

(** The values the code reads out of a [dict] of either service: a string
    or [None]. *)
Inductive value :=
| VNone
| VStr (s : str).

#[global] Instance value_eq_dec : EqDecision value.
Proof. solve_decision. Defined.

Abbreviation dict := (gmap str value).
Abbreviation bytes := (list N).
Abbreviation datetime := Z.

Module MastodonPost.
Record t := mk {
  id : str;
  content : str;
  created_at : datetime;
  url : str;
  in_reply_to_id : option str;
  reblog : option dict;
  media_attachments : list dict;
  mentions : list dict;
  tags : list dict;
  visibility : str;
  sensitive : bool;
  spoiler_text : str;
}.
End MastodonPost.

(** [{"uri": ..., "cid": ...}] *)
Record StrongRef := { uri : value; cid : value }.

(** [{"root": ..., "parent": ...}] *)
Record ReplyRef := { root : StrongRef; parent : StrongRef }.

(** [{"image": blob}], with the key ["alt"] when there is a description. *)
Record Image := { image : dict; alt : option str }.

(** [{"$type": ..., "images": images}] *)
Record Embed := { type_ : str; images : list Image }.

Module BlueskyPost.
Record t := mk {
  text : str;
  created_at : datetime;
  facets : list dict;
  embed : option Embed;
  reply : option ReplyRef;
}.
End BlueskyPost.

Module TransferState.
Record t := mk {
  last_mastodon_id : option str;
  transferred_ids : gset str;
  last_updated : datetime;
}.

(** [TransferState()]: the defaults of the three fields. *)
Definition fresh (now : datetime) : t :=
  {| last_mastodon_id := None; transferred_ids := ∅; last_updated := now |}.
End TransferState.

(** ** Exceptions and the outside world *)

(** What can be raised: a [KeyError] of a subscript, another exception
    of the class [Exception] with its text, raised by a collaborator, or
    a [KeyboardInterrupt], which is not of that class. *)
Inductive exn :=
| KeyError (key : str)
| Exception (msg : str)
| KeyboardInterrupt.

(** [except Exception] catches [e]. *)
Definition is_exception (e : exn) : bool :=
  match e with
  | KeyboardInterrupt => false
  | KeyError _ | Exception _ => true
  end.

Inductive result (A : Type) :=
| Ok (a : A)
| Raise (e : exn).
Arguments Ok {A} a.
Arguments Raise {A} e.

(** The keyword arguments of [get_posts]. *)
Record query := {
  limit : option Z;
  since : option datetime;
  until : option datetime;
  include_replies : bool;
  include_boosts : bool;
}.

(** The state file on disk.  [Saved s] is the document that [_save_state]
    writes for [s]: [model_dump(mode="json")] and the validation by the
    [TransferState] constructor are inverse to each other on the three fields,
    so reading it back gives [s].  [Raw text] is any other content, read by
    the collaborator [parse_state]. *)
Inductive file :=
| Absent
| Unreadable (e : exn)
| Raw (text : str)
| Saved (s : TransferState.t).

(** [console.print] *)
Inductive message :=
| Fetching
| NoPostsFound
| Found (n : nat)
| WarnCouldNotLoad (e : exn)
| WouldTransfer (id : str) (preview : str)
| ErrorTransferring (id : str) (e : exn).

(** The texts of [transfer.py] into which no string is interpolated. *)
Definition fixed (msg : message) : bool :=
  match msg with
  | Fetching | NoPostsFound | Found _ => true
  | WarnCouldNotLoad _ | WouldTransfer _ _ | ErrorTransferring _ _ => false
  end.

(** What [json.dump] into the file opened for writing, and the closing
    of the file, come to: the document is in the file, or an exception
    was raised and the file holds [remains]. *)
Inductive dumped :=
| Written
| Broke (e : exn) (remains : str).

(** [mastodon.py], [bluesky.py], [bs4], [rich], [json] with [pydantic],
    the file system and the clock, over the state [World] of everything
    outside the process.  A call returns the next state and a value or
    an exception.

    [console_print] is what [rich] makes of a text with interpolated
    strings: it reads the whole text as markup, and raises
    [MarkupError] for a closing tag that matches no open one.

    [open_w] is [open(self.state_file, "w")]: it raises and leaves the
    file as it is, or it returns and the file is empty; [json_dump]
    then writes into it. *)
Class Collaborators (World : Type) := {
  get_posts : query -> World -> World * result (list MastodonPost.t);
  download_media : value -> World -> World * result bytes;
  upload_image : bytes -> World -> World * result dict;
  create_rich_text : str -> World -> World * result (str * list dict);
  create_post : BlueskyPost.t -> World -> World * result dict;
  BeautifulSoup : str -> result (list Soup.node);
  console_print : message -> result unit;
  parse_state : str -> result TransferState.t;
  open_w : World -> World * result unit;
  json_dump : TransferState.t -> World -> World * dumped;
  now : World -> datetime;
}.

(** What the process did to the outside, in order.  [WriteStateFile s]
    is a write that put the document of [s] into the state file,
    [BreakStateFile remains] one that broke off and left [remains]
    there. *)
Inductive event :=
| GetPosts (q : query)
| DownloadMedia (url : value)
| UploadImage (data : bytes)
| CreatePost (post : BlueskyPost.t) (res : result dict)
| WriteStateFile (s : TransferState.t)
| BreakStateFile (remains : str).

(** The run statistics, [{"processed": _, "transferred": _, "skipped": _,
    "errors": _}]. *)
Module Stats.
Record t := mk {
  processed : nat;
  transferred : nat;
  skipped : nat;
  errors : nat;
}.
Definition zero : t := mk 0 0 0 0.
Definition incr_processed (st : t) : t :=
  mk (processed st + 1) (transferred st) (skipped st) (errors st).
Definition incr_transferred (st : t) : t :=
  mk (processed st) (transferred st + 1) (skipped st) (errors st).
Definition incr_skipped (st : t) : t :=
  mk (processed st) (transferred st) (skipped st + 1) (errors st).
Definition incr_errors (st : t) : t :=
  mk (processed st) (transferred st) (skipped st) (errors st + 1).
End Stats.

Section TransferManager.

Context {World : Type} `{C : Collaborators World}.

(** The process and what it touches: the outside world, [self.state],
    the state file, and what was done and printed so far. *)
Record machine := {
  world : World;
  state : TransferState.t;
  state_file : file;
  trace : list event;
  console : list message;
}.

Definition set_world (w : World) (m : machine) : machine :=
  {| world := w; state := state m; state_file := state_file m;
     trace := trace m; console := console m |}.
Definition set_state (s : TransferState.t) (m : machine) : machine :=
  {| world := world m; state := s; state_file := state_file m;
     trace := trace m; console := console m |}.
Definition set_state_file (f : file) (m : machine) : machine :=
  {| world := world m; state := state m; state_file := f;
     trace := trace m; console := console m |}.
Definition add_event (e : event) (m : machine) : machine :=
  {| world := world m; state := state m; state_file := state_file m;
     trace := trace m ++ [e]; console := console m |}.
Definition print (msg : message) (m : machine) : machine :=
  {| world := world m; state := state m; state_file := state_file m;
     trace := trace m; console := console m ++ [msg] |}.

(** Code that may raise. *)
Definition M (A : Type) : Type := machine -> machine * result A.

Definition ret {A} (a : A) : M A := fun m => (m, Ok a).
Definition raise {A} (e : exn) : M A := fun m => (m, Raise e).
Definition bind {A B} (c : M A) (k : A -> M B) : M B :=
  fun m => match c m with
           | (m', Ok a) => k a m'
           | (m', Raise e) => (m', Raise e)
           end.

Notation "x <- c ;; k" := (bind c (fun x => k))
  (at level 100, c at next level, right associativity).
Notation "c ;;; k" := (bind c (fun _ => k))
  (at level 100, right associativity).

Definition of_result {A} (r : result A) : M A := fun m => (m, r).

(** A call of a collaborator, and the event it leaves. *)
Definition call {A} (f : World -> World * result A)
    (ev : result A -> option event) : M A :=
  fun m =>
    let '(w, r) := f (world m) in
    let m' := set_world w m in
    (match ev r with Some e => add_event e m' | None => m' end, r).

(** [console.print(...)]: the markup of a text of the source is well
    formed; with interpolated strings the call may raise, and then
    nothing is printed. *)
Definition say (msg : message) : M unit :=
  fun m =>
    if fixed msg then (print msg m, Ok tt)
    else
      match console_print msg with
      | Ok _ => (print msg m, Ok tt)
      | Raise e => (m, Raise e)
      end.

(** [d[key]] *)
Definition getitem (d : dict) (key : str) : M value :=
  match d !! key with
  | Some v => ret v
  | None => raise (KeyError key)
  end.

(** *** [_load_state] and [_save_state] *)

(** Lines 39-42: [except Exception as e] prints the warning, inside the
    handler, and falls through to [return TransferState()]. *)
Definition load_failed (e : exn) (w : World)
  : result (TransferState.t * list message) :=
  if is_exception e then
    match console_print (WarnCouldNotLoad e) with
    | Ok _ => Ok (TransferState.fresh (now w), [WarnCouldNotLoad e])
    | Raise e' => Raise e'
    end
  else Raise e.

(** [__init__] calls [_load_state] once; the result is [self.state] and
    what was printed, or the exception that leaves it. *)
Definition _load_state (f : file) (w : World)
  : result (TransferState.t * list message) :=
  match f with
  | Absent => Ok (TransferState.fresh (now w), [])
  | Unreadable e => load_failed e w
  | Raw text =>
      match parse_state text with
      | Ok s => Ok (s, [])
      | Raise e => load_failed e w
      end
  | Saved s => Ok (s, [])
  end.

(** [TransferManager(mastodon, bluesky, state_file, dry_run)] in the
    world [w] with the state file [f]: the manager, or the exception
    that leaves [__init__]. *)
Definition init (w : World) (f : file) : result machine :=
  match _load_state f w with
  | Ok (s, printed) =>
      Ok {| world := w; state := s; state_file := f; trace := [];
            console := printed |}
  | Raise e => Raise e
  end.

(** Lines 46-48.  [open(self.state_file, "w")] raises and leaves the
    file as it is, or empties it; then the dump of [self.state] is
    written into it, and when that breaks off the file is left with
    what it holds by then. *)
Definition _save_state (dry_run : bool) : M unit :=
  if negb dry_run then
    fun m =>
      match open_w (world m) with
      | (w, Ok _) =>
          match json_dump (state m) w with
          | (w', Written) =>
              (add_event (WriteStateFile (state m))
                 (set_state_file (Saved (state m)) (set_world w' m)), Ok tt)
          | (w', Broke e remains) =>
              (add_event (BreakStateFile remains)
                 (set_state_file (Raw remains) (set_world w' m)), Raise e)
          end
      | (w, Raise e) => (set_world w m, Raise e)
      end
  else ret tt.

(** *** [_html_to_text] *)

Definition _html_to_text (html : str) : result str :=
  match BeautifulSoup html with
  | Raise e => Raise e
  | Ok contents =>
      let soup := Soup.document contents in
      let soup := Soup.replace_br soup in
      let soup := Soup.insert_after_p soup in
      let text := Soup.get_text soup in
      let text := Re.sub_newlines text in
      Ok (Py.strip text)
  end.

(** Lines 127-131: the text of the post with its content warning. *)
Definition post_text (mastodon_post : MastodonPost.t) : result str :=
  match _html_to_text (MastodonPost.content mastodon_post) with
  | Raise e => Raise e
  | Ok text =>
      if Py.truthy (MastodonPost.spoiler_text mastodon_post)
      then Ok (u "CW: " ++ MastodonPost.spoiler_text mastodon_post
               ++ [Py.LF; Py.LF] ++ text)
      else Ok text
  end.

(** *** [_create_media_embed] *)

(** [attachment.get("description")], cut to 1000 characters when it is
    a non-empty string. *)
Definition alt_of (attachment : dict) : option str :=
  match attachment !! u "description" with
  | Some (VStr (c :: d)) => Some (take 1000 (c :: d))
  | _ => None
  end.

Fixpoint images_loop (attachments : list dict) (images : list Image)
  : M (list Image) :=
  match attachments with
  | [] => ret images
  | attachment :: rest =>
      ty <- getitem attachment (u "type") ;;
      if bool_decide (ty = VStr (u "image")) then
        url <- getitem attachment (u "url") ;;
        image_data <- call (download_media url)
                           (fun _ => Some (DownloadMedia url)) ;;
        blob <- call (upload_image image_data)
                     (fun _ => Some (UploadImage image_data)) ;;
        images_loop rest
          (images ++ [{| image := blob; alt := alt_of attachment |}])
      else images_loop rest images
  end.

Definition _create_media_embed (attachments : list dict)
  : M (option Embed) :=
  images <- images_loop attachments [] ;;
  ret (match images with
       | [] => None
       | _ :: _ => Some {| type_ := u "app.bsky.embed.images";
                           images := images |}
       end).

(** Lines 137-139. *)
Definition media_embed (dry_run : bool) (mastodon_post : MastodonPost.t)
  : M (option Embed) :=
  match MastodonPost.media_attachments mastodon_post with
  | _ :: _ =>
      if negb dry_run
      then _create_media_embed
             (take 4 (MastodonPost.media_attachments mastodon_post))
      else ret None
  | [] => ret None
  end.

(** *** [_transfer_post] *)

Definition ref_of (result : dict) : M StrongRef :=
  uri <- getitem result (u "uri") ;;
  cid <- getitem result (u "cid") ;;
  ret {| uri := uri; cid := cid |}.

(** Lines 158-174: the reply reference for the next post of the thread. *)
Definition next_parent_ref (i n : nat) (parent_ref : option ReplyRef)
    (result : dict) : M (option ReplyRef) :=
  if (i =? 0)%nat && (1 <? n)%nat then
    root <- ref_of result ;;
    parent <- ref_of result ;;
    ret (Some {| root := root; parent := parent |})
  else
    match parent_ref with
    | Some r =>
        parent <- ref_of result ;;
        ret (Some {| root := root r; parent := parent |})
    | None => ret None
    end.

(** Lines 143-174, from index [i] on; [n] is [len(posts_to_create)]. *)
Fixpoint thread_loop (n : nat) (created_at : datetime)
    (embed : option Embed) (i : nat) (parent_ref : option ReplyRef)
    (posts_to_create : list str) : M unit :=
  match posts_to_create with
  | [] => ret tt
  | post_text :: rest =>
      rich <- call (create_rich_text post_text) (fun _ => None) ;;
      let bluesky_post :=
        {| BlueskyPost.text := rich.1;
           BlueskyPost.created_at := created_at;
           BlueskyPost.facets := rich.2;
           BlueskyPost.embed := if (i =? 0)%nat then embed else None;
           BlueskyPost.reply := parent_ref |} in
      result <- call (create_post bluesky_post)
                     (fun r => Some (CreatePost bluesky_post r)) ;;
      parent_ref' <- next_parent_ref i n parent_ref result ;;
      thread_loop n created_at embed (S i) parent_ref' rest
  end.

Definition _transfer_post (dry_run : bool) (mastodon_post : MastodonPost.t)
  : M unit :=
  text <- of_result (post_text mastodon_post) ;;
  let posts_to_create := Segmenter._split_text text 300 in
  embed <- media_embed dry_run mastodon_post ;;
  thread_loop (length posts_to_create)
    (MastodonPost.created_at mastodon_post) embed 0 None posts_to_create.

(** *** [transfer_posts] *)

(** Lines 109-111. *)
Definition record_transferred (post : MastodonPost.t) : M unit :=
  fun m =>
    (set_state
       {| TransferState.transferred_ids :=
            {[MastodonPost.id post]} ∪ TransferState.transferred_ids (state m);
          TransferState.last_mastodon_id := Some (MastodonPost.id post);
          TransferState.last_updated := now (world m) |} m,
     Ok tt).

(** Lines 104-112: what is tried for a post that is not skipped. *)
Definition convert_and_create (dry_run : bool) (post : MastodonPost.t)
  : M unit :=
  if dry_run
  then say (WouldTransfer (MastodonPost.id post)
              (take 50 (MastodonPost.content post)))
  else
    _transfer_post dry_run post ;;;
    record_transferred post ;;;
    _save_state dry_run.

(** Lines 116-118: [except Exception as e] prints the error, inside the
    handler, and then counts it.  What the handler does not catch, and
    what its own print raises, leaves the loop. *)
Definition handle (post : MastodonPost.t) (stats : Stats.t) (e : exn)
  : M Stats.t :=
  if is_exception e then
    say (ErrorTransferring (MastodonPost.id post) e) ;;;
    ret (Stats.incr_errors stats)
  else raise e.

(** Lines 95-120: one turn of the loop. *)
Definition process_post (dry_run skip_existing : bool)
    (post : MastodonPost.t) (stats : Stats.t) : M Stats.t :=
  fun m =>
    let stats := Stats.incr_processed stats in
    if skip_existing
       && bool_decide (MastodonPost.id post
                         ∈ TransferState.transferred_ids (state m))
    then (m, Ok (Stats.incr_skipped stats))
    else
      match convert_and_create dry_run post m with
      | (m', Ok _) => (m', Ok (Stats.incr_transferred stats))
      | (m', Raise e) => handle post stats e m'
      end.

Fixpoint for_posts (dry_run skip_existing : bool)
    (posts : list MastodonPost.t) (stats : Stats.t) : M Stats.t :=
  match posts with
  | [] => ret stats
  | post :: rest =>
      stats' <- process_post dry_run skip_existing post stats ;;
      for_posts dry_run skip_existing rest stats'
  end.

Definition transfer_posts (dry_run : bool) (q : query)
    (skip_existing : bool) : M Stats.t :=
  say Fetching ;;;
  posts <- call (get_posts q) (fun _ => Some (GetPosts q)) ;;
  match posts with
  | [] => say NoPostsFound ;;; ret Stats.zero
  | _ :: _ =>
      say (Found (length posts)) ;;;
      for_posts dry_run skip_existing (rev posts) Stats.zero
  end.

End TransferManager.

Arguments machine World : clear implicits.

(** ** A small world to run the pipeline in

    Mastodon serves a fixed feed; Bluesky answers every post with a new
    reference, except that the next [outage] submissions fail; media is its
    own URL, when that is an [https] one; a negative limit is a bad
    request; markup is read by
    [HtmlParser.parse]; the console refuses a text with the closing tag
    [[/x]] as markup, and one with a character beyond Latin-1 for its
    encoding; the state file can always be written, and contents that
    [_save_state] did not write are not a state. *)

Module Sim.

Record world := { feed : list MastodonPost.t; outage : nat; created : nat }.

Definition post_ref (n : nat) : dict :=
  {[ u "uri" := VStr (u "at://did:plc:sim/app.bsky.feed.post/"
                      ++ Py.str_of_nat n);
     u "cid" := VStr (u "cid-" ++ Py.str_of_nat n) ]}.

Definition sim_create_post (_ : BlueskyPost.t) (w : world)
  : world * result dict :=
  match outage w with
  | S k => ({| feed := feed w; outage := k; created := created w |},
            Raise (Exception (u "503 Service Unavailable")))
  | O => ({| feed := feed w; outage := 0; created := S (created w) |},
          Ok (post_ref (created w)))
  end.

Definition sim_download_media (url : value) (w : world)
  : world * result bytes :=
  match url with
  | VStr s =>
      if Py.startswith s (u "https://") then (w, Ok s)
      else (w, Raise (Exception
                        (u "No connection adapters were found for '"
                         ++ s ++ u "'")))
  | VNone => (w, Raise (Exception (u "Invalid URL")))
  end.

(** [sub in s] *)
Fixpoint contains (sub s : str) : bool :=
  Py.startswith s sub
  || match s with
     | [] => false
     | _ :: s' => contains sub s'
     end.

Definition exn_text (e : exn) : str :=
  match e with
  | KeyError key => u "'" ++ key ++ u "'"
  | Exception msg => msg
  | KeyboardInterrupt => []
  end.

(** The strings interpolated into a text. *)
Definition interpolated (msg : message) : str :=
  match msg with
  | Fetching | NoPostsFound | Found _ => []
  | WarnCouldNotLoad e => exn_text e
  | WouldTransfer id preview => id ++ u ": " ++ preview
  | ErrorTransferring id e => id ++ u ": " ++ exn_text e
  end.

Definition sim_console_print (msg : message) : result unit :=
  let text := interpolated msg in
  if contains (u "[/x]") text
  then Raise (Exception (u "closing tag '[/x]' at position 1 "
                         ++ u "doesn't match any open tag"))
  else if existsb (fun c => (255 <? c)%N) text
  then Raise (Exception (u "'latin-1' codec can't encode characters"))
  else Ok tt.

Definition sim_get_posts (q : query) (w : world)
  : world * result (list MastodonPost.t) :=
  match limit q with
  | Some n =>
      if (n <? 0)%Z then (w, Raise (Exception (u "400 Bad Request")))
      else (w, Ok (feed w))
  | None => (w, Ok (feed w))
  end.

#[global] Instance collaborators : Collaborators world := {|
  get_posts := sim_get_posts;
  download_media := sim_download_media;
  upload_image := fun data w => (w, Ok {[ u "ref" := VStr data ]});
  create_rich_text := fun s w => (w, Ok (s, []));
  create_post := sim_create_post;
  BeautifulSoup := fun html => Ok (HtmlParser.parse html);
  console_print := sim_console_print;
  parse_state := fun _ => Raise (Exception (u "Expecting value"));
  open_w := fun w => (w, Ok tt);
  json_dump := fun _ w => (w, Written);
  now := fun w => Z.of_nat (created w);
|}.

Definition toot (id : string) (created_at : Z) (html : str)
    (media : list dict) (cw : string) : MastodonPost.t :=
  {| MastodonPost.id := u id;
     MastodonPost.content := html;
     MastodonPost.created_at := created_at;
     MastodonPost.url := u "https://example.social/@me/" ++ u id;
     MastodonPost.in_reply_to_id := None;
     MastodonPost.reblog := None;
     MastodonPost.media_attachments := media;
     MastodonPost.mentions := [];
     MastodonPost.tags := [];
     MastodonPost.visibility := u "public";
     MastodonPost.sensitive := false;
     MastodonPost.spoiler_text := u cw |}.

Definition attachment (type url : string) : dict :=
  {[ u "type" := VStr (u type); u "url" := VStr (u url);
     u "description" := VNone ]}.

Definition all_posts : query :=
  {| limit := None; since := None; until := None;
     include_replies := false; include_boosts := false |}.

Definition serving (feed : list MastodonPost.t) (outage : nat) : world :=
  {| feed := feed; outage := outage; created := 0 |}.

End Sim.

(** * Notions for the properties *)

(** ** The Segmenter *)

(** A sentence of 295 characters followed by a short one: 304 characters
    in all, so the text is split. *)
Definition long_sentence : str :=
  concat (replicate 58 (u "word ")) ++ u "word.".

Definition two_sentences : str := long_sentence ++ u " Bye bye.".

(** Where the headroom is enough.  The pieces that the loops add one by
    one are the sentences, and the words of a sentence longer than the
    budget. *)
Definition pieces (text : str) (max_length : Z) : list str :=
  List.flat_map
    (fun sentence =>
       if (max_length <? Py.len sentence)%Z then Py.split sentence
       else [sentence])
    (Re.split_sentences text).

(** The bound kept by the loops: [K] bounds the pieces, the open chunk
    stays within [max (max_length - 10) (K + 3)] and a closed chunk has
    three characters more. *)
Definition bounded (max_length K : Z) (acc : list str * str) : Prop :=
  (acc.2 <> [] -> (Py.len acc.2 <= Z.max (max_length - 10) (K + 3))%Z)
  /\ Forall (fun chunk =>
               (Py.len chunk <= Z.max (max_length - 10) (K + 3) + 3)%Z)
       acc.1.

Section Notions.

Context {World : Type} `{C : Collaborators World}.
Implicit Types (m : machine World) (st : Stats.t) (post : MastodonPost.t).

(** *** The footprint of a computation

    [touches P m m']: from [m] to [m'] neither [self.state], nor the
    state file, nor the console changed, and every event that was added
    satisfies [P]. *)
Definition touches (P : event -> Prop) m m' : Prop :=
  state m' = state m /\ state_file m' = state_file m
  /\ console m' = console m
  /\ exists evs, trace m' = trace m ++ evs /\ Forall P evs.

Definition within {A} (P : event -> Prop) (c : M A) : Prop :=
  forall m, touches P m (c m).1.

(** What the Media Resolver does outside. *)
Definition media_event (e : event) : Prop :=
  match e with
  | DownloadMedia _ | UploadImage _ => True
  | _ => False
  end.

(** What the transfer of one post with creation time [t] does outside. *)
Definition post_event (t : datetime) (e : event) : Prop :=
  match e with
  | DownloadMedia _ | UploadImage _ => True
  | CreatePost p _ => BlueskyPost.created_at p = t
  | _ => False
  end.

(** *** One turn of the loop *)

Definition skips (skip_existing : bool) post m : Prop :=
  skip_existing = true
  /\ MastodonPost.id post ∈ TransferState.transferred_ids (state m).

Definition outcomes st : nat :=
  Stats.transferred st + Stats.skipped st + Stats.errors st.

(** *** Loading the state *)



(** The console refuses the text [msg]. *)
Definition refused (msg : message) : bool :=
  match console_print msg with
  | Raise _ => true
  | Ok _ => false
  end.

(** *** The text of a post *)

Definition hello_world_html : str := u "<p>Hello</p><p>World</p>".

Definition hello_world_soup : list Soup.node :=
  [Soup.Tag (u "p") [Soup.NavigableString (u "Hello")];
   Soup.Tag (u "p") [Soup.NavigableString (u "World")]].

(** *** Committing a post *)

(** [self.state] after lines 109-111. *)
Definition recorded post m : TransferState.t :=
  {| TransferState.transferred_ids :=
       {[MastodonPost.id post]} ∪ TransferState.transferred_ids (state m);
     TransferState.last_mastodon_id := Some (MastodonPost.id post);
     TransferState.last_updated := now (world m) |}.

(** The state file, read by a later process, knows what [self.state]
    knows. *)
Definition file_agrees m : Prop :=
  forall w, exists s printed,
    _load_state (state_file m) w = Ok (s, printed)
    /\ TransferState.transferred_ids s
       = TransferState.transferred_ids (state m).

(** *** Order of submission *)

(** The creation times of the posts handed to [create_post], in the
    order of the calls. *)
Definition submitted_at (evs : list event) : list datetime :=
  omap (fun e => match e with
                 | CreatePost p _ => Some (BlueskyPost.created_at p)
                 | _ => None
                 end) evs.

(** The posts that a run which counts no error transfers, in the order
    of their turns, when the identifiers [known] are known at its start:
    all of them without [skip_existing], and with it those whose
    identifier is not known when their turn comes. *)
Fixpoint taken (skip_existing : bool) (known : gset str)
    (posts : list MastodonPost.t) : list MastodonPost.t :=
  match posts with
  | [] => []
  | post :: rest =>
      if skip_existing && bool_decide (MastodonPost.id post ∈ known)
      then taken skip_existing known rest
      else post :: taken skip_existing ({[MastodonPost.id post]} ∪ known)
                     rest
  end.

(** What the transfer of [post] leaves in the trace when it succeeds:
    the calls for its media and its submissions, all with its creation
    time, and then the write of a state that has its identifier for the
    last one. *)
Definition transferred_by post (evs : list event) : Prop :=
  exists calls s,
    evs = calls ++ [WriteStateFile s]
    /\ Forall (post_event (MastodonPost.created_at post)) calls
    /\ TransferState.last_mastodon_id s = Some (MastodonPost.id post).

(** *** The Media Resolver *)

Definition is_image (attachment : dict) : bool :=
  bool_decide (attachment !! u "type" = Some (VStr (u "image"))).

(** The entry [img] of an embed was made from [attachment]: its blob is
    what [upload_image] returned for the bytes that [download_media]
    returned for the URL of the attachment, and its alternative text is
    the description of the attachment, cut to 1000 characters. *)
Definition image_of (attachment : dict) (img : Image) : Prop :=
  alt img = alt_of attachment
  /\ exists url (w1 w2 w3 : World) data,
      attachment !! u "url" = Some url
      /\ download_media url w1 = (w2, Ok data)
      /\ upload_image data w2 = (w3, Ok (image img)).

Definition images_in (embed : option Embed) : list Image :=
  match embed with
  | Some e => images e
  | None => []
  end.

(** *** The Thread Builder *)

(** [{"uri": result["uri"], "cid": result["cid"]}], when both keys are
    there. *)
Definition strong_ref (d : dict) : option StrongRef :=
  match d !! u "uri", d !! u "cid" with
  | Some a, Some b => Some {| uri := a; cid := b |}
  | _, _ => None
  end.

(** The post built for a chunk at index [i] (lines 148-154). *)
Definition request (t : datetime) (embed : option Embed) (i : nat)
    (parent_ref : option ReplyRef) (rich : str * list dict) : BlueskyPost.t :=
  {| BlueskyPost.text := rich.1;
     BlueskyPost.created_at := t;
     BlueskyPost.facets := rich.2;
     BlueskyPost.embed := if (i =? 0)%nat then embed else None;
     BlueskyPost.reply := parent_ref |}.

(** The submissions of a trace: each post handed to [create_post], with
    what was returned. *)
Definition submissions (evs : list event)
  : list (BlueskyPost.t * result dict) :=
  omap (fun e => match e with
                 | CreatePost p r => Some (p, r)
                 | _ => None
                 end) evs.

Definition submission (x : BlueskyPost.t * result dict) : event :=
  CreatePost x.1 x.2.

(** The text and the facets of [req] are what [create_rich_text] made
    of [chunk]. *)
Definition rich_text_of (chunk : str) (req : BlueskyPost.t) : Prop :=
  exists w w' : World,
    create_rich_text chunk w
    = (w', Ok (BlueskyPost.text req, BlueskyPost.facets req)).

(** The submissions for the chunks after the first: all of them reply
    under the root [R]; the first to the parent [P], the next to the
    reference returned for the one before. *)
Fixpoint chain (t : datetime) (R P : StrongRef) (chunks : list str)
    (reqs : list (BlueskyPost.t * result dict)) : Prop :=
  match reqs, chunks with
  | [], _ => True
  | _ :: _, [] => False
  | (req, res) :: reqs', chunk :: chunks' =>
      rich_text_of chunk req
      /\ BlueskyPost.created_at req = t
      /\ BlueskyPost.embed req = None
      /\ BlueskyPost.reply req = Some {| root := R; parent := P |}
      /\ (reqs' <> [] ->
          exists d P', res = Ok d /\ strong_ref d = Some P'
                       /\ chain t R P' chunks' reqs')
  end.

End Notions.

Arguments within World {A} P c.

(** ** C8 *)


(** ** Scenarios *)

Module Scenario.

Definition essay_text : str :=
  long_sentence ++ u " " ++ long_sentence ++ u " " ++ long_sentence.

(** A short post, a post that needs a thread of three, and a post with
    a video in front of five images. *)
Definition hello : MastodonPost.t :=
  Sim.toot "101" 100 hello_world_html [] "".

Definition essay : MastodonPost.t :=
  Sim.toot "102" 200 (u "<p>" ++ essay_text ++ u "</p>")
    [Sim.attachment "image" "https://files.example/1.png"] "".

Definition gallery : MastodonPost.t :=
  Sim.toot "103" 300 (u "<p>Holiday</p>")
    [Sim.attachment "video" "https://files.example/0.mp4";
     Sim.attachment "image" "https://files.example/1.png";
     Sim.attachment "image" "https://files.example/2.png";
     Sim.attachment "image" "https://files.example/3.png";
     Sim.attachment "image" "https://files.example/4.png";
     Sim.attachment "image" "https://files.example/5.png"] "".

(** A post with a picture whose address is not an address. *)
Definition garbled : MastodonPost.t :=
  Sim.toot "106" 600 (u "<p>Look</p>") [Sim.attachment "image" "[/x]"] "".

(** A first start, with no state file: the manager that [init] builds
    then. *)
Definition start (feed : list MastodonPost.t) (outage : nat)
  : machine Sim.world :=
  {| world := Sim.serving feed outage;
     state := TransferState.fresh (now (Sim.serving feed outage));
     state_file := Absent; trace := []; console := [] |}.

(** A later process: it finds the file and the world as [m] left them. *)
Definition restart (m : machine Sim.world) : result (machine Sim.world) :=
  init (world m) (state_file m).

Definition run (skip_existing : bool) (m : machine Sim.world) :=
  transfer_posts false Sim.all_posts skip_existing m.

(** The run of a later process after [m]. *)
Definition rerun (skip_existing : bool) (m : machine Sim.world) :=
  match restart m with
  | Ok m0 => run skip_existing m0
  | Raise e => (m, Raise e)
  end.

End Scenario.

Import Scenario.

(** ** C2 *)

(** C2 as stated: every run has [transferred + skipped = processed], and
    a second run over the same input transfers nothing. *)
Definition transfer_is_idempotent : Prop :=
  forall (World : Type) (C : Collaborators World) q skip_existing
         (w : World) (f : file) m0 m1 st1,
    init w f = Ok m0 ->
    transfer_posts false q skip_existing m0 = (m1, Ok st1) ->
    Stats.transferred st1 + Stats.skipped st1 = Stats.processed st1
    /\ forall m0' m2 st2,
        init (world m1) (state_file m1) = Ok m0' ->
        transfer_posts false q true m0' = (m2, Ok st2) ->
        Stats.transferred st2 = 0.

(** ** C3 *)

(** C3 as stated: the embed holds the first four attachments of type
    [image], wherever the other attachments stand. *)
Definition media_cap_skips_other_types : Prop :=
  forall (World : Type) (C : Collaborators World) post
         (m m' : machine World) embed,
    media_embed false post m = (m', Ok embed) ->
    length (images_in embed)
    = min 4 (length (List.filter is_image
                       (MastodonPost.media_attachments post))).

(** ** C4 *)

(** C4 as stated: whatever the order of the fetched posts, the creation
    times of the posts handed to [create_post] do not decrease. *)
Definition submissions_are_sorted : Prop :=
  forall (World : Type) (C : Collaborators World) dry_run q skip_existing
         (m : machine World) ts,
    submitted_at (trace (transfer_posts dry_run q skip_existing m).1)
    = submitted_at (trace m) ++ ts ->
    Sorted Z.le ts.

(** ** C5 *)

(** C5 as stated: after a turn that raised, the error is counted and the
    identifier of the post is not in the transferred set. *)
Definition failed_post_is_not_in_state : Prop :=
  forall (World : Type) (C : Collaborators World) skip_existing post st
         (m m2 : machine World) e,
    ~ skips skip_existing post m ->
    convert_and_create false post m = (m2, Raise e) ->
    let out := process_post false skip_existing post st m in
    (exists st', out.2 = Ok st'
                 /\ Stats.errors st' = Stats.errors st + 1)
    /\ MastodonPost.id post ∉ TransferState.transferred_ids (state out.1).

(** The state file of an earlier run that transferred [hello]. *)
Definition hello_done : file :=
  Saved {| TransferState.last_mastodon_id := Some (MastodonPost.id hello);
           TransferState.transferred_ids := {[MastodonPost.id hello]};
           TransferState.last_updated := 0 |}.

(** * [cli.py] *)

Module Cli.

(** What [json.load] returns for the configuration file: an object, or
    any other JSON value.  The members of the object are texts or
    [null], as the values of every [dict] here. *)
Inductive json :=
| JObject (d : dict)
| JOther.

(** The configuration file [~/.config/mastodon-to-bluesky/config.json]:
    not there, there but [open] or [json.load] raises, or loaded. *)
Inductive config_file :=
| NoConfig
| BadConfig (e : exn)
| Config (j : json).

Definition env_mapping : list (str * str) :=
  [(u "MASTODON_INSTANCE", u "mastodon_instance");
   (u "MASTODON_TOKEN", u "mastodon_token");
   (u "BLUESKY_HANDLE", u "bluesky_handle");
   (u "BLUESKY_PASSWORD", u "bluesky_password")].

(** [config[config_key] = value] *)
Definition setitem (config : json) (config_key value : str) : result json :=
  match config with
  | JObject d => Ok (JObject (<[config_key := VStr value]> d))
  | JOther =>
      Raise (Exception (u "TypeError: object does not support item assignment"))
  end.

(** [config.get(key)] *)
Definition get (config : json) (key : str) : result value :=
  match config with
  | JObject d => Ok (default VNone (d !! key))
  | JOther => Raise (Exception (u "AttributeError: object has no attribute 'get'"))
  end.

(** Lines 35-37: one turn of the loop over [env_mapping]. *)
Definition override (environ : gmap str str) (config : result json)
    (entry : str * str) : result json :=
  match config with
  | Raise e => Raise e
  | Ok config =>
      match environ !! entry.1 with
      | Some (c :: value) => setitem config entry.2 (c :: value)
      | _ => Ok config
      end
  end.

Definition load_config (file : config_file) (environ : gmap str str)
  : result json :=
  match file with
  | BadConfig e => Raise e
  | NoConfig => foldl (override environ) (Ok (JObject ∅)) env_mapping
  | Config j => foldl (override environ) (Ok j) env_mapping
  end.

(** The options of the command [transfer]; [fetch] holds the five that
    are handed on to [get_posts]. *)
Record options := {
  mastodon_instance : str;
  mastodon_token : str;
  bluesky_handle : str;
  bluesky_password : str;
  fetch : query;
  dry_run : bool;
  skip_existing : bool;
}.

(** Truth value of what a credential can be. *)
Definition truthy (v : value) : bool :=
  match v with
  | VStr (_ :: _) => true
  | _ => false
  end.

(** [option or config.get(key)] *)
Definition or_config (option : str) (config : json) (key : str)
  : result value :=
  if Py.truthy option then Ok (VStr option) else get config key.

(** [console.print] of [cli.py]. *)
Inductive line :=
| MissingCredentials
| PleaseProvide
| ConnectingToMastodon (instance : value)
| ConnectingToBluesky (handle : value)
| Blank
| TransferComplete
| PostsProcessed (n : nat)
| PostsTransferred (n : nat)
| PostsSkipped (n : nat)
| Errors (n : nat)
| DryRunNotice
| InterruptedByUser
| Error (e : exn).

(** The texts of the command into which no string is interpolated. *)
Definition fixed (l : line) : bool :=
  match l with
  | ConnectingToMastodon _ | ConnectingToBluesky _ | Error _ => false
  | _ => true
  end.

(** The [authenticate] methods of the two clients, built with the
    resolved credentials, and what [rich] makes of a text of the command
    with an interpolated string.  [MastodonClient(...)] and
    [BlueskyClient(...)] themselves are taken to store what they are
    given and to return. *)
Class Clients (World : Type) := {
  mastodon_authenticate : value -> value -> World -> World * result dict;
  bluesky_authenticate : value -> value -> World -> World * result dict;
  console_print : line -> result unit;
}.

(** How the command ends: it returns, it leaves through [sys.exit], or
    an exception leaves it. *)
Inductive status :=
| Returned
| Exit (code : Z)
| Uncaught (e : exn).

(** What a run of the command leaves: how it ended, what it printed, the
    [TransferManager] if one was built, and the world. *)
Record outcome (World : Type) := {
  ended : status;
  printed : list line;
  manager : option (machine World);
  world_after : World;
}.
Arguments ended {World} o.
Arguments printed {World} o.
Arguments manager {World} o.
Arguments world_after {World} o.

(** Lines 289-300: the report. *)
Definition report (dry_run : bool) (result : Stats.t) : list line :=
  [Blank; TransferComplete;
   PostsProcessed (Stats.processed result);
   PostsTransferred (Stats.transferred result);
   PostsSkipped (Stats.skipped result)]
  ++ (if (Stats.errors result =? 0)%nat then []
      else [Errors (Stats.errors result)])
  ++ (if dry_run then [Blank; DryRunNotice] else []).

(** [console.print(...)] after the lines [lines]: with an interpolated
    string the call may raise, and then nothing is printed. *)
Definition say {World : Type} `{Clients World} (l : line)
    (lines : list line) : result (list line) :=
  if fixed l then Ok (lines ++ [l])
  else
    match console_print l with
    | Ok _ => Ok (lines ++ [l])
    | Raise e => Raise e
    end.

(** Lines 263-287: the body of the [try], up to the result of
    [transfer_posts]. *)
Definition attempt {World : Type} `{Collaborators World} `{Clients World}
    (opts : options) (instance token handle password : value)
    (transfer_manager : machine World)
  : machine World * result Stats.t :=
  match mastodon_authenticate instance token (world transfer_manager) with
  | (w1, Raise e) => (set_world w1 transfer_manager, Raise e)
  | (w1, Ok _) =>
      match bluesky_authenticate handle password w1 with
      | (w2, Raise e) => (set_world w2 transfer_manager, Raise e)
      | (w2, Ok _) =>
          transfer_posts (dry_run opts) (fetch opts) (skip_existing opts)
            (set_world w2 transfer_manager)
      end
  end.

(** Lines 302-307: the two [except] clauses, after the lines [lines].
    The second prints the exception inside the handler; what that print
    raises leaves the command. *)
Definition except {World : Type} `{Clients World} (lines : list line)
    (m : machine World) (e : exn) : outcome World :=
  match e with
  | KeyboardInterrupt =>
      {| ended := Exit 1; printed := lines ++ [InterruptedByUser];
         manager := Some m; world_after := world m |}
  | KeyError _ | Exception _ =>
      match say (Error e) lines with
      | Ok lines' =>
          {| ended := Exit 1; printed := lines';
             manager := Some m; world_after := world m |}
      | Raise e' =>
          {| ended := Uncaught e'; printed := lines;
             manager := Some m; world_after := world m |}
      end
  end.

(** Lines 247-307, with the four credentials resolved.  The two lines
    on the connections and the construction of the manager are outside
    the [try]. *)
Definition connect_and_transfer {World : Type} `{Collaborators World}
    `{Clients World} (opts : options) (instance token handle password : value)
    (f : file) (w : World) : outcome World :=
  let leave e lines :=
    {| ended := Uncaught e; printed := lines; manager := None;
       world_after := w |} in
  match say (ConnectingToMastodon instance) [] with
  | Raise e => leave e []
  | Ok lines =>
  match say (ConnectingToBluesky handle) lines with
  | Raise e => leave e lines
  | Ok connecting =>
  match init w f with
  | Raise e => leave e connecting
  | Ok transfer_manager =>
      match attempt opts instance token handle password transfer_manager with
      | (m, Ok result) =>
          {| ended := Returned;
             printed := connecting ++ report (dry_run opts) result;
             manager := Some m; world_after := world m |}
      | (m, Raise e) => except connecting m e
      end
  end end end.

(** The command [transfer] (lines 218-307), run with the configuration
    file [config], the environment [environ], the state file [f] and the
    world [w].  The options are taken as [click] hands them over; the
    progress display is left out, and an interrupt from the keyboard
    is one that a collaborator raises. *)
Definition transfer {World : Type} `{Collaborators World} `{Clients World}
    (opts : options) (config : config_file) (environ : gmap str str)
    (f : file) (w : World) : outcome World :=
  let uncaught e :=
    {| ended := Uncaught e; printed := []; manager := None;
       world_after := w |} in
  match load_config config environ with
  | Raise e => uncaught e
  | Ok config =>
  match or_config (mastodon_instance opts) config (u "mastodon_instance") with
  | Raise e => uncaught e
  | Ok instance =>
  match or_config (mastodon_token opts) config (u "mastodon_token") with
  | Raise e => uncaught e
  | Ok token =>
  match or_config (bluesky_handle opts) config (u "bluesky_handle") with
  | Raise e => uncaught e
  | Ok handle =>
  match or_config (bluesky_password opts) config (u "bluesky_password") with
  | Raise e => uncaught e
  | Ok password =>
      if truthy instance && truthy token && truthy handle && truthy password
      then connect_and_transfer opts instance token handle password f w
      else {| ended := Exit 1;
              printed := [MissingCredentials; PleaseProvide];
              manager := None; world_after := w |}
  end end end end end.

(** Lines 123-125 of [test_mastodon]: the content of a post as the table
    shows it. *)
Definition display_content (content : str) : str :=
  let content :=
    if (50 <? Py.len content)%Z then take 47 content ++ u "..."
    else content in
  Py.replace
    (Py.replace (Py.replace content (u "<p>") []) (u "</p>") [])
    (u "<br>") (u " ").

End Cli.

(** The two accounts of the small world: Mastodon refuses the token
    [expired], Bluesky the password [wrong]. *)
#[global] Instance sim_clients : Cli.Clients Sim.world := {|
  Cli.mastodon_authenticate := fun _ token w =>
    if bool_decide (token = VStr (u "expired"))
    then (w, Raise (Exception (u "401 Unauthorized")))
    else (w, Ok {[ u "username" := VStr (u "me") ]});
  Cli.bluesky_authenticate := fun _ password w =>
    if bool_decide (password = VStr (u "wrong"))
    then (w, Raise (Exception (u "Invalid identifier or password")))
    else (w, Ok {[ u "did" := VStr (u "did:plc:sim") ]});
  Cli.console_print := fun l =>
    let text := match l with
                | Cli.ConnectingToMastodon (VStr s)
                | Cli.ConnectingToBluesky (VStr s) => s
                | Cli.Error e => Sim.exn_text e
                | _ => []
                end in
    if Sim.contains (u "[/x]") text
    then Raise (Exception (u "closing tag '[/x]' at position 1 "
                           ++ u "doesn't match any open tag"))
    else Ok tt;
|}.

Definition command_line_for (q : query) (token password : string)
    (dry_run : bool) : Cli.options :=
  {| Cli.mastodon_instance := u "https://example.social";
     Cli.mastodon_token := u token;
     Cli.bluesky_handle := u "me.bsky.social";
     Cli.bluesky_password := u password;
     Cli.fetch := q;
     Cli.dry_run := dry_run;
     Cli.skip_existing := true |}.

Definition command_line (token password : string) (dry_run : bool)
  : Cli.options :=
  command_line_for Sim.all_posts token password dry_run.

(** [--limit -1] *)
Definition negative_limit : query :=
  {| limit := Some (-1)%Z; since := None; until := None;
     include_replies := false; include_boosts := false |}.

(** * More of the code: notions *)

(** ** The Segmenter *)

(** The words of a list of texts, in order. *)
Definition words_of (l : list str) : list str :=
  List.concat (List.map Py.split l).

(** [chunk] is [raw] with, possibly, an ellipsis in front and an ellipsis
    behind. *)
Definition decorated (chunk raw : str) : Prop :=
  exists pre post,
    chunk = pre ++ raw ++ post
    /\ (pre = [] \/ pre = Segmenter.dots)
    /\ (post = [] \/ post = Segmenter.dots).

(** The closed chunks and the open chunk of the loops hold the words
    [ws]: without the ellipses they read [raws] and [raw]. *)
Definition tracks (acc : list str * str) (ws : list str) : Prop :=
  exists raws raw,
    Forall2 decorated acc.1 raws
    /\ (acc.2 = raw \/ acc.2 = Segmenter.dots ++ raw)
    /\ words_of raws ++ Py.split raw = ws.

(** Closed chunks end with an ellipsis; after the first chunk every
    chunk, the open one too, begins with an ellipsis. *)
Definition shaped (acc : list str * str) : Prop :=
  Forall (fun chunk => Segmenter.dots `suffix_of` chunk) acc.1
  /\ Forall (fun chunk => Segmenter.dots `prefix_of` chunk) (tail acc.1)
  /\ (acc.1 <> [] -> Segmenter.dots `prefix_of` acc.2).

(** Nine sentences of 44 characters each. *)
Definition short_sentences : str :=
  concat (replicate 8 (u "The quick brown fox jumps over the lazy dog. "))
  ++ u "The quick brown fox jumps over the lazy dog.".

(** [out] is [chunk] behind the thread indicator of index [i] out of [n],
    when there is more than one chunk. *)
Definition marked (i n : nat) (out chunk : str) : Prop :=
  out = (if (1 <? n)%nat then Segmenter.indicator i n ++ chunk else chunk).

(** ** The Content Normalizer *)

(** The number of newlines that [s] begins with. *)
Fixpoint lf_prefix (s : str) : nat :=
  match s with
  | c :: s' => if (c =? Py.LF)%N then S (lf_prefix s') else 0
  | [] => 0
  end.

(** Nowhere in [s] do more than two newlines follow each other. *)
Fixpoint calm (s : str) : Prop :=
  match s with
  | [] => True
  | _ :: s' => lf_prefix s <= 2 /\ calm s'
  end.

(** A paragraph of plain text: not empty, on one line, no space at
    either end. *)
Definition plain_paragraph (t : str) : Prop :=
  t <> []
  /\ Forall (fun c => c <> Py.LF) t
  /\ (forall c rest, t = c :: rest -> Py.isspace c = false)
  /\ (forall init c, t = init ++ [c] -> Py.isspace c = false).

(** [<p>t</p>] *)
Definition paragraph (t : str) : Soup.node :=
  Soup.Tag (u "p") [Soup.NavigableString t].

(** The paragraphs with one empty line between them. *)
Definition blank_line_separated (ts : list str) : str :=
  match ts with
  | [] => []
  | t :: rest => t ++ concat (List.map (fun t' => [Py.LF; Py.LF] ++ t') rest)
  end.

(** ** The Media Resolver and the Thread Builder *)

(** An attachment that [_create_media_embed] cannot read: it has no
    [type], or it is an image without [url]. *)
Definition malformed (attachment : dict) : Prop :=
  attachment !! u "type" = None
  \/ (attachment !! u "type" = Some (VStr (u "image"))
      /\ attachment !! u "url" = None).

Definition downloads (evs : list event) : nat :=
  length (List.filter (fun e => match e with
                                | DownloadMedia _ => true
                                | _ => false
                                end) evs).

Definition uploads (evs : list event) : nat :=
  length (List.filter (fun e => match e with
                                | UploadImage _ => true
                                | _ => false
                                end) evs).

Definition create_event (e : event) : Prop :=
  match e with
  | CreatePost _ _ => True
  | _ => False
  end.

(** A post with a picture that has a long description, and a post whose
    second attachment has no type. *)
Definition described : MastodonPost.t :=
  Sim.toot "104" 400 (u "<p>Sunset</p>")
    [ {[ u "type" := VStr (u "image");
         u "url" := VStr (u "https://files.example/6.png");
         u "description" := VStr (concat (replicate 300 (u "sky "))) ]} ]
    "".

Definition broken : MastodonPost.t :=
  Sim.toot "105" 500 (u "<p>Oops</p>")
    [ Sim.attachment "image" "https://files.example/7.png";
      {[ u "url" := VStr (u "https://files.example/8.png") ]} ]
    "".

(** ** The Orchestrator *)

(** The states written to the state file, in order. *)
Definition writes (evs : list event) : list TransferState.t :=
  omap (fun e => match e with
                 | WriteStateFile s => Some s
                 | _ => None
                 end) evs.

(** The state file after the writes [ws], when it was [f] before. *)
Definition file_after (ws : list TransferState.t) (f : file) : file :=
  match last ws with
  | Some s => Saved s
  | None => f
  end.

(** The number of writes that broke off. *)
Definition breaks (evs : list event) : nat :=
  length (List.filter (fun e => match e with
                                | BreakStateFile _ => true
                                | _ => false
                                end) evs).

(** What an event does to the state file. *)
Definition leaves (f : file) (e : event) : file :=
  match e with
  | WriteStateFile s => Saved s
  | BreakStateFile remains => Raw remains
  | _ => f
  end.

(** The state file after the events [evs], when it was [f] before. *)
Definition replay (evs : list event) (f : file) : file :=
  foldl leaves f evs.

(** The line of a dry run on [post] (line 106). *)
Definition preview (post : MastodonPost.t) : message :=
  WouldTransfer (MastodonPost.id post) (take 50 (MastodonPost.content post)).

(** A post with a character that the console of the small world cannot
    encode. *)
Definition smiling : MastodonPost.t :=
  Sim.toot "107" 700 (u "<p>Hi " ++ [128512%N] ++ u "</p>") [] "".

(** The last identifier, when there is one, is a transferred one. *)
Definition consistent (s : TransferState.t) : Prop :=
  forall i,
    TransferState.last_mastodon_id s = Some i ->
    i ∈ TransferState.transferred_ids s.

(** ** The command line *)

(** The configuration file gives the object [d]: the empty one when the
    file is not there. *)
Definition file_object (file : Cli.config_file) (d : dict) : Prop :=
  (file = Cli.NoConfig /\ d = ∅) \/ file = Cli.Config (Cli.JObject d).

(** The four credentials as the command line gave them, each with the
    key under which the configuration is asked for it. *)
Definition credentials (opts : Cli.options) : list (str * str) :=
  [(Cli.mastodon_instance opts, u "mastodon_instance");
   (Cli.mastodon_token opts, u "mastodon_token");
   (Cli.bluesky_handle opts, u "bluesky_handle");
   (Cli.bluesky_password opts, u "bluesky_password")].

(** The command line and the configuration together give the four
    credentials [instance], [token], [handle] and [password]. *)
Definition resolves (opts : Cli.options) (config : Cli.json)
    (instance token handle password : value) : Prop :=
  Forall2 (fun c v => Cli.or_config c.1 config c.2 = Ok v
                      /\ Cli.truthy v = true)
    (credentials opts) [instance; token; handle; password].

(** The command left without a [TransferManager]: nothing was printed
    but [lines], and the world is as it was. *)
Definition left_early {World : Type} (out : Cli.outcome World)
    (s : Cli.status) (lines : list Cli.line) (w : World) : Prop :=
  Cli.ended out = s /\ Cli.printed out = lines
  /\ Cli.manager out = None /\ Cli.world_after out = w.

(** The console takes the two lines on the connections. *)
Definition connects {World : Type} `{Cli.Clients World}
    (instance handle : value) : Prop :=
  Cli.console_print (Cli.ConnectingToMastodon instance) = Ok tt
  /\ Cli.console_print (Cli.ConnectingToBluesky handle) = Ok tt.

(** How the command ends when the exception [e] leaves the [try] after
    the lines [lines].  An interrupt gives its line and the status 1.
    An exception of the class [Exception] gives the line on the error
    and the status 1 when the console takes that line; when it does
    not, the exception of the print leaves the command. *)
Definition ends_on {World : Type} `{Cli.Clients World} (e : exn)
    (lines : list Cli.line) (out : Cli.outcome World) : Prop :=
  if is_exception e then
    match Cli.console_print (Cli.Error e) with
    | Ok _ =>
        Cli.ended out = Cli.Exit 1
        /\ Cli.printed out = lines ++ [Cli.Error e]
    | Raise e' =>
        Cli.ended out = Cli.Uncaught e' /\ Cli.printed out = lines
    end
  else
    Cli.ended out = Cli.Exit 1
    /\ Cli.printed out = lines ++ [Cli.InterruptedByUser].

(** An environment variable of [env_mapping] is set to a non-empty
    value. *)
Definition overriding (environ : gmap str str) : Prop :=
  exists env_var key c value,
    (env_var, key) ∈ Cli.env_mapping
    /\ environ !! env_var = Some (c :: value).

(** * Properties *)

(** C1.  [_split_text] at [two_sentences] with the budget 300 of
    [_transfer_post]: the text has 304 characters, its first sentence
    has 295 and does not fit the headroom of 290, so it opens a chunk
    behind an ellipsis and is closed by another one.  Before the thread
    indicators are added the first chunk has 301 characters, which is
    more than the budget. *)
Theorem split_text_chunk_over_budget :
  length two_sentences = 304
  /\ Re.split_sentences two_sentences = [long_sentence; u "Bye bye."]
  /\ Segmenter.chunks_of two_sentences 300
     = [u "..." ++ long_sentence ++ u "..."; u "...Bye bye."]
  /\ List.map length (Segmenter.chunks_of two_sentences 300) = [301; 11]
  /\ ~ Forall (fun chunk => (Py.len chunk <= 300)%Z)
         (Segmenter.chunks_of two_sentences 300).
Proof.
  repeat split; try (vm_compute; reflexivity).
  intros H. apply Forall_inv in H. vm_compute in H. apply H. reflexivity.
Qed.

Lemma foldl_add_sentence max_length sentences :
  forall acc,
    foldl (Segmenter.add_sentence max_length) acc sentences
    = foldl (Segmenter.add_piece max_length) acc
        (List.flat_map
           (fun sentence =>
              if (max_length <? Py.len sentence)%Z then Py.split sentence
              else [sentence])
           sentences).
Proof.
  induction sentences as [|s rest IH]; intros acc; simpl; [done|].
  rewrite foldl_app, IH. unfold Segmenter.add_sentence.
  by destruct (max_length <? Py.len s)%Z.
Qed.

Lemma add_piece_bounded max_length K acc piece :
  (Py.len piece <= K)%Z ->
  bounded max_length K acc ->
  bounded max_length K (Segmenter.add_piece max_length acc piece).
Proof.
  destruct acc as [chunks current]. intros Hp [Hcur Hall].
  unfold Segmenter.add_piece, bounded, Py.len in *. simpl in *.
  destruct (_ <=? _)%Z eqn:Hfit; simpl.
  - apply Z.leb_le in Hfit. split; [|done]. intros _.
    rewrite !length_app. destruct current; simpl in *; lia.
  - split; [intros _; lia|].
    destruct current as [|c current]; simpl; [done|].
    apply Forall_app. split; [done|]. constructor; [|done].
    specialize (Hcur ltac:(done)).
    rewrite length_cons, length_app. simpl in *. lia.
Qed.

Lemma foldl_add_piece_bounded max_length K ps :
  Forall (fun piece => (Py.len piece <= K)%Z) ps ->
  forall acc,
    bounded max_length K acc ->
    bounded max_length K (foldl (Segmenter.add_piece max_length) acc ps).
Proof.
  induction 1 as [|p ps Hp _ IH]; intros acc Hacc; simpl; [done|].
  apply IH. by apply add_piece_bounded.
Qed.

(** Every chunk, before the thread indicators are added, is within the
    budget when every piece is at least six characters shorter than the
    budget: the two ellipses then fit. *)
Lemma chunks_within_budget text max_length :
  Forall (fun piece => (Py.len piece <= max_length - 6)%Z)
    (pieces text max_length) ->
  Forall (fun chunk => (Py.len chunk <= max_length)%Z)
    (Segmenter.chunks_of text max_length).
Proof.
  intros Hpieces. unfold Segmenter.chunks_of.
  destruct (Py.len text <=? max_length)%Z eqn:Hshort.
  - apply Z.leb_le in Hshort. by repeat constructor.
  - rewrite foldl_add_sentence.
    pose proof (foldl_add_piece_bounded max_length (max_length - 6) _
                  Hpieces ([], [])) as Hb.
    fold (pieces text max_length) in Hb |- *.
    destruct (foldl _ _ _) as [chunks current].
    destruct Hb as [Hcur Hall].
    { split; [done | constructor]. }
    simpl in *.
    assert (Forall (fun chunk => (Py.len chunk <= max_length)%Z) chunks)
      as Hchunks.
    { eapply Forall_impl; [exact Hall|]. intros c Hc. simpl in Hc. lia. }
    destruct current as [|c current]; simpl; [done|].
    apply Forall_app. split; [done|]. constructor; [|done].
    specialize (Hcur ltac:(done)). lia.
Qed.

Section Properties.

Context {World : Type} `{C : Collaborators World}.
Implicit Types (m : machine World) (st : Stats.t) (post : MastodonPost.t).

Lemma touches_refl (P : event -> Prop) m : touches P m m.
Proof.
  repeat split. exists []. split; [by rewrite app_nil_r | constructor].
Qed.

Lemma touches_trans (P : event -> Prop) m1 m2 m3 :
  touches P m1 m2 -> touches P m2 m3 -> touches P m1 m3.
Proof.
  intros (Hs & Hf & Hc & evs & Ht & HP) (Hs' & Hf' & Hc' & evs' & Ht' & HP').
  repeat split; try congruence.
  exists (evs ++ evs'). split.
  - by rewrite Ht', Ht, app_assoc.
  - by apply Forall_app.
Qed.

Lemma within_ret {A} (P : event -> Prop) (a : A) : within World P (ret a).
Proof. intros m. apply touches_refl. Qed.

Lemma within_raise {A} (P : event -> Prop) e : within World P (@raise World A e).
Proof. intros m. apply touches_refl. Qed.

Lemma within_of_result {A} (P : event -> Prop) (r : result A) : within World P (of_result r).
Proof. intros m. apply touches_refl. Qed.

Lemma within_bind {A B} (P : event -> Prop) (c : M A) (k : A -> M B) :
  within World P c -> (forall a, within World P (k a)) -> within World P (bind c k).
Proof.
  intros Hc Hk m. unfold bind. specialize (Hc m).
  destruct (c m) as [m' [a|e]] eqn:E; simpl in *.
  - eapply touches_trans; [exact Hc | apply Hk].
  - exact Hc.
Qed.

Lemma within_getitem (P : event -> Prop) (d : dict) (key : str) : within World P (getitem d key).
Proof.
  unfold getitem. destruct (d !! key); [apply within_ret | apply within_raise].
Qed.

Lemma within_call {A} (P : event -> Prop) (f : World -> World * result A) ev :
  (forall r e, ev r = Some e -> P e) -> within World P (call f ev).
Proof.
  intros Hev m. unfold call. destruct (f (world m)) as [w r]. simpl.
  destruct (ev r) as [e|] eqn:E.
  - repeat split. exists [e]. split; [reflexivity|].
    constructor; [by eapply Hev | constructor].
  - apply (touches_refl P (set_world w m)).
Qed.

Lemma within_weaken {A} (P Q : event -> Prop) (c : M A) :
  (forall e, P e -> Q e) -> within World P c -> within World Q c.
Proof.
  intros HPQ Hc m. destruct (Hc m) as (Hs & Hf & Hco & evs & Ht & HP).
  repeat split; try done. exists evs. split; [done|].
  eapply Forall_impl; eauto.
Qed.

Lemma media_event_post_event t e : media_event e -> post_event t e.
Proof. by destruct e. Qed.

Lemma within_images_loop attachments :
  forall images, within World media_event (images_loop attachments images).
Proof.
  induction attachments as [|a rest IH]; intros images; simpl.
  - apply within_ret.
  - apply within_bind; [apply within_getitem|]. intros ty.
    case_bool_decide; [|apply IH].
    apply within_bind; [apply within_getitem|]. intros url.
    apply within_bind; [apply within_call; by intros ? ? [= <-]|].
    intros data.
    apply within_bind; [apply within_call; by intros ? ? [= <-]|].
    intros blob. apply IH.
Qed.

Lemma within_media_embed dry_run post :
  within World media_event (media_embed dry_run post).
Proof.
  unfold media_embed.
  destruct (MastodonPost.media_attachments post); [apply within_ret|].
  destruct dry_run; simpl; [apply within_ret|].
  unfold _create_media_embed.
  apply within_bind; [apply within_images_loop|].
  intros images. apply within_ret.
Qed.

Lemma within_ref_of (P : event -> Prop) (d : dict) : within World P (ref_of d).
Proof.
  unfold ref_of. apply within_bind; [apply within_getitem|]. intros a.
  apply within_bind; [apply within_getitem|]. intros b. apply within_ret.
Qed.

Lemma within_next_parent_ref (P : event -> Prop) (i n : nat)
    (parent_ref : option ReplyRef) (d : dict) :
  within World P (next_parent_ref i n parent_ref d).
Proof.
  unfold next_parent_ref. destruct (_ && _).
  - apply within_bind; [apply within_ref_of|]. intros a.
    apply within_bind; [apply within_ref_of|]. intros b. apply within_ret.
  - destruct parent_ref; [|apply within_ret].
    apply within_bind; [apply within_ref_of|]. intros b. apply within_ret.
Qed.

Lemma within_thread_loop n t embed posts_to_create :
  forall i parent_ref,
    within World (post_event t) (thread_loop n t embed i parent_ref posts_to_create).
Proof.
  induction posts_to_create as [|chunk rest IH]; intros i parent_ref; simpl.
  - apply within_ret.
  - apply within_bind; [apply within_call; by intros ? ? [=]|]. intros rich.
    apply within_bind; [apply within_call; by intros ? ? [= <-]|].
    intros res.
    apply within_bind; [apply within_next_parent_ref|]. intros pr. apply IH.
Qed.

Lemma within__transfer_post dry_run post :
  within World (post_event (MastodonPost.created_at post))
    (_transfer_post dry_run post).
Proof.
  unfold _transfer_post.
  apply within_bind; [apply within_of_result|]. intros text.
  apply within_bind.
  { eapply within_weaken; [apply media_event_post_event|].
    apply within_media_embed. }
  intros embed. apply within_thread_loop.
Qed.

(** *** One turn of the loop *)

Lemma say_unfold (msg : message) m :
  fixed msg = false ->
  say msg m = match console_print msg with
              | Ok _ => (print msg m, Ok tt)
              | Raise e => (m, Raise e)
              end.
Proof. intros H. unfold say. by rewrite H. Qed.

(** Printing touches the console only. *)
Lemma say_quiet (msg : message) m :
  let m' := (say msg m).1 in
  world m' = world m /\ state m' = state m
  /\ state_file m' = state_file m /\ trace m' = trace m.
Proof.
  unfold say. destruct (fixed msg); [done|].
  by destruct (console_print msg).
Qed.

Lemma handle_unfold post st0 e m :
  handle post st0 e m =
  if is_exception e then
    match console_print (ErrorTransferring (MastodonPost.id post) e) with
    | Ok _ => (print (ErrorTransferring (MastodonPost.id post) e) m,
               Ok (Stats.incr_errors st0))
    | Raise e' => (m, Raise e')
    end
  else (m, Raise e).
Proof.
  unfold handle. destruct (is_exception e); [|done].
  unfold bind. rewrite say_unfold by done.
  by destruct (console_print _) as [[]|e'].
Qed.

Lemma for_posts_cons dry_run skip_existing post rest st m :
  for_posts dry_run skip_existing (post :: rest) st m =
  match process_post dry_run skip_existing post st m with
  | (m', Ok st') => for_posts dry_run skip_existing rest st' m'
  | (m', Raise e) => (m', Raise e)
  end.
Proof. reflexivity. Qed.

(** The ways through the body of the loop: the post is skipped, it is
    transferred, its failure is counted, or an exception leaves the
    loop. *)
Lemma process_post_cases dry_run skip_existing post st m :
  let st0 := Stats.incr_processed st in
  let line e := ErrorTransferring (MastodonPost.id post) e in
  (skips skip_existing post m
   /\ process_post dry_run skip_existing post st m
      = (m, Ok (Stats.incr_skipped st0)))
  \/ (~ skips skip_existing post m
      /\ exists m', convert_and_create dry_run post m = (m', Ok tt)
         /\ process_post dry_run skip_existing post st m
            = (m', Ok (Stats.incr_transferred st0)))
  \/ (~ skips skip_existing post m
      /\ exists m' e, convert_and_create dry_run post m = (m', Raise e)
         /\ is_exception e = true
         /\ console_print (line e) = Ok tt
         /\ process_post dry_run skip_existing post st m
            = (print (line e) m', Ok (Stats.incr_errors st0)))
  \/ (~ skips skip_existing post m
      /\ exists m' e e', convert_and_create dry_run post m = (m', Raise e)
         /\ (is_exception e = false /\ e' = e
             \/ is_exception e = true /\ console_print (line e) = Raise e')
         /\ process_post dry_run skip_existing post st m = (m', Raise e')).
Proof.
  cbv zeta.
  assert (~ skips skip_existing post m ->
          process_post dry_run skip_existing post st m
          = match convert_and_create dry_run post m with
            | (m', Ok _) =>
                (m', Ok (Stats.incr_transferred (Stats.incr_processed st)))
            | (m', Raise e) =>
                handle post (Stats.incr_processed st) e m'
            end) as Hturn.
  { intros Hns. unfold process_post, skips in *.
    destruct skip_existing; cbn [andb]; [|done].
    case_bool_decide; [|done]. by destruct Hns. }
  destruct (decide (skips skip_existing post m)) as [Hs|Hns].
  { left. split; [done|]. destruct Hs as [-> Hin].
    unfold process_post. cbn [andb]. by rewrite bool_decide_eq_true_2. }
  right. rewrite (Hturn Hns).
  destruct (convert_and_create dry_run post m) as [m' [[]|e]] eqn:E.
  - left. split; [done|]. by exists m'.
  - right. rewrite handle_unfold.
    destruct (is_exception e) eqn:He.
    + destruct (console_print _) as [[]|e'] eqn:Hp.
      * left. split; [done|]. by exists m', e.
      * right. split; [done|]. exists m', e, e'.
        split; [done|]. split; [by right | done].
    + right. split; [done|]. exists m', e, e.
      split; [done|]. split; [by left | done].
Qed.

Lemma process_post_counts dry_run skip_existing post st m m' st' :
  process_post dry_run skip_existing post st m = (m', Ok st') ->
  Stats.processed st' = Stats.processed st + 1
  /\ outcomes st' = outcomes st + 1
  /\ Stats.errors st <= Stats.errors st'.
Proof.
  destruct (process_post_cases dry_run skip_existing post st m)
    as [[_ ->]|[(_ & m1 & _ & ->)|[(_ & m1 & e & _ & _ & _ & ->)
       |(_ & m1 & e & e' & _ & _ & ->)]]];
    intros [= _ <-] || intros [=]; unfold outcomes; simpl; lia.
Qed.

Lemma for_posts_counts dry_run skip_existing posts :
  forall st m m' st',
    for_posts dry_run skip_existing posts st m = (m', Ok st') ->
    Stats.processed st' = Stats.processed st + length posts
    /\ outcomes st' = outcomes st + length posts
    /\ Stats.errors st <= Stats.errors st'.
Proof.
  induction posts as [|post rest IH]; intros st m m' st'.
  - intros [= _ <-]. simpl. lia.
  - rewrite for_posts_cons.
    destruct (process_post dry_run skip_existing post st m)
      as [m1 [st1|e]] eqn:H1; [|discriminate].
    intros H2. apply process_post_counts in H1. apply IH in H2.
    simpl. lia.
Qed.

(** [transfer_posts], with the sequencing written out. *)
Lemma transfer_posts_unfold dry_run q skip_existing m :
  transfer_posts dry_run q skip_existing m =
  match get_posts q (world m) with
  | (w, Raise e) =>
      (add_event (GetPosts q) (set_world w (print Fetching m)), Raise e)
  | (w, Ok []) =>
      (print NoPostsFound
         (add_event (GetPosts q) (set_world w (print Fetching m))),
       Ok Stats.zero)
  | (w, Ok (p :: ps)) =>
      for_posts dry_run skip_existing (rev (p :: ps)) Stats.zero
        (print (Found (length (p :: ps)))
           (add_event (GetPosts q) (set_world w (print Fetching m))))
  end.
Proof.
  unfold transfer_posts, bind, say, call, ret. simpl.
  destruct (get_posts q (world m)) as [w [[|p ps]|e]]; reflexivity.
Qed.

(** The statistics of a run that returns count the fetched posts. *)
Lemma transfer_posts_processed dry_run q skip_existing m m' st w posts :
  transfer_posts dry_run q skip_existing m = (m', Ok st) ->
  get_posts q (world m) = (w, Ok posts) ->
  Stats.processed st = length posts
  /\ Stats.processed st
     = Stats.transferred st + Stats.skipped st + Stats.errors st
  /\ (posts = [] -> st = Stats.zero).
Proof.
  rewrite transfer_posts_unfold. intros Hrun Hget. rewrite Hget in Hrun.
  destruct posts as [|p ps].
  - injection Hrun as _ <-. done.
  - apply for_posts_counts in Hrun. unfold outcomes in Hrun.
    rewrite length_rev in Hrun. simpl in *.
    repeat split; [lia | lia | discriminate].
Qed.

(** C10.  A turn of the loop that is completed counts the post as
    processed and as exactly one of skipped, transferred or errors:
    skipped when [skip_existing] is set and the identifier is known,
    transferred when the conversion returned, errors when it raised.  In
    a dry run the conversion is the preview, so a post that is not
    skipped and whose preview line is printed counts as transferred.
    So the statistics that a run returns have
    [processed = transferred + skipped + errors], one per fetched post;
    an empty fetch returns four zeros; and when the fetch raises, so
    does the run. *)
Theorem stats_partition dry_run q skip_existing m :
  (forall post st m1 m2 st',
      process_post dry_run skip_existing post st m1 = (m2, Ok st') ->
      let st0 := Stats.incr_processed st in
      (skips skip_existing post m1 /\ st' = Stats.incr_skipped st0)
      \/ (~ skips skip_existing post m1
          /\ (exists m', convert_and_create dry_run post m1 = (m', Ok tt))
          /\ st' = Stats.incr_transferred st0)
      \/ (~ skips skip_existing post m1
          /\ (exists m' e, convert_and_create dry_run post m1 = (m', Raise e))
          /\ st' = Stats.incr_errors st0))
  /\ (forall post st m1,
        let preview := WouldTransfer (MastodonPost.id post)
                         (take 50 (MastodonPost.content post)) in
        ~ skips skip_existing post m1 ->
        console_print preview = Ok tt ->
        process_post true skip_existing post st m1
        = (print preview m1,
           Ok (Stats.incr_transferred (Stats.incr_processed st))))
  /\ (forall m' st,
        transfer_posts dry_run q skip_existing m = (m', Ok st) ->
        exists w posts,
          get_posts q (world m) = (w, Ok posts)
          /\ Stats.processed st = length posts
          /\ Stats.processed st
             = Stats.transferred st + Stats.skipped st + Stats.errors st
          /\ (posts = [] -> st = Stats.zero))
  /\ (forall w,
        get_posts q (world m) = (w, Ok []) ->
        (transfer_posts dry_run q skip_existing m).2 = Ok Stats.zero)
  /\ (forall w e,
        get_posts q (world m) = (w, Raise e) ->
        (transfer_posts dry_run q skip_existing m).2 = Raise e).
Proof.
  split; [|split; [|split; [|split]]].
  - intros post st m1 m2 st' Hturn. cbv zeta.
    destruct (process_post_cases dry_run skip_existing post st m1)
      as [[Hs Heq]|[(Hns & m' & Hcc & Heq)|[(Hns & m' & e & Hcc & _ & _ & Heq)
         |(_ & m' & e & e' & _ & _ & Heq)]]];
      rewrite Heq in Hturn; try discriminate; injection Hturn as _ <-.
    + left. done.
    + right. left. split; [done|]. split; [by exists m' | done].
    + right. right. split; [done|]. split; [by exists m', e | done].
  - intros post st m1 preview Hns Hprint.
    destruct (process_post_cases true skip_existing post st m1)
      as [[Hs _]|[(_ & m' & Hcc & ->)|[(_ & m' & e & Hcc & _)
         |(_ & m' & e & e' & Hcc & _)]]]; [done| | |].
    + unfold convert_and_create in Hcc. rewrite say_unfold in Hcc by done.
      fold preview in Hcc. rewrite Hprint in Hcc. by injection Hcc as <-.
    + unfold convert_and_create in Hcc. rewrite say_unfold in Hcc by done.
      fold preview in Hcc. by rewrite Hprint in Hcc.
    + unfold convert_and_create in Hcc. rewrite say_unfold in Hcc by done.
      fold preview in Hcc. by rewrite Hprint in Hcc.
  - intros m' st Hrun.
    destruct (get_posts q (world m)) as [w [posts|e]] eqn:Hget.
    + exists w, posts. split; [done|].
      by eapply transfer_posts_processed.
    + rewrite transfer_posts_unfold, Hget in Hrun. discriminate.
  - intros w Hget. by rewrite transfer_posts_unfold, Hget.
  - intros w e Hget. by rewrite transfer_posts_unfold, Hget.
Qed.

(** *** Dry run *)

Lemma dry_process_post skip_existing post st m :
  let m' := (process_post true skip_existing post st m).1 in
  world m' = world m /\ state m' = state m
  /\ state_file m' = state_file m /\ trace m' = trace m.
Proof.
  cbv zeta.
  pose proof (say_quiet (WouldTransfer (MastodonPost.id post)
                           (take 50 (MastodonPost.content post))) m) as Hq.
  cbv zeta in Hq.
  destruct (process_post_cases true skip_existing post st m)
    as [[_ ->]|[(_ & m' & Hcc & ->)|[(_ & m' & e & Hcc & _ & _ & ->)
       |(_ & m' & e & e' & Hcc & _ & ->)]]]; [done| | |];
    unfold convert_and_create in Hcc; rewrite Hcc in Hq; exact Hq.
Qed.

Lemma dry_for_posts skip_existing posts :
  forall st m,
    let m' := (for_posts true skip_existing posts st m).1 in
    world m' = world m /\ state m' = state m
    /\ state_file m' = state_file m /\ trace m' = trace m.
Proof.
  induction posts as [|post rest IH]; intros st m; [done|].
  cbv zeta. rewrite for_posts_cons.
  pose proof (dry_process_post skip_existing post st m) as H1.
  destruct (process_post true skip_existing post st m) as [m1 [st1|e]];
    cbv zeta in H1; cbn [fst] in H1; [|exact H1].
  destruct (IH st1 m1) as (Hw & Hs & Hf & Ht).
  destruct H1 as (Hw1 & Hs1 & Hf1 & Ht1).
  repeat split; congruence.
Qed.

Lemma init_untouched (w : World) (f : file) m0 :
  init w f = Ok m0 ->
  world m0 = w /\ state_file m0 = f /\ trace m0 = [].
Proof.
  unfold init. destruct (_load_state f w) as [[s printed]|e]; [|done].
  by intros [= <-].
Qed.

(** C7.  A run with [dry_run] set leaves [self.state] and the state file
    as they were, and all it does outside is the one fetch from
    Mastodon: no post is created on Bluesky, no media is downloaded or
    uploaded, the state file is not written.  This holds however the run
    ends.  [_save_state] itself does nothing, and building the manager
    does not touch the file either. *)
Theorem dry_run_changes_nothing q skip_existing m :
  let m' := (transfer_posts true q skip_existing m).1 in
  state m' = state m
  /\ state_file m' = state_file m
  /\ trace m' = trace m ++ [GetPosts q]
  /\ _save_state true m = (m, Ok tt)
  /\ (forall w f m0, init w f = Ok m0 -> state_file m0 = f /\ trace m0 = []).
Proof.
  cbv zeta. rewrite transfer_posts_unfold.
  assert (forall w f m0,
             init w f = Ok m0 -> state_file m0 = f /\ trace m0 = [])
    as Hinit.
  { intros w f m0 H. by apply init_untouched in H as (_ & ? & ?). }
  destruct (get_posts q (world m)) as [w [[|p ps]|e]]; try done.
  match goal with
  | |- context [for_posts true ?s ?l ?z ?m0] =>
      destruct (dry_for_posts s l z m0) as (_ & Hs & Hf & Ht)
  end.
  rewrite Hs, Hf, Ht. done.
Qed.

(** *** Loading the state *)


(** *** The text of a post *)

(** C9.  When the parser reads [<p>Hello</p><p>World</p>] as two
    paragraphs, a post with this body and no content warning gets the
    text [Hello], two newlines, [World]; and a post with a non-empty
    content warning [w] whose body normalizes to [t] gets the text
    [CW: ] followed by [w], two newlines and [t]. *)
Theorem post_text_spec :
  (BeautifulSoup hello_world_html = Ok hello_world_soup ->
   _html_to_text hello_world_html
   = Ok (u "Hello" ++ [Py.LF; Py.LF] ++ u "World")
   /\ forall post,
       MastodonPost.content post = hello_world_html ->
       MastodonPost.spoiler_text post = [] ->
       post_text post = Ok (u "Hello" ++ [Py.LF; Py.LF] ++ u "World"))
  /\ (forall post w t,
       MastodonPost.spoiler_text post = w -> w <> [] ->
       _html_to_text (MastodonPost.content post) = Ok t ->
       post_text post = Ok (u "CW: " ++ w ++ [Py.LF; Py.LF] ++ t)).
Proof.
  split.
  - intros Hparse.
    assert (_html_to_text hello_world_html
            = Ok (u "Hello" ++ [Py.LF; Py.LF] ++ u "World")) as Htext.
    { unfold _html_to_text. rewrite Hparse. vm_compute. reflexivity. }
    split; [exact Htext|].
    intros post Hc Hw. unfold post_text. by rewrite Hc, Htext, Hw.
  - intros post w t Hw Hne Ht. unfold post_text. rewrite Ht, Hw.
    destruct w; [done | reflexivity].
Qed.

(** *** Committing a post *)

(** Lines 108-112, with the sequencing written out: the transfer may
    raise; if it returns, the state is updated and then saved, and the
    save may raise too, before or after it has emptied the file. *)
Lemma convert_and_create_unfold post m :
  convert_and_create false post m =
  match _transfer_post false post m with
  | (m1, Raise e) => (m1, Raise e)
  | (m1, Ok _) =>
      let m2 := set_state (recorded post m1) m1 in
      match open_w (world m1) with
      | (w, Raise e) => (set_world w m2, Raise e)
      | (w, Ok _) =>
          match json_dump (recorded post m1) w with
          | (w', Written) =>
              (add_event (WriteStateFile (recorded post m1))
                 (set_state_file (Saved (recorded post m1))
                    (set_world w' m2)), Ok tt)
          | (w', Broke e remains) =>
              (add_event (BreakStateFile remains)
                 (set_state_file (Raw remains) (set_world w' m2)), Raise e)
          end
      end
  end.
Proof.
  unfold convert_and_create, bind, record_transferred, _save_state. simpl.
  destruct (_transfer_post false post m) as [m1 [[]|e]]; [|reflexivity].
  simpl. destruct (open_w (world m1)) as [w [[]|e]]; [|reflexivity].
  fold (recorded post m1).
  destruct (json_dump (recorded post m1) w) as [w' [|e remains]];
    reflexivity.
Qed.

Lemma convert_and_create_ok post m m' :
  convert_and_create false post m = (m', Ok tt) ->
  exists m1,
    _transfer_post false post m = (m1, Ok tt)
    /\ state m' = recorded post m1
    /\ state_file m' = Saved (state m')
    /\ state m1 = state m.
Proof.
  rewrite convert_and_create_unfold.
  pose proof (within__transfer_post false post m) as (Hs & _).
  destruct (_transfer_post false post m) as [m1 [[]|e]]; [|discriminate].
  cbv zeta.
  destruct (open_w (world m1)) as [w [[]|e]]; [|discriminate].
  destruct (json_dump (recorded post m1) w) as [w' [|e remains]];
    [|discriminate].
  intros [= <-]. exists m1. simpl in *. done.
Qed.

(** What the conversion of a post can do to [self.state]: nothing, or
    record the post. *)
Lemma convert_and_create_state post m :
  let m' := (convert_and_create false post m).1 in
  state m' = state m
  \/ exists m1, state m1 = state m /\ state m' = recorded post m1.
Proof.
  cbv zeta. rewrite convert_and_create_unfold.
  pose proof (within__transfer_post false post m) as (Hs & _).
  destruct (_transfer_post false post m) as [m1 [[]|e]]; cbn [fst] in *;
    [|by left].
  right. exists m1. split; [done|]. cbv zeta.
  destruct (open_w (world m1)) as [w [[]|e]]; [|done].
  by destruct (json_dump (recorded post m1) w) as [w' [|e remains]].
Qed.

Lemma load_state_ids (f : file) (w w' : World) s printed :
  _load_state f w = Ok (s, printed) ->
  exists s',
    _load_state f w' = Ok (s', printed)
    /\ TransferState.transferred_ids s' = TransferState.transferred_ids s.
Proof.
  assert (forall e, load_failed e w = Ok (s, printed) ->
            exists s', load_failed e w' = Ok (s', printed)
                       /\ TransferState.transferred_ids s'
                          = TransferState.transferred_ids s) as Hfail.
  { intros e. unfold load_failed. destruct (is_exception e); [|done].
    destruct (console_print _); [|done].
    intros [= <- <-]. by eexists. }
  destruct f as [|e|text|s0]; simpl.
  - intros [= <- <-]. by eexists.
  - apply Hfail.
  - destruct (parse_state text) as [s0|e]; [|apply Hfail].
    intros [= <- <-]. by eexists.
  - intros [= <- <-]. by eexists.
Qed.

Lemma init_file_agrees (w : World) (f : file) m0 :
  init w f = Ok m0 -> file_agrees m0.
Proof.
  unfold init. destruct (_load_state f w) as [[s printed]|e] eqn:E; [|done].
  intros [= <-] w'. cbn.
  destruct (load_state_ids f w w' s printed E) as (s' & Hs' & Hids).
  by exists s', printed.
Qed.

Lemma file_agrees_same m m' :
  state m' = state m -> state_file m' = state_file m ->
  file_agrees m -> file_agrees m'.
Proof. intros Hs Hf H w. rewrite Hs, Hf. apply H. Qed.

(** A later process can build its manager on a file that agrees. *)
Lemma file_agrees_init m (w : World) :
  file_agrees m ->
  exists m0,
    init w (state_file m) = Ok m0
    /\ world m0 = w
    /\ TransferState.transferred_ids (state m0)
       = TransferState.transferred_ids (state m).
Proof.
  intros H. destruct (H w) as (s & printed & Hload & Hids).
  unfold init. rewrite Hload. by eexists.
Qed.

(** A turn of the loop that counts no error leaves the post's identifier
    in the state, and the file in step with it. *)
Lemma process_post_no_error skip_existing post st m m' st' :
  process_post false skip_existing post st m = (m', Ok st') ->
  Stats.errors st' = Stats.errors st ->
  file_agrees m ->
  file_agrees m'
  /\ TransferState.transferred_ids (state m)
     ⊆ TransferState.transferred_ids (state m')
  /\ MastodonPost.id post ∈ TransferState.transferred_ids (state m').
Proof.
  destruct (process_post_cases false skip_existing post st m)
    as [[[_ Hin] ->]|[(_ & m1 & Hok & ->)|[(_ & m1 & e & _ & _ & _ & ->)
       |(_ & m1 & e & e' & _ & _ & ->)]]]; intros [= <- <-] || intros [=].
  - intros _ Hf. done.
  - intros _ Hf.
    destruct (convert_and_create_ok _ _ _ Hok) as (mx & _ & Hs & Hfile & Hm1).
    split; [|split].
    + intros w. rewrite Hfile. by eexists _, _.
    + rewrite Hs. simpl. rewrite Hm1. set_solver.
    + rewrite Hs. simpl. set_solver.
  - simpl. lia.
Qed.

Lemma for_posts_no_error skip_existing posts :
  forall st m m' st',
    for_posts false skip_existing posts st m = (m', Ok st') ->
    Stats.errors st' = Stats.errors st ->
    file_agrees m ->
    file_agrees m'
    /\ TransferState.transferred_ids (state m)
       ⊆ TransferState.transferred_ids (state m')
    /\ forall post, post ∈ posts ->
         MastodonPost.id post ∈ TransferState.transferred_ids (state m').
Proof.
  induction posts as [|post rest IH]; intros st m m' st'.
  - intros [= <- <-] _ Hf. split; [done|]. split; [done|].
    intros p Hp. inversion Hp.
  - rewrite for_posts_cons.
    destruct (process_post false skip_existing post st m)
      as [m1 [st1|e]] eqn:H1; [|discriminate].
    intros H2 He Hf.
    pose proof (process_post_counts _ _ _ _ _ _ _ H1) as (_ & _ & Hc1).
    pose proof (for_posts_counts _ _ _ _ _ _ _ H2) as (_ & _ & Hc2).
    destruct (process_post_no_error _ _ _ _ _ _ H1) as (Hf1 & Hsub1 & Hin1);
      [lia | done |].
    destruct (IH _ _ _ _ H2) as (Hf2 & Hsub2 & Hin2); [lia | done |].
    split; [done|]. split; [by etrans|].
    intros p Hp. apply elem_of_cons in Hp as [->|Hp]; [by apply Hsub2 | auto].
Qed.

(** With [skip_existing], posts whose identifiers are all in the state
    are all skipped, and nothing else happens. *)
Lemma for_posts_all_skipped dry_run posts :
  forall st m,
    (forall post, post ∈ posts ->
       MastodonPost.id post ∈ TransferState.transferred_ids (state m)) ->
    for_posts dry_run true posts st m
    = (m, Ok (Stats.mk (Stats.processed st + length posts)
                (Stats.transferred st)
                (Stats.skipped st + length posts) (Stats.errors st))).
Proof.
  induction posts as [|post rest IH]; intros st m Hall.
  - destruct st; simpl. unfold ret. do 3 f_equal; lia.
  - rewrite for_posts_cons. unfold process_post. simpl.
    rewrite bool_decide_eq_true_2 by (apply Hall; left).
    rewrite IH by (intros p Hp; apply Hall; by right).
    simpl. do 3 f_equal; lia.
Qed.

(** *** Failure isolation *)

Lemma for_posts_app dry_run skip_existing before after :
  forall st m,
    for_posts dry_run skip_existing (before ++ after) st m
    = match for_posts dry_run skip_existing before st m with
      | (m1, Ok st1) => for_posts dry_run skip_existing after st1 m1
      | (m1, Raise e) => (m1, Raise e)
      end.
Proof.
  induction before as [|post rest IH]; intros st m.
  - reflexivity.
  - rewrite <- app_comm_cons, !for_posts_cons.
    destruct (process_post dry_run skip_existing post st m)
      as [m1 [st1|e]]; [apply IH | reflexivity].
Qed.

(** C5, as the code has it.  In a run that is not a dry run, let [post]
    come after the posts [before], not be skipped, and let
    [_transfer_post] raise [e] for it (normalization, media or
    submission).  Then [self.state] and the state file are as they were
    before the turn, so the identifier of [post] has not been added: it
    is not in the transferred set when [skip_existing] is set, or
    whenever it was not there before.

    When [e] is of the class [Exception] and the console takes the line
    on the error, the turn counts the post as processed and as an error
    and as nothing else, and the loop goes on with the posts [after].
    When [e] is not of that class, or when the console refuses the
    line, which is printed inside the handler, an exception leaves the
    loop: no error is counted and the posts [after] are not processed.

    A post whose turn does not raise is recorded: its identifier is in
    the set, it is the last identifier, and the state file holds this
    state. *)
Theorem failure_isolation skip_existing before post after st m m1 st1 m2 e :
  for_posts false skip_existing before st m = (m1, Ok st1) ->
  ~ skips skip_existing post m1 ->
  _transfer_post false post m1 = (m2, Raise e) ->
  let line := ErrorTransferring (MastodonPost.id post) e in
  let st3 := Stats.incr_errors (Stats.incr_processed st1) in
  state m2 = state m1
  /\ state_file m2 = state_file m1
  /\ (skip_existing = true
      \/ MastodonPost.id post ∉ TransferState.transferred_ids (state m1) ->
      MastodonPost.id post ∉ TransferState.transferred_ids (state m2))
  /\ (is_exception e = true ->
      console_print line = Ok tt ->
      process_post false skip_existing post st1 m1 = (print line m2, Ok st3)
      /\ for_posts false skip_existing (before ++ post :: after) st m
         = for_posts false skip_existing after st3 (print line m2))
  /\ (forall e',
        is_exception e = false /\ e' = e
        \/ is_exception e = true /\ console_print line = Raise e' ->
        process_post false skip_existing post st1 m1 = (m2, Raise e')
        /\ for_posts false skip_existing (before ++ post :: after) st m
           = (m2, Raise e'))
  /\ (forall post' st' m' m'',
        ~ skips skip_existing post' m' ->
        convert_and_create false post' m' = (m'', Ok tt) ->
        process_post false skip_existing post' st' m'
        = (m'', Ok (Stats.incr_transferred (Stats.incr_processed st')))
        /\ MastodonPost.id post'
           ∈ TransferState.transferred_ids (state m'')
        /\ TransferState.last_mastodon_id (state m'')
           = Some (MastodonPost.id post')
        /\ state_file m'' = Saved (state m'')).
Proof.
  intros Hbefore Hns Hraise line st3.
  pose proof (for_posts_app false skip_existing before (post :: after) st m)
    as Happ.
  rewrite Hbefore, for_posts_cons in Happ.
  assert (convert_and_create false post m1 = (m2, Raise e)) as Hcc.
  { by rewrite convert_and_create_unfold, Hraise. }
  pose proof (within__transfer_post false post m1) as (Hs & Hf & _).
  rewrite Hraise in Hs, Hf. simpl in Hs, Hf.
  split; [exact Hs|]. split; [exact Hf|].
  split; [|split; [|split]].
  - rewrite Hs. intros [->|Hnot]; [|exact Hnot].
    intros Hin. apply Hns. by split.
  - intros Hexc Hprint.
    assert (process_post false skip_existing post st1 m1
            = (print line m2, Ok st3)) as Hturn.
    { destruct (process_post_cases false skip_existing post st1 m1)
        as [[Hsk _]|[(_ & m' & Hok & _)|[(_ & m' & e0 & Herr & _ & _ & ->)
           |(_ & m' & e0 & e' & Herr & Hwhy & _)]]].
      - contradiction.
      - rewrite Hcc in Hok. discriminate.
      - rewrite Hcc in Herr. by injection Herr as <- <-.
      - rewrite Hcc in Herr. injection Herr as <- <-.
        destruct Hwhy as [[Hno _]|[_ Hno]].
        + rewrite Hexc in Hno. discriminate.
        + fold line in Hno. rewrite Hprint in Hno. discriminate. }
    split; [exact Hturn|]. rewrite Happ. by rewrite Hturn.
  - intros e' Hwhy.
    assert (process_post false skip_existing post st1 m1 = (m2, Raise e'))
      as Hturn.
    { destruct (process_post_cases false skip_existing post st1 m1)
        as [[Hsk _]|[(_ & m' & Hok & _)|[(_ & m' & e0 & Herr & He0 & Hp0 & _)
           |(_ & m' & e0 & e0' & Herr & Hwhy0 & ->)]]].
      - contradiction.
      - rewrite Hcc in Hok. discriminate.
      - rewrite Hcc in Herr. injection Herr as <- <-.
        destruct Hwhy as [[Hno _]|[_ Hno]].
        + rewrite He0 in Hno. discriminate.
        + fold line in Hp0. rewrite Hp0 in Hno. discriminate.
      - rewrite Hcc in Herr. injection Herr as <- <-.
        f_equal. f_equal.
        destruct Hwhy as [[Hn1 ->]|[Hy1 Hp1]],
                 Hwhy0 as [[Hn0 ->]|[Hy0 Hp0]]; try congruence.
        fold line in Hp0. congruence. }
    split; [exact Hturn|]. rewrite Happ. by rewrite Hturn.
  - intros post' st' m' m'' Hns' Hok.
    destruct (convert_and_create_ok _ _ _ Hok) as (m1' & _ & Hst & Hfile & _).
    split; [|split; [|split]].
    + destruct (process_post_cases false skip_existing post' st' m')
        as [[Hsk _]|[(_ & mx & Hok' & ->)|[(_ & mx & e0 & Herr & _)
           |(_ & mx & e0 & e0' & Herr & _)]]].
      * contradiction.
      * rewrite Hok in Hok'. by injection Hok' as <-.
      * rewrite Hok in Herr. discriminate.
      * rewrite Hok in Herr. discriminate.
    + rewrite Hst. simpl. set_solver.
    + by rewrite Hst.
    + exact Hfile.
Qed.

(** *** Running twice *)

Lemma transfer_posts_counts dry_run q skip_existing m m' st :
  transfer_posts dry_run q skip_existing m = (m', Ok st) ->
  Stats.transferred st + Stats.skipped st + Stats.errors st
  = Stats.processed st.
Proof.
  intros Hrun.
  destruct (get_posts q (world m)) as [w [posts|e]] eqn:Hget.
  - destruct (transfer_posts_processed _ _ _ _ _ _ _ _ Hrun Hget)
      as (_ & Hsum & _). lia.
  - rewrite transfer_posts_unfold, Hget in Hrun. discriminate.
Qed.

(** C2, as the code has it.  The statistics of a run add up with the
    errors, so [transferred + skipped = processed] holds for a run
    without errors.  After such a run that was not a dry run, a second
    process finds the state file of the first, can build its manager on
    it and, when it fetches the same posts with [skip_existing] set,
    skips every post and transfers none. *)
Theorem rerun_transfers_nothing :
  (forall dry_run q skip_existing m m' st,
      transfer_posts dry_run q skip_existing m = (m', Ok st) ->
      Stats.errors st = 0 ->
      Stats.transferred st + Stats.skipped st = Stats.processed st)
  /\ (forall q skip_existing (w : World) (f : file) m0 m1 st1,
        init w f = Ok m0 ->
        transfer_posts false q skip_existing m0 = (m1, Ok st1) ->
        Stats.errors st1 = 0 ->
        forall dry_run q2 (w2 : World),
          (get_posts q2 w2).2 = (get_posts q w).2 ->
          exists m0',
            init w2 (state_file m1) = Ok m0'
            /\ forall m2 st2,
                transfer_posts dry_run q2 true m0' = (m2, Ok st2) ->
                Stats.transferred st2 = 0
                /\ Stats.skipped st2 = Stats.processed st2
                /\ Stats.errors st2 = 0).
Proof.
  split.
  { intros dry_run q skip_existing m m' st Hrun Herr.
    apply transfer_posts_counts in Hrun. lia. }
  intros q skip_existing w f m0 m1 st1 Hinit Hrun Herr.
  pose proof (init_file_agrees _ _ _ Hinit) as Hagree0.
  apply init_untouched in Hinit as (Hw & _ & _).
  rewrite transfer_posts_unfold, Hw in Hrun.
  destruct (get_posts q w) as [w' [posts|e]] eqn:Hget;
    [|discriminate Hrun].
  (* what the first run left behind *)
  assert (file_agrees m1
          /\ forall post, post ∈ posts ->
               MastodonPost.id post
                 ∈ TransferState.transferred_ids (state m1))
    as [Hagree Hall].
  { destruct posts as [|p ps].
    - injection Hrun as <- _. split; [|intros p Hp; inversion Hp].
      by eapply file_agrees_same; [| |exact Hagree0].
    - apply for_posts_no_error in Hrun as (Hag & _ & Hin); [|done|].
      + split; [exact Hag|]. intros post Hpost. apply Hin.
        apply list_elem_of_In, in_rev. rewrite rev_involutive.
        by apply list_elem_of_In.
      + by eapply file_agrees_same; [| |exact Hagree0]. }
  intros dry_run q2 w2 Hsame.
  destruct (file_agrees_init m1 w2 Hagree) as (m0' & Hinit' & Hw2 & Hids).
  exists m0'. split; [exact Hinit'|].
  intros m2 st2 Hrun2.
  rewrite transfer_posts_unfold, Hw2 in Hrun2.
  destruct (get_posts q2 w2) as [w2' r2]. simpl in Hsame. subst r2.
  destruct posts as [|p ps].
  - injection Hrun2 as _ <-. done.
  - (* so the second run skips them all *)
    rewrite for_posts_all_skipped in Hrun2.
    + injection Hrun2 as _ <-. simpl. done.
    + intros post Hpost. simpl. rewrite Hids. apply Hall.
      apply list_elem_of_In, in_rev, list_elem_of_In. exact Hpost.
Qed.

(** *** Order of submission *)

Lemma submitted_at_cons e evs :
  submitted_at (e :: evs)
  = match e with
    | CreatePost p _ => BlueskyPost.created_at p :: submitted_at evs
    | _ => submitted_at evs
    end.
Proof. by destruct e. Qed.

Lemma submitted_at_post_events t evs :
  Forall (post_event t) evs ->
  exists k, submitted_at evs = replicate k t.
Proof.
  induction 1 as [|e evs He _ [k IH]].
  - by exists 0.
  - rewrite submitted_at_cons.
    destruct e as [| | |p r| |]; simpl in He; try done; try by exists k.
    exists (S k). simpl. by rewrite IH, He.
Qed.

Lemma touches_submitted_at t m m' :
  touches (post_event t) m m' ->
  exists k,
    submitted_at (trace m') = submitted_at (trace m) ++ replicate k t.
Proof.
  intros (_ & _ & _ & evs & -> & Hevs).
  destruct (submitted_at_post_events t evs Hevs) as [k Hk].
  exists k. unfold submitted_at in *. by rewrite omap_app, Hk.
Qed.

Lemma convert_and_create_submitted dry_run post m :
  exists k,
    submitted_at (trace (convert_and_create dry_run post m).1)
    = submitted_at (trace m) ++ replicate k (MastodonPost.created_at post).
Proof.
  destruct dry_run.
  - exists 0. unfold convert_and_create.
    destruct (say_quiet (WouldTransfer (MastodonPost.id post)
                           (take 50 (MastodonPost.content post))) m)
      as (_ & _ & _ & ->).
    by rewrite app_nil_r.
  - rewrite convert_and_create_unfold.
    pose proof (within__transfer_post false post m) as Ht.
    apply touches_submitted_at in Ht as [k Hk]. exists k.
    destruct (_transfer_post false post m) as [m1 [[]|e]]; [|done].
    cbv zeta. destruct (open_w (world m1)) as [w [[]|e]]; [|done].
    destruct (json_dump (recorded post m1) w) as [w' [|e remains]];
      cbn [fst trace add_event set_state_file set_world set_state] in *;
      unfold submitted_at in *; rewrite omap_app; cbn;
      by rewrite app_nil_r.
Qed.

Lemma process_post_submitted dry_run skip_existing post st m :
  exists k,
    submitted_at (trace (process_post dry_run skip_existing post st m).1)
    = submitted_at (trace m) ++ replicate k (MastodonPost.created_at post).
Proof.
  destruct (convert_and_create_submitted dry_run post m) as [k Hk].
  destruct (process_post_cases dry_run skip_existing post st m)
    as [[_ ->]|[(_ & m' & Hcc & ->)|[(_ & m' & e & Hcc & _ & _ & ->)
       |(_ & m' & e & e' & Hcc & _ & ->)]]]; cbn [fst];
    try (rewrite Hcc in Hk; by exists k).
  exists 0. by rewrite app_nil_r.
Qed.

(** Posts taken in the order of their creation times are submitted in
    that order. *)
Lemma for_posts_submitted dry_run skip_existing posts :
  StronglySorted Z.le (MastodonPost.created_at <$> posts) ->
  forall st m,
  exists ts,
    submitted_at (trace (for_posts dry_run skip_existing posts st m).1)
    = submitted_at (trace m) ++ ts
    /\ StronglySorted Z.le ts
    /\ Forall (fun t => t ∈ MastodonPost.created_at <$> posts) ts.
Proof.
  induction posts as [|post rest IH]; intros Hsorted st m.
  - exists []. simpl. rewrite app_nil_r. repeat constructor.
  - rewrite for_posts_cons. rewrite fmap_cons in Hsorted.
    apply StronglySorted_cons in Hsorted as [Hle Hrest].
    destruct (process_post_submitted dry_run skip_existing post st m)
      as [k Hk].
    assert (StronglySorted Z.le
              (replicate k (MastodonPost.created_at post))) as Hrep.
    { clear. induction k; simpl; constructor; [done|].
      apply Forall_forall. intros x Hx.
      apply elem_of_replicate in Hx as [-> _]. done. }
    assert (Forall (fun t => t ∈ MastodonPost.created_at post
                               :: (MastodonPost.created_at <$> rest))
              (replicate k (MastodonPost.created_at post))) as Hin0.
    { apply Forall_forall. intros x Hx.
      apply elem_of_replicate in Hx as [-> _]. by left. }
    destruct (process_post dry_run skip_existing post st m)
      as [m1 [st1|e]]; cbn [fst] in Hk.
    + destruct (IH Hrest st1 m1) as (ts & Hts & Hs & Hin).
      exists (replicate k (MastodonPost.created_at post) ++ ts).
      rewrite Hts, Hk, app_assoc.
      split; [done|]. split.
      * apply StronglySorted_app_2; [|done|done].
        intros x1 x2 H1 H2. apply elem_of_replicate in H1 as [-> _].
        rewrite Forall_forall in Hle, Hin. apply Hle, Hin, H2.
      * apply Forall_app. split; [done|].
        eapply Forall_impl; [exact Hin|]. intros x Hx. by right.
    + exists (replicate k (MastodonPost.created_at post)).
      cbn [fst]. done.
Qed.

Lemma convert_and_create_trace post m m' :
  convert_and_create false post m = (m', Ok tt) ->
  exists evs,
    trace m' = trace m ++ evs
    /\ transferred_by post evs
    /\ TransferState.transferred_ids (state m')
       = {[MastodonPost.id post]} ∪ TransferState.transferred_ids (state m).
Proof.
  rewrite convert_and_create_unfold.
  pose proof (within__transfer_post false post m)
    as (Hs & _ & _ & calls & Htr & Hcalls).
  destruct (_transfer_post false post m) as [m1 [[]|e]]; [|discriminate].
  cbv zeta. cbn [fst] in *.
  destruct (open_w (world m1)) as [w [[]|e]]; [|discriminate].
  destruct (json_dump (recorded post m1) w) as [w' [|e remains]];
    [|discriminate].
  intros [= <-]. exists (calls ++ [WriteStateFile (recorded post m1)]).
  cbn. rewrite Htr, Hs, <- app_assoc. split; [done|]. split; [|done].
  by exists calls, (recorded post m1).
Qed.

(** A loop that counts no error transfers the posts it does not skip,
    one after the other. *)
Lemma for_posts_taken skip_existing posts :
  forall st m m' st',
    for_posts false skip_existing posts st m = (m', Ok st') ->
    Stats.errors st' = Stats.errors st ->
    exists groups,
      trace m' = trace m ++ concat groups
      /\ Forall2 transferred_by
           (taken skip_existing (TransferState.transferred_ids (state m))
              posts)
           groups.
Proof.
  induction posts as [|post rest IH]; intros st m m' st'.
  - intros [= <- <-] _. exists []. simpl. rewrite app_nil_r.
    split; [done | constructor].
  - rewrite for_posts_cons.
    destruct (process_post false skip_existing post st m)
      as [m1 [st1|e]] eqn:H1; [|discriminate].
    intros H2 He.
    pose proof (process_post_counts _ _ _ _ _ _ _ H1) as (_ & _ & Hc1).
    pose proof (for_posts_counts _ _ _ _ _ _ _ H2) as (_ & _ & Hc2).
    destruct (IH _ _ _ _ H2) as (groups & Htr & Hall); [lia|].
    destruct (process_post_cases false skip_existing post st m)
      as [[[-> Hin] Heq]|[(Hns & mx & Hcc & Heq)|[(_ & mx & e & _ & _ & _ & Heq)
         |(_ & mx & e & e' & _ & _ & Heq)]]];
      rewrite Heq in H1; try discriminate; injection H1 as <- <-.
    + exists groups. split; [done|]. cbn [taken andb].
      by rewrite bool_decide_eq_true_2.
    + destruct (convert_and_create_trace _ _ _ Hcc) as (evs & Hevs & Hby & Hids).
      exists (evs :: groups). split.
      * rewrite Htr, Hevs. cbn [concat]. by rewrite app_assoc.
      * cbn [taken].
        assert (skip_existing
                && bool_decide (MastodonPost.id post
                                  ∈ TransferState.transferred_ids (state m))
                = false) as ->.
        { destruct skip_existing; [|done]. cbn [andb].
          apply bool_decide_eq_false_2. intros Hin. by apply Hns. }
        constructor; [exact Hby|]. by rewrite <- Hids.
    + simpl in *. lia.
Qed.

(** C4, as the code has it.  The run takes the fetched posts in the
    reverse of the order in which [get_posts] returned them; nothing is
    sorted.  A run that is not a dry run and counts no error leaves,
    after the fetch, one group of calls for each post that it does not
    skip, in this reversed order: the calls for the media and the
    submissions of the post, all with its creation time, and then the
    write of the state in which the post is the last one.  So when the
    fetch returns the posts newest first (creation times not
    increasing), the posts handed to [create_post] during a run,
    however it ends, carry creation times that do not decrease. *)
Theorem oldest_first dry_run q skip_existing m w' posts :
  get_posts q (world m) = (w', Ok posts) ->
  (forall m' st,
      transfer_posts false q skip_existing m = (m', Ok st) ->
      Stats.errors st = 0 ->
      exists groups,
        trace m' = trace m ++ GetPosts q :: concat groups
        /\ Forall2 transferred_by
             (taken skip_existing
                (TransferState.transferred_ids (state m)) (rev posts))
             groups)
  /\ (Sorted (flip Z.le) (MastodonPost.created_at <$> posts) ->
      exists ts,
        submitted_at (trace (transfer_posts dry_run q skip_existing m).1)
        = submitted_at (trace m) ++ ts
        /\ Sorted Z.le ts).
Proof.
  intros Hget. split.
  - intros m' st Hrun Herr.
    rewrite transfer_posts_unfold, Hget in Hrun.
    destruct posts as [|p ps].
    + injection Hrun as <- _. exists []. split; [done | constructor].
    + apply for_posts_taken in Hrun as (groups & Htr & Hall); [|done].
      exists groups. split; [|exact Hall].
      rewrite Htr. cbn. by rewrite <- app_assoc.
  - intros Hnewest.
    rewrite transfer_posts_unfold, Hget.
    destruct posts as [|p ps].
    + exists []. simpl. unfold submitted_at. rewrite omap_app. simpl.
      split; [done | constructor].
    + assert (StronglySorted Z.le
                (MastodonPost.created_at <$> rev (p :: ps))) as Hs.
      { apply Sorted_StronglySorted; [apply _|].
        rewrite rev_alt.
        change (rev_append (p :: ps) []) with (reverse (p :: ps)).
        rewrite fmap_reverse. exact (Sorted_reverse _ _ Hnewest). }
      match goal with
      | |- context [for_posts ?d ?s ?l ?z ?m0] =>
          destruct (for_posts_submitted d s l Hs z m0)
            as (ts & Hts & Hsorted & _)
      end.
      exists ts. rewrite Hts. cbn.
      unfold submitted_at. rewrite omap_app. cbn.
      split; [by rewrite app_nil_r|].
      by apply StronglySorted_Sorted.
Qed.

(** *** The Media Resolver *)

Lemma images_loop_spec attachments :
  forall images m m' out,
    images_loop attachments images m = (m', Ok out) ->
    exists new,
      out = images ++ new
      /\ Forall2 image_of (List.filter is_image attachments) new.
Proof.
  induction attachments as [|a rest IH]; intros images m m' out; simpl.
  - intros [= _ <-]. exists []. split; [by rewrite app_nil_r | constructor].
  - unfold bind at 1. unfold getitem at 1. unfold is_image at 1.
    destruct (a !! u "type") as [ty|] eqn:Hty; simpl; [|discriminate].
    case_bool_decide as Himg.
    + subst ty. rewrite bool_decide_eq_true_2 by done.
      unfold bind at 1. unfold getitem at 1.
      destruct (a !! u "url") as [url|] eqn:Hurl; simpl; [|discriminate].
      unfold bind at 1. unfold call at 1.
      destruct (download_media url (world m)) as [w2 [data|e]] eqn:Hdl;
        simpl; [|discriminate].
      unfold bind at 1. unfold call at 1. simpl.
      destruct (upload_image data w2) as [w3 [blob|e]] eqn:Hup;
        simpl; [|discriminate].
      intros Hrest. apply IH in Hrest as (new & -> & Hnew).
      eexists (_ :: new). split; [by rewrite <- app_assoc|].
      constructor; [|exact Hnew].
      split; [reflexivity|]. exists url, (world m), w2, w3, data. done.
    + rewrite bool_decide_eq_false_2 by congruence. apply IH.
Qed.

(** C3, as the code has it.  When [_transfer_post] gets an embed for the
    attachments of a post, its images are made, one for one and in their
    order, from the attachments of type [image] among the first four
    attachments of the post: an attachment of another type among these
    four is left out and its place is not given to a later image.  So
    there are at most 4 images; without any there is no embed; in a dry
    run there is no embed and nothing is downloaded or uploaded. *)
Theorem media_embed_spec post m m' embed :
  media_embed false post m = (m', Ok embed) ->
  let first_four := take 4 (MastodonPost.media_attachments post) in
  Forall2 image_of (List.filter is_image first_four) (images_in embed)
  /\ length (images_in embed) <= 4
  /\ (embed = None <-> List.filter is_image first_four = [])
  /\ (forall e, embed = Some e -> type_ e = u "app.bsky.embed.images")
  /\ media_embed true post m = (m, Ok None).
Proof.
  intros Hrun first_four.
  assert (media_embed true post m = (m, Ok None)) as Hdry.
  { unfold media_embed. by destruct (MastodonPost.media_attachments post). }
  assert (Forall2 image_of (List.filter is_image first_four) (images_in embed)
          /\ (forall e, embed = Some e -> type_ e = u "app.bsky.embed.images")
          /\ (embed = None <-> images_in embed = [])) as (Hall & Hty & Hnone).
  { unfold media_embed in Hrun. subst first_four.
    destruct (MastodonPost.media_attachments post) as [|a rest] eqn:Hatt.
    - injection Hrun as _ <-. simpl. split; [constructor|done].
    - change (negb false) with true in Hrun. cbv iota in Hrun.
      unfold _create_media_embed, bind in Hrun.
      destruct (images_loop (take 4 (a :: rest)) [] m) as [m1 [out|e]]
        eqn:Hloop; [|discriminate Hrun].
      apply images_loop_spec in Hloop as (new & -> & Hnew).
      unfold ret in Hrun. simpl in Hrun.
      destruct new as [|img new]; injection Hrun as _ <-.
      + done.
      + split; [exact Hnew|]. split; [by intros e [= <-]|done]. }
  split; [exact Hall|]. split; [|split; [|split]]; try done.
  - apply Forall2_length in Hall. rewrite <- Hall.
    etrans; [apply List.filter_length_le|]. subst first_four.
    rewrite length_take. lia.
  - rewrite Hnone. apply Forall2_length in Hall.
    split; intros H0; rewrite H0 in Hall; simpl in Hall.
    + by apply nil_length_inv.
    + symmetry in Hall. by apply nil_length_inv.
Qed.

(** *** The Thread Builder *)

Lemma ref_of_cases (d : dict) m :
  (exists r, strong_ref d = Some r /\ ref_of d m = (m, Ok r))
  \/ (strong_ref d = None /\ exists e, ref_of d m = (m, Raise e)).
Proof.
  unfold ref_of, strong_ref, bind, getitem, ret, raise.
  destruct (d !! u "uri") as [a|]; [|right; eauto].
  destruct (d !! u "cid") as [b|]; [left|right]; eauto.
Qed.

Lemma next_parent_ref_head (n : nat) (d : dict) m :
  1 < n ->
  (exists r, strong_ref d = Some r
     /\ next_parent_ref 0 n None d m
        = (m, Ok (Some {| root := r; parent := r |})))
  \/ (strong_ref d = None
      /\ exists e, next_parent_ref 0 n None d m = (m, Raise e)).
Proof.
  intros Hn. unfold next_parent_ref.
  replace (1 <? n) with true by (symmetry; apply Nat.ltb_lt; lia).
  simpl. unfold bind.
  destruct (ref_of_cases d m) as [(r & Hr & Href)|(Hr & e & Href)].
  - left. exists r. split; [done|]. rewrite Href. by rewrite Href.
  - right. split; [done|]. exists e. by rewrite Href.
Qed.

Lemma next_parent_ref_tail (i n : nat) (R P : StrongRef) (d : dict) m :
  (exists P', strong_ref d = Some P'
     /\ next_parent_ref (S i) n (Some {| root := R; parent := P |}) d m
        = (m, Ok (Some {| root := R; parent := P' |})))
  \/ (strong_ref d = None
      /\ exists e,
          next_parent_ref (S i) n (Some {| root := R; parent := P |}) d m
          = (m, Raise e)).
Proof.
  unfold next_parent_ref. simpl. unfold bind.
  destruct (ref_of_cases d m) as [(r & Hr & Href)|(Hr & e & Href)].
  - left. exists r. split; [done|]. by rewrite Href.
  - right. split; [done|]. exists e. by rewrite Href.
Qed.

Lemma thread_loop_cons n t embed i parent_ref chunk rest m :
  thread_loop n t embed i parent_ref (chunk :: rest) m =
  match create_rich_text chunk (world m) with
  | (w1, Raise e) => (set_world w1 m, Raise e)
  | (w1, Ok rich) =>
      let req := request t embed i parent_ref rich in
      match create_post req w1 with
      | (w2, Raise e) =>
          (add_event (CreatePost req (Raise e))
             (set_world w2 (set_world w1 m)), Raise e)
      | (w2, Ok d) =>
          let m2 := add_event (CreatePost req (Ok d))
                      (set_world w2 (set_world w1 m)) in
          match next_parent_ref i n parent_ref d m2 with
          | (m3, Ok parent_ref') =>
              thread_loop n t embed (S i) parent_ref' rest m3
          | (m3, Raise e) => (m3, Raise e)
          end
      end
  end.
Proof.
  simpl. unfold bind at 1. unfold call at 1.
  destruct (create_rich_text chunk (world m)) as [w1 [rich|e]];
    [|reflexivity].
  unfold bind at 1. unfold call at 1. simpl.
  fold (request t embed i parent_ref rich).
  destruct (create_post (request t embed i parent_ref rich) w1)
    as [w2 [d|e]]; reflexivity.
Qed.

Lemma submissions_submission reqs : submissions (submission <$> reqs) = reqs.
Proof.
  induction reqs as [|[p r] reqs IH]; [done|].
  unfold submissions in *. rewrite fmap_cons. cbn. by rewrite IH.
Qed.

Lemma submissions_media evs : Forall media_event evs -> submissions evs = [].
Proof.
  induction 1 as [|e evs He _ IH]; [done|].
  unfold submissions in *. destruct e; try done; cbn; exact IH.
Qed.

Lemma thread_loop_tail n t embed chunks :
  forall i R P m,
    let out := thread_loop n t embed (S i)
                 (Some {| root := R; parent := P |}) chunks m in
    exists reqs,
      trace out.1 = trace m ++ (submission <$> reqs)
      /\ length reqs <= length chunks
      /\ (out.2 = Ok tt -> length reqs = length chunks)
      /\ chain t R P chunks reqs.
Proof.
  induction chunks as [|chunk rest IH]; intros i R P m out.
  - exists []. subst out. simpl. by rewrite app_nil_r.
  - subst out. rewrite thread_loop_cons.
    destruct (create_rich_text chunk (world m)) as [w1 [rich|e]] eqn:Hrich.
    2:{ exists []. simpl. rewrite app_nil_r.
        repeat split; try done; lia. }
    set (req := request t embed (S i) (Some {| root := R; parent := P |}) rich).
    assert (rich_text_of chunk req) as Hreq.
    { exists (world m), w1. by destruct rich. }
    cbv zeta.
    destruct (create_post req w1) as [w2 [d|e]].
    2:{ exists [(req, Raise e)]. simpl.
        repeat split; try done; lia. }
    set (m2 := add_event _ _).
    destruct (next_parent_ref_tail i n R P d m2)
      as [(P' & HP' & ->)|(HP' & e & ->)].
    + destruct (IH (S i) R P' m2) as (reqs & Htr & Hlen & Hall & Hchain).
      exists ((req, Ok d) :: reqs). rewrite Htr. subst m2. simpl.
      rewrite <- app_assoc.
      repeat split; try done; try lia.
      * intros H. by rewrite Hall.
      * intros _. exists d, P'. done.
    + exists [(req, Ok d)]. subst m2. simpl.
      repeat split; try done; lia.
Qed.

Lemma chain_lookup t chunks :
  forall R P reqs k req res,
    chain t R P chunks reqs ->
    reqs !! k = Some (req, res) ->
    (exists chunk, chunks !! k = Some chunk /\ rich_text_of chunk req)
    /\ BlueskyPost.created_at req = t
    /\ BlueskyPost.embed req = None
    /\ exists P',
        BlueskyPost.reply req = Some {| root := R; parent := P' |}
        /\ match k with
           | 0 => P' = P
           | S k' => exists q d, reqs !! k' = Some (q, Ok d)
                                 /\ strong_ref d = Some P'
           end.
Proof.
  induction chunks as [|chunk rest IH]; intros R P reqs k req res Hchain Hk.
  - destruct reqs as [|[]]; [done | destruct Hchain].
  - destruct reqs as [|[req0 res0] reqs]; [done|].
    destruct Hchain as (Hrich & Ht & He & Hr & Hnext).
    destruct k as [|k]; simpl in Hk.
    + injection Hk as <- <-. split; [by exists chunk|]. eauto.
    + destruct Hnext as (d & P1 & -> & HP1 & Hchain).
      { intros ->. done. }
      destruct (IH R P1 reqs k req res Hchain Hk)
        as ((c & Hc & Hcr) & Ht' & He' & P' & Hr' & Hprev).
      split; [by exists c|]. split; [done|]. split; [done|].
      exists P'. split; [done|].
      destruct k as [|k']; simpl.
      * subst P'. exists req0, d. done.
      * exact Hprev.
Qed.

(** C6.  Let the text of a post split into more than one chunk.  The
    posts that [_transfer_post] hands to [create_post] are made from
    the chunks in their order, one for each chunk when the transfer
    returns (a prefix of them when a call raises), all with the
    creation time of the source post.  The first has no reply reference
    and carries the embed that the Media Resolver returned.  Every later
    one carries no embed, and its reply reference has for root the
    reference returned for the first post and for parent the reference
    returned for the post just before it. *)
Theorem thread_linkage dry_run post m text :
  post_text post = Ok text ->
  let chunks := Segmenter._split_text text 300 in
  1 < length chunks ->
  let out := _transfer_post dry_run post m in
  exists reqs,
    submissions (trace out.1) = submissions (trace m) ++ reqs
    /\ length reqs <= length chunks
    /\ (out.2 = Ok tt -> length reqs = length chunks)
    /\ forall k req res,
        reqs !! k = Some (req, res) ->
        (exists chunk, chunks !! k = Some chunk /\ rich_text_of chunk req)
        /\ BlueskyPost.created_at req = MastodonPost.created_at post
        /\ (k = 0 ->
            BlueskyPost.reply req = None
            /\ exists m1,
                media_embed dry_run post m = (m1, Ok (BlueskyPost.embed req)))
        /\ (0 < k ->
            BlueskyPost.embed req = None
            /\ exists q0 d0 qp dp R P,
                reqs !! 0 = Some (q0, Ok d0)
                /\ reqs !! (k - 1) = Some (qp, Ok dp)
                /\ strong_ref d0 = Some R
                /\ strong_ref dp = Some P
                /\ BlueskyPost.reply req = Some {| root := R; parent := P |}).
Proof.
  intros Htext chunks Hn out.
  set (t := MastodonPost.created_at post).
  assert (_transfer_post dry_run post m
          = match media_embed dry_run post m with
            | (m1, Ok embed) =>
                thread_loop (length chunks) t embed 0 None chunks m1
            | (m1, Raise e) => (m1, Raise e)
            end) as Hunfold.
  { unfold _transfer_post, bind, of_result. by rewrite Htext. }
  subst out. rewrite Hunfold. clear Hunfold.
  pose proof (within_media_embed dry_run post m) as Hmedia.
  destruct (media_embed dry_run post m) as [m1 [embed|e]] eqn:Hme;
    destruct Hmedia as (_ & _ & _ & evs & Htr1 & Hevs);
    apply submissions_media in Hevs; simpl in Htr1.
  2:{ exists []. simpl. rewrite Htr1. unfold submissions in *.
      rewrite omap_app, Hevs.
      repeat split; try done; lia. }
  assert (submissions (trace m1) = submissions (trace m)) as Hsub1.
  { rewrite Htr1. unfold submissions in *.
    by rewrite omap_app, Hevs, app_nil_r. }
  clear Htr1 Hevs.
  assert (forall m' (reqs : list (BlueskyPost.t * result dict)),
             trace m' = trace m1 ++ (submission <$> reqs) ->
             submissions (trace m') = submissions (trace m) ++ reqs)
    as Hsubs.
  { intros m' reqs ->. unfold submissions in *.
    rewrite omap_app, Hsub1. f_equal. apply submissions_submission. }
  destruct chunks as [|chunk rest] eqn:Hchunks; [simpl in Hn; lia|].
  rewrite thread_loop_cons.
  destruct (create_rich_text chunk (world m1)) as [w1 [rich|e]] eqn:Hrich.
  { set (req := request t embed 0 None rich).
    assert (rich_text_of chunk req) as Hreq.
    { exists (world m1), w1. by destruct rich. }
    cbv zeta.
    destruct (create_post req w1) as [w2 [d|e]].
    - set (m2 := add_event _ _).
      assert (trace m2 = trace m1 ++ [CreatePost req (Ok d)]) as Hm2
        by done.
      destruct (next_parent_ref_head (length (chunk :: rest)) d m2 Hn)
        as [(R & HR & ->)|(HR & e & ->)].
      + destruct (thread_loop_tail (length (chunk :: rest)) t embed rest
                    0 R R m2) as (reqs & Htr & Hlen & Hall & Hchain).
        exists ((req, Ok d) :: reqs).
        split; [|split; [|split]].
        * apply Hsubs. rewrite Htr, Hm2, <- app_assoc. done.
        * simpl. lia.
        * intros H. simpl. by rewrite Hall.
        * intros [|k] q r Hk.
          -- injection Hk as <- <-.
             split; [by exists chunk|]. split; [done|].
             split; [|lia]. intros _. split; [done|]. by exists m1.
          -- simpl in Hk.
             destruct (chain_lookup t rest R R reqs k q r Hchain Hk)
               as ((c & Hc & Hcr) & Ht & He & P' & Hr & Hprev).
             split; [by exists c|]. split; [done|].
             split; [lia|]. intros _. split; [done|].
             destruct k as [|k']; simpl.
             ++ subst P'. exists req, d, req, d, R, R. done.
             ++ destruct Hprev as (qp & dp & Hqp & HP').
                exists req, d, qp, dp, R, P'.
                simpl. rewrite ?Nat.sub_0_r. done.
      + exists [(req, Ok d)].
        split; [|split; [|split]].
        * apply Hsubs. exact Hm2.
        * simpl. lia.
        * discriminate.
        * intros [|k] q r Hk; [|done]. injection Hk as <- <-.
          split; [by exists chunk|]. split; [done|].
          split; [|lia]. intros _. split; [done|]. by exists m1.
    - exists [(req, Raise e)].
      split; [|split; [|split]].
      * apply Hsubs. done.
      * simpl. lia.
      * discriminate.
      * intros [|k] q r Hk; [|done]. injection Hk as <- <-.
        split; [by exists chunk|]. split; [done|].
        split; [|lia]. intros _. split; [done|]. by exists m1. }
  exists []. split; [|split; [|split]].
  - apply Hsubs. simpl. by rewrite app_nil_r.
  - simpl. lia.
  - discriminate.
  - intros k q r Hk. done.
Qed.

End Properties.

(** The manager of a first start is the one that [init] builds. *)
Lemma init_start feed outage :
  init (Sim.serving feed outage) Absent = Ok (start feed outage).
Proof. reflexivity. Qed.



Lemma post_text_spec_witness :
  BeautifulSoup hello_world_html = Ok hello_world_soup
  /\ post_text (Sim.toot "1" 0 hello_world_html [] "")
     = Ok (u "Hello" ++ [Py.LF; Py.LF] ++ u "World")
  /\ post_text (Sim.toot "2" 0 hello_world_html [] "spoiler")
     = Ok (u "CW: " ++ u "spoiler" ++ [Py.LF; Py.LF]
           ++ u "Hello" ++ [Py.LF; Py.LF] ++ u "World").
Proof.
  assert (BeautifulSoup hello_world_html = Ok hello_world_soup) as H
    by reflexivity.
  split; [exact H|]. split.
  - apply (proj1 post_text_spec H); reflexivity.
  - apply (proj2 post_text_spec); [reflexivity | discriminate |].
    apply (proj1 post_text_spec H).
Defined.

(** ** C2 *)

(** C2, as stated, fails: when the one submission of the first run fails,
    the post is processed and counted as an error, neither transferred nor
    skipped; the second run over the same feed then transfers the post. *)
Lemma failed_post_is_transferred_by_rerun :
  (run true (start [hello] 1)).2 = Ok (Stats.mk 1 0 0 1)
  /\ (rerun true (run true (start [hello] 1)).1).2
     = Ok (Stats.mk 1 1 0 0)
  /\ ~ transfer_is_idempotent.
Proof.
  split; [vm_compute; reflexivity|]. split; [vm_compute; reflexivity|].
  intros H.
  destruct (H Sim.world Sim.collaborators Sim.all_posts true
              (Sim.serving [hello] 1) Absent (start [hello] 1)
              (run true (start [hello] 1)).1 (Stats.mk 1 0 0 1))
    as [Hsum _].
  - reflexivity.
  - vm_compute. reflexivity.
  - discriminate Hsum.
Qed.

Lemma rerun_transfers_nothing_witness :
  let first := run true (start [hello; essay] 0) in
  let second := rerun true first.1 in
  first = (first.1, Ok (Stats.mk 2 2 0 0))
  /\ Stats.errors (Stats.mk 2 2 0 0) = 0
  /\ second = (second.1, Ok (Stats.mk 2 0 2 0))
  /\ Stats.transferred (Stats.mk 2 0 2 0) = 0.
Proof.
  intros first second.
  assert (first = (first.1, Ok (Stats.mk 2 2 0 0))) as H1
    by (vm_compute; reflexivity).
  assert (second = (second.1, Ok (Stats.mk 2 0 2 0))) as H2
    by (vm_compute; reflexivity).
  split; [exact H1|]. split; [reflexivity|]. split; [exact H2|].
  destruct (@rerun_transfers_nothing Sim.world Sim.collaborators)
    as [Hsum Hsecond].
  assert (Stats.transferred (Stats.mk 2 2 0 0)
          + Stats.skipped (Stats.mk 2 2 0 0)
          = Stats.processed (Stats.mk 2 2 0 0)) as _
    by exact (Hsum _ _ _ _ _ _ H1 eq_refl).
  destruct (Hsecond Sim.all_posts true (Sim.serving [hello; essay] 0) Absent
              (start [hello; essay] 0) _ _ (init_start _ _) H1 eq_refl
              false Sim.all_posts (world first.1))
    as (m0' & Hinit' & Hskip).
  { vm_compute. reflexivity. }
  subst second. unfold rerun, restart in H2. rewrite Hinit' in H2.
  exact (proj1 (Hskip _ _ H2)).
Defined.

(** ** C3 *)

(** C3, as stated, fails: a video in front of five images takes one of
    the four places, and the embed has three images. *)
Lemma video_takes_a_place :
  length (List.filter is_image (MastodonPost.media_attachments gallery)) = 5
  /\ (exists e, (media_embed false gallery (start [] 0)).2 = Ok (Some e)
                /\ length (images e) = 3)
  /\ ~ media_cap_skips_other_types.
Proof.
  split; [vm_compute; reflexivity|]. split.
  - eexists. split; vm_compute; reflexivity.
  - intros H.
    pose proof (H Sim.world Sim.collaborators gallery (start [] 0)
                  (media_embed false gallery (start [] 0)).1
                  (match (media_embed false gallery (start [] 0)).2 with
                   | Ok e => e
                   | Raise _ => None
                   end)) as Hlen.
    vm_compute in Hlen. specialize (Hlen eq_refl). discriminate Hlen.
Qed.

Lemma media_embed_spec_witness :
  let out := media_embed false gallery (start [] 0) in
  let embed := match out.2 with Ok e => e | Raise _ => None end in
  out = (out.1, Ok embed)
  /\ Forall2 image_of
       (List.filter is_image
          (take 4 (MastodonPost.media_attachments gallery)))
       (images_in embed)
  /\ length (images_in embed) <= 4.
Proof.
  intros out embed.
  assert (out = (out.1, Ok embed)) as H by (vm_compute; reflexivity).
  split; [exact H|].
  destruct (media_embed_spec gallery (start [] 0) out.1 embed H)
    as (Hall & Hlen & _).
  split; [exact Hall | exact Hlen].
Defined.

(** ** C4 *)

(** C4, as stated, fails: when the source returns the older post first,
    the newer one is submitted first. *)
Lemma oldest_first_needs_newest_first_feed :
  submitted_at (trace (run true (start [hello; gallery] 0)).1) = [300; 100]%Z
  /\ ~ submissions_are_sorted.
Proof.
  assert (submitted_at (trace (run true (start [hello; gallery] 0)).1)
          = [300; 100]%Z) as Hts by (vm_compute; reflexivity).
  split; [exact Hts|].
  intros H.
  specialize (H Sim.world Sim.collaborators false Sim.all_posts true
                (start [hello; gallery] 0) [300; 100]%Z Hts).
  apply Sorted_inv in H as [_ Hhd]. apply HdRel_inv in Hhd. lia.
Qed.

Lemma oldest_first_witness :
  let m := start [gallery; essay; hello] 0 in
  get_posts Sim.all_posts (world m) = (world m, Ok [gallery; essay; hello])
  /\ Sorted (flip Z.le)
       (MastodonPost.created_at <$> [gallery; essay; hello])
  /\ (exists ts,
        submitted_at (trace (run true m).1) = submitted_at (trace m) ++ ts
        /\ Sorted Z.le ts)
  /\ submitted_at (trace (run true m).1) = [100; 200; 200; 200; 300]%Z
  /\ exists groups,
      trace (run true m).1 = trace m ++ GetPosts Sim.all_posts :: concat groups
      /\ Forall2 transferred_by [hello; essay; gallery] groups.
Proof.
  intros m.
  assert (get_posts Sim.all_posts (world m)
          = (world m, Ok [gallery; essay; hello])) as Hget by reflexivity.
  assert (Sorted (flip Z.le)
            (MastodonPost.created_at <$> [gallery; essay; hello])) as Hnew.
  { repeat constructor; unfold flip; simpl; lia. }
  destruct (oldest_first false Sim.all_posts true m _ _ Hget)
    as [Horder Hsorted].
  split; [exact Hget|]. split; [exact Hnew|].
  split; [exact (Hsorted Hnew)|]. split; [vm_compute; reflexivity|].
  assert (run true m = ((run true m).1, Ok (Stats.mk 3 3 0 0))) as Hrun
    by (vm_compute; reflexivity).
  assert (taken true (TransferState.transferred_ids (state m))
            (rev [gallery; essay; hello]) = [hello; essay; gallery]) as Htaken
    by (vm_compute; reflexivity).
  destruct (Horder _ _ Hrun eq_refl) as (groups & Htr & Hall).
  exists groups. split; [exact Htr|]. rewrite <- Htaken. exact Hall.
Defined.

(** ** C5 *)

(** C5, as stated, fails: without [skip_existing] a post that an earlier
    run transferred is tried again; when it fails this time, the error is
    counted and its identifier is still in the set. *)
Lemma failed_retry_stays_recorded :
  exists m,
    init (Sim.serving [hello] 1) hello_done = Ok m
    /\ let out := process_post false false hello Stats.zero m in
       out.2 = Ok (Stats.mk 1 0 0 1)
       /\ MastodonPost.id hello ∈ TransferState.transferred_ids (state out.1)
       /\ ~ failed_post_is_not_in_state.
Proof.
  eexists. split; [reflexivity|].
  match goal with
  | |- context [process_post false false hello Stats.zero ?m0] =>
      set (m := m0)
  end.
  intros out.
  assert (MastodonPost.id hello
            ∈ TransferState.transferred_ids (state out.1)) as Hin.
  { apply (bool_decide_unpack _). vm_compute. exact I. }
  split; [vm_compute; reflexivity|]. split; [exact Hin|].
  intros H.
  destruct (H Sim.world Sim.collaborators false hello Stats.zero m
              (convert_and_create false hello m).1
              (Exception (u "503 Service Unavailable")))
    as [_ Hnot].
  - intros [Hskip _]. discriminate Hskip.
  - vm_compute. reflexivity.
  - exact (Hnot Hin).
Qed.

(** The submission of [hello] fails and the run goes on with [essay].
    The picture of [garbled] cannot be fetched, and the text of that
    error is one that the console refuses: the run ends there. *)
Lemma failure_isolation_witness :
  let m := start [] 1 in
  let m2 := (_transfer_post false hello m).1 in
  let e := Exception (u "503 Service Unavailable") in
  let m3 := print (ErrorTransferring (MastodonPost.id hello) e) m2 in
  (~ skips true hello m)
  /\ _transfer_post false hello m = (m2, Raise e)
  /\ process_post false true hello Stats.zero m = (m3, Ok (Stats.mk 1 0 0 1))
  /\ (MastodonPost.id hello ∉ TransferState.transferred_ids (state m2))
  /\ for_posts false true ([] ++ hello :: [essay]) Stats.zero m
     = for_posts false true [essay] (Stats.mk 1 0 0 1) m3
  /\ (for_posts false true ([] ++ hello :: [essay]) Stats.zero m).2
     = Ok (Stats.mk 2 1 0 1)
  /\ exists e',
      (for_posts false true ([] ++ garbled :: [essay]) Stats.zero m).2
      = Raise e'.
Proof.
  intros m m2 e m3.
  assert (~ skips true hello m) as Hns.
  { intros [_ Hin]. by apply not_elem_of_empty in Hin. }
  assert (_transfer_post false hello m = (m2, Raise e)) as Hraise
    by (vm_compute; reflexivity).
  pose proof (failure_isolation true [] hello [essay] Stats.zero m m
                Stats.zero m2 e eq_refl Hns Hraise)
    as (_ & _ & Hnot & Hcaught & _).
  destruct Hcaught as (Hturn & Hloop);
    [reflexivity | vm_compute; reflexivity |].
  split; [exact Hns|]. split; [exact Hraise|]. split; [exact Hturn|].
  split; [apply Hnot; by left|]. split; [exact Hloop|].
  split; [vm_compute; reflexivity|].
  assert (~ skips true garbled m) as Hns'.
  { intros [_ Hin]. by apply not_elem_of_empty in Hin. }
  pose proof (failure_isolation true [] garbled [essay] Stats.zero m m
                Stats.zero (_transfer_post false garbled m).1
                (Exception (u "No connection adapters were found for '"
                            ++ u "[/x]" ++ u "'"))
                eq_refl Hns') as H.
  destruct H as (_ & _ & _ & _ & Hleaves & _); [vm_compute; reflexivity|].
  eexists. refine (f_equal snd (proj2 (Hleaves _ _))).
  right. split; [reflexivity|]. vm_compute. reflexivity.
Defined.

(** ** C6 *)

Lemma thread_linkage_witness :
  let m := start [] 0 in
  let chunks := Segmenter._split_text essay_text 300 in
  post_text essay = Ok essay_text
  /\ 1 < length chunks
  /\ (_transfer_post false essay m).2 = Ok tt
  /\ exists reqs,
      submissions (trace (_transfer_post false essay m).1)
      = submissions (trace m) ++ reqs
      /\ length reqs = 3
      /\ forall k req res,
          reqs !! k = Some (req, res) ->
          0 < k ->
          exists q0 d0 qp dp R P,
            reqs !! 0 = Some (q0, Ok d0)
            /\ reqs !! (k - 1) = Some (qp, Ok dp)
            /\ strong_ref d0 = Some R
            /\ strong_ref dp = Some P
            /\ BlueskyPost.reply req = Some {| root := R; parent := P |}.
Proof.
  intros m chunks.
  assert (post_text essay = Ok essay_text) as Htext
    by (vm_compute; reflexivity).
  assert (1 < length chunks) as Hn by (vm_compute; lia).
  assert ((_transfer_post false essay m).2 = Ok tt) as Hok
    by (vm_compute; reflexivity).
  split; [exact Htext|]. split; [exact Hn|]. split; [exact Hok|].
  destruct (thread_linkage false essay m essay_text Htext Hn)
    as (reqs & Hsub & _ & Hall & Hlink).
  exists reqs. split; [exact Hsub|]. split.
  - rewrite (Hall Hok). vm_compute. reflexivity.
  - intros k req res Hk Hpos.
    destruct (Hlink k req res Hk) as (_ & _ & _ & Hlater).
    exact (proj2 (Hlater Hpos)).
Defined.

(** ** C10 *)

Lemma stats_partition_witness :
  let m := start [gallery; hello; hello] 1 in
  let dry := transfer_posts true Sim.all_posts true m in
  exists st,
    run true m = ((run true m).1, Ok st)
    /\ Stats.processed st = 3
    /\ Stats.processed st
       = Stats.transferred st + Stats.skipped st + Stats.errors st
    /\ dry.2 = Ok (Stats.mk 3 3 0 0).
Proof.
  intros m dry.
  pose proof (stats_partition false Sim.all_posts true m)
    as (_ & _ & Hrun & _).
  assert (run true m = ((run true m).1, Ok (Stats.mk 3 2 0 1))) as H
    by (vm_compute; reflexivity).
  destruct (Hrun _ _ H) as (w & posts & Hget & Hn & Hsum & _).
  injection Hget as _ <-.
  exists (Stats.mk 3 2 0 1).
  split; [exact H|]. split; [exact Hn|]. split; [exact Hsum|].
  vm_compute. reflexivity.
Defined.

(** * More of the code: properties *)

(** ** The Segmenter: what the chunks hold *)

Lemma split_go_app_space (c : N) (b : str) :
  Py.isspace c = true ->
  forall a acc,
    Py.split_go acc (a ++ c :: b) = Py.split_go acc a ++ Py.split b.
Proof.
  intros Hc. induction a as [|x a IH]; intros acc; simpl.
  - rewrite Hc. by destruct (Py.truthy acc).
  - destruct (Py.isspace x).
    + destruct (Py.truthy acc); simpl; by rewrite IH.
    + apply IH.
Qed.

Lemma split_app_space (a b : str) (c : N) :
  Py.isspace c = true -> Py.split (a ++ c :: b) = Py.split a ++ Py.split b.
Proof. intros Hc. unfold Py.split. by apply split_go_app_space. Qed.

Lemma split_go_push (w : str) :
  Forall (fun c => Py.isspace c = false) w ->
  forall acc s, Py.split_go acc (w ++ s) = Py.split_go (rev w ++ acc) s.
Proof.
  induction 1 as [|c w Hc _ IH]; intros acc s; simpl; [done|].
  rewrite Hc, IH. by rewrite <- app_assoc.
Qed.

Lemma split_word (w : str) :
  w <> [] -> Forall (fun c => Py.isspace c = false) w -> Py.split w = [w].
Proof.
  intros Hne Hw. unfold Py.split.
  rewrite <- (app_nil_r w) at 1. rewrite split_go_push by done.
  rewrite app_nil_r. simpl.
  destruct (rev w) as [|c r] eqn:Hr.
  - apply (f_equal (@rev N)) in Hr. rewrite rev_involutive in Hr. done.
  - change (Py.truthy (c :: r)) with true. cbv iota.
    by rewrite <- Hr, rev_involutive.
Qed.

Lemma split_go_words (s : str) :
  forall acc,
    Forall (fun c => Py.isspace c = false) acc ->
    Forall (fun w => w <> [] /\ Forall (fun c => Py.isspace c = false) w)
      (Py.split_go acc s).
Proof.
  induction s as [|c s IH]; intros acc Hacc; simpl.
  - destruct acc as [|a acc]; simpl; [constructor|].
    constructor; [|constructor]. split.
    + intros H. apply (f_equal (@length N)) in H.
      rewrite length_app in H. simpl in H. lia.
    + apply Forall_app. split; [|by inversion Hacc; constructor].
      apply Forall_rev. by inversion Hacc.
  - destruct (Py.isspace c) eqn:Hc.
    + destruct acc as [|a acc]; simpl; [by apply IH|].
      constructor; [|by apply IH]. split.
      * intros H. apply (f_equal (@length N)) in H.
        rewrite length_app in H. simpl in H. lia.
      * apply Forall_app. split; [|by inversion Hacc; constructor].
        apply Forall_rev. by inversion Hacc.
    + apply IH. by constructor.
Qed.

Lemma words_of_words (s : str) : words_of (Py.split s) = Py.split s.
Proof.
  unfold words_of.
  pose proof (split_go_words s [] ltac:(constructor)) as H.
  fold (Py.split s) in H.
  induction H as [|w ws [Hne Hw] _ IH]; simpl; [done|].
  by rewrite split_word, IH.
Qed.

(** Cutting a text at the ends of its sentences loses no word. *)
Lemma words_of_sentences (s : str) :
  forall in_sep after_end cur,
    (in_sep = true -> cur = []) ->
    words_of (Re.split_go in_sep after_end cur s) = Py.split (rev cur ++ s).
Proof.
  unfold words_of.
  induction s as [|c s IH]; intros in_sep after_end cur Hsep; simpl.
  - by rewrite !app_nil_r.
  - destruct (Py.isspace c) eqn:Hc; simpl.
    + destruct in_sep; simpl.
      * rewrite (Hsep eq_refl). simpl. unfold Py.split. simpl.
        rewrite Hc. simpl. by apply IH.
      * destruct after_end; simpl.
        -- rewrite IH by done. simpl. unfold Py.split at 3.
           by rewrite split_go_app_space.
        -- rewrite IH by done. simpl. by rewrite <- app_assoc.
    + rewrite IH by done. simpl. by rewrite <- app_assoc.
Qed.

Lemma words_of_pieces (text : str) (max_length : Z) :
  words_of (pieces text max_length) = Py.split text.
Proof.
  unfold pieces.
  pose proof (words_of_sentences text false false [] ltac:(done)) as Hs.
  simpl in Hs. rewrite <- Hs. fold (Re.split_sentences text).
  induction (Re.split_sentences text) as [|s rest IH]; [done|].
  unfold words_of in *. simpl.
  rewrite List.map_app, List.concat_app, IH. f_equal.
  destruct (max_length <? Py.len s)%Z.
  - apply words_of_words.
  - simpl. by rewrite app_nil_r.
Qed.

Lemma words_of_snoc (raws : list str) (raw : str) :
  words_of (raws ++ [raw]) = words_of raws ++ Py.split raw.
Proof.
  unfold words_of. rewrite List.map_app, List.concat_app. simpl.
  by rewrite app_nil_r.
Qed.

Arguments Segmenter.dots : simpl never.

Lemma dots_app_not_nil (raw : str) : [] <> Segmenter.dots ++ raw.
Proof. discriminate. Qed.

Lemma open_chunk_empty (raw : str) :
  [] = raw \/ [] = Segmenter.dots ++ raw -> raw = [].
Proof. intros [<-|H]; [done|]. by apply dots_app_not_nil in H. Qed.

Lemma add_piece_tracks max_length acc ws piece :
  tracks acc ws ->
  tracks (Segmenter.add_piece max_length acc piece) (ws ++ Py.split piece).
Proof.
  destruct acc as [chunks current].
  intros (raws & raw & Hraws & Hcur & <-). cbn [fst snd] in *.
  unfold Segmenter.add_piece.
  destruct (_ <=? _)%Z.
  - (* the piece joins the open chunk *)
    destruct current as [|c current].
    + apply open_chunk_empty in Hcur as ->.
      exists raws, piece. cbn [fst snd app Py.truthy].
      split; [done|]. split; [by left|].
      change (Py.split []) with (@nil str). by rewrite app_nil_r.
    + exists raws, (raw ++ Py.SP :: piece). cbn [fst snd Py.truthy].
      split; [done|]. split.
      * destruct Hcur as [<- | ->]; [by left|right].
        by rewrite <- !app_assoc.
      * rewrite (split_app_space raw piece Py.SP) by done.
        by rewrite <- app_assoc.
  - (* the open chunk is closed and the piece opens a new one *)
    destruct current as [|c current].
    + apply open_chunk_empty in Hcur as ->.
      exists raws, piece. cbn [fst snd Py.truthy]. split; [done|].
      split; [by right|].
      change (Py.split []) with (@nil str). by rewrite app_nil_r.
    + exists (raws ++ [raw]), piece. cbn [fst snd Py.truthy].
      split; [|split].
      * apply Forall2_app; [done|]. constructor; [|constructor].
        destruct Hcur as [<- | ->].
        -- exists [], Segmenter.dots. auto.
        -- exists Segmenter.dots, Segmenter.dots.
           rewrite <- app_assoc. auto.
      * by right.
      * by rewrite words_of_snoc.
Qed.

Lemma foldl_add_piece_tracks max_length ps :
  forall acc ws,
    tracks acc ws ->
    tracks (foldl (Segmenter.add_piece max_length) acc ps)
      (ws ++ words_of ps).
Proof.
  induction ps as [|p ps IH]; intros acc ws Hacc; simpl.
  - by rewrite app_nil_r.
  - unfold words_of in *. simpl. rewrite app_assoc.
    apply IH. by apply add_piece_tracks.
Qed.

(** The chunks, before the thread indicators are added, hold the words
    of the text, all of them and in their order. *)
Lemma chunks_keep_words (text : str) (max_length : Z) :
  exists raws,
    Forall2 decorated (Segmenter.chunks_of text max_length) raws
    /\ words_of raws = Py.split text.
Proof.
  unfold Segmenter.chunks_of.
  destruct (Py.len text <=? max_length)%Z.
  - exists [text]. split.
    + constructor; [|constructor]. exists [], [].
      rewrite app_nil_r. auto.
    + unfold words_of. simpl. by rewrite app_nil_r.
  - rewrite foldl_add_sentence. fold (pieces text max_length).
    pose proof (foldl_add_piece_tracks max_length (pieces text max_length)
                  ([], []) []) as H.
    destruct H as (raws & raw & Hraws & Hcur & Hws).
    { exists [], []. simpl. split; [constructor|]. split; [by left|done]. }
    simpl in Hws. rewrite words_of_pieces in Hws.
    destruct (foldl _ _ _) as [chunks current]. simpl in *.
    destruct current as [|c current]; simpl.
    + assert (raw = []) as -> by (by destruct Hcur as [<-|Hd]).
      exists raws. split; [done|].
      rewrite <- Hws. unfold Py.split. simpl. by rewrite app_nil_r.
    + exists (raws ++ [raw]). split.
      * apply Forall2_app; [done|]. constructor; [|constructor].
        destruct Hcur as [<- | ->].
        -- exists [], []. rewrite app_nil_r. auto.
        -- exists Segmenter.dots, []. rewrite app_nil_r. auto.
      * by rewrite words_of_snoc.
Qed.

(** ** The Segmenter: the ellipses *)

Lemma add_piece_shaped max_length acc piece :
  shaped acc -> shaped (Segmenter.add_piece max_length acc piece).
Proof.
  destruct acc as [chunks current]. intros (Hend & Hbegin & Hcur).
  cbn [fst snd] in *. unfold Segmenter.add_piece.
  destruct (_ <=? _)%Z; cbn [fst snd].
  - split; [done|]. split; [done|].
    intros Hne. destruct (Hcur Hne) as [k ->].
    eexists. by rewrite <- app_assoc.
  - destruct current as [|c current]; cbn [Py.truthy].
    + split; [done|]. split; [done|]. intros _. by eexists.
    + split; [|split].
      * apply Forall_app. split; [done|].
        constructor; [by eexists | constructor].
      * destruct chunks as [|chunk chunks]; [constructor|].
        simpl. apply Forall_app. split; [done|].
        constructor; [|constructor].
        change (Segmenter.dots `prefix_of` (c :: current) ++ Segmenter.dots).
        apply prefix_app_r, Hcur. done.
      * intros _. by eexists.
Qed.

Lemma foldl_add_piece_shaped max_length ps :
  forall acc,
    shaped acc -> shaped (foldl (Segmenter.add_piece max_length) acc ps).
Proof.
  induction ps as [|p ps IH]; intros acc Hacc; simpl; [done|].
  apply IH. by apply add_piece_shaped.
Qed.

(** In the chunks, before the thread indicators are added, every chunk
    that is not the last one ends with an ellipsis and every chunk that
    is not the first one begins with an ellipsis. *)
Lemma chunks_ellipses (text : str) (max_length : Z) (i : nat)
    (chunk : str) :
  Segmenter.chunks_of text max_length !! i = Some chunk ->
  (S i < length (Segmenter.chunks_of text max_length) ->
   Segmenter.dots `suffix_of` chunk)
  /\ (0 < i -> Segmenter.dots `prefix_of` chunk).
Proof.
  unfold Segmenter.chunks_of.
  destruct (Py.len text <=? max_length)%Z.
  { destruct i as [|i]; [|done]. simpl. intros _. split; lia. }
  rewrite foldl_add_sentence. fold (pieces text max_length).
  pose proof (foldl_add_piece_shaped max_length (pieces text max_length)
                ([], [])) as H.
  destruct H as (Hend & Hbegin & Hcur).
  { split; [constructor|]. split; [constructor|done]. }
  destruct (foldl _ _ _) as [chunks current]. cbn [fst snd] in *.
  assert (forall j c, chunks !! j = Some c ->
            Segmenter.dots `suffix_of` c
            /\ (0 < j -> Segmenter.dots `prefix_of` c)) as Hclosed.
  { intros j c Hj. split.
    - by eapply Forall_lookup_1 in Hend.
    - intros Hpos. destruct j as [|j]; [lia|].
      destruct chunks as [|c0 chunks]; [done|]. simpl in *.
      by eapply Forall_lookup_1 in Hbegin. }
  destruct current as [|c current]; cbn [Py.truthy].
  - intros Hi. destruct (Hclosed i chunk Hi). auto.
  - intros Hi. destruct (decide (i < length chunks)) as [Hlt|Hge].
    + rewrite lookup_app_l in Hi by done.
      destruct (Hclosed i chunk Hi). auto.
    + rewrite lookup_app_r in Hi by lia.
      destruct (i - length chunks) as [|k] eqn:Hk; [|done].
      injection Hi as <-. split.
      * rewrite length_app. simpl. lia.
      * intros Hpos. apply Hcur. intros ->. simpl in *. lia.
Qed.

(** ** The Segmenter: [_split_text] as a whole *)

Lemma split_text_length (text : str) (max_length : Z) :
  length (Segmenter._split_text text max_length)
  = length (Segmenter.chunks_of text max_length).
Proof.
  unfold Segmenter._split_text, Segmenter.add_indicators.
  destruct (1 <? _)%nat; [apply length_imap | done].
Qed.

Lemma split_text_lookup (text : str) (max_length : Z) (i : nat) (out : str) :
  Segmenter._split_text text max_length !! i = Some out ->
  exists chunk,
    Segmenter.chunks_of text max_length !! i = Some chunk
    /\ marked i (length (Segmenter._split_text text max_length)) out chunk.
Proof.
  unfold marked. rewrite split_text_length.
  unfold Segmenter._split_text, Segmenter.add_indicators.
  destruct (1 <? _)%nat.
  - rewrite list_lookup_imap.
    destruct (_ !! i) as [chunk|]; [|done].
    intros [= <-]. by exists chunk.
  - intros H. by exists out.
Qed.

(** X1.  When every sentence of the text, and every word of a sentence
    longer than the budget, is at least six characters shorter than the
    budget, every chunk that [_split_text] returns is within the budget,
    not counting its thread indicator. *)
Theorem split_text_within_budget (text : str) (max_length : Z) (i : nat)
    (out : str) :
  Forall (fun piece => (Py.len piece <= max_length - 6)%Z)
    (pieces text max_length) ->
  Segmenter._split_text text max_length !! i = Some out ->
  exists chunk,
    marked i (length (Segmenter._split_text text max_length)) out chunk
    /\ (Py.len chunk <= max_length)%Z.
Proof.
  intros Hpieces Hout.
  destruct (split_text_lookup _ _ _ _ Hout) as (chunk & Hchunk & Hmark).
  exists chunk. split; [exact Hmark|].
  pose proof (chunks_within_budget text max_length Hpieces) as Hall.
  by eapply Forall_lookup_1 in Hall.
Qed.

(** X2.  Of the chunks that [_split_text] returns, every one that is not
    the last ends with an ellipsis, and every one that is not the first
    begins, behind its thread indicator, with an ellipsis. *)
Theorem split_text_ellipses (text : str) (max_length : Z) (i : nat)
    (out : str) :
  let n := length (Segmenter._split_text text max_length) in
  Segmenter._split_text text max_length !! i = Some out ->
  (S i < n -> Segmenter.dots `suffix_of` out)
  /\ (0 < i ->
      (Segmenter.indicator i n ++ Segmenter.dots) `prefix_of` out).
Proof.
  intros n Hout.
  destruct (split_text_lookup _ _ _ _ Hout) as (chunk & Hchunk & Hmark).
  fold n in Hmark. unfold marked in Hmark.
  destruct (chunks_ellipses text max_length i chunk Hchunk) as [Hend Hbegin].
  assert (i < n) as Hi.
  { subst n. rewrite split_text_length. by eapply lookup_lt_Some. }
  split.
  - intros Hlast.
    assert (Segmenter.dots `suffix_of` chunk) as Hs.
    { apply Hend. subst n. by rewrite <- split_text_length. }
    destruct (1 <? n)%nat; subst out; [by apply suffix_app_r | done].
  - intros Hpos.
    replace (1 <? n)%nat with true in Hmark
      by (symmetry; apply Nat.ltb_lt; lia).
    subst out. by apply prefix_app, Hbegin.
Qed.

(** X3.  The chunks that [_split_text] returns hold the words of the
    text, all of them and in their order: taking from each chunk what
    stands behind the thread indicator and between the ellipsis in front
    and the ellipsis behind, when there are such, gives texts whose words
    are the words of the input. *)
Theorem split_text_keeps_words (text : str) (max_length : Z) :
  let outs := Segmenter._split_text text max_length in
  exists raws,
    length raws = length outs
    /\ (forall i out,
          outs !! i = Some out ->
          exists chunk raw,
            raws !! i = Some raw
            /\ marked i (length outs) out chunk
            /\ decorated chunk raw)
    /\ words_of raws = Py.split text.
Proof.
  intros outs.
  destruct (chunks_keep_words text max_length) as (raws & Hraws & Hwords).
  exists raws. split; [|split; [|exact Hwords]].
  - subst outs. rewrite split_text_length. symmetry.
    by eapply Forall2_length.
  - intros i out Hout.
    destruct (split_text_lookup _ _ _ _ Hout) as (chunk & Hchunk & Hmark).
    destruct (Forall2_lookup_l _ _ _ _ _ Hraws Hchunk) as (raw & Hraw & Hdec).
    by exists chunk, raw.
Qed.

Lemma split_text_within_budget_witness :
  let out := u "[1/2] " ++ concat (replicate 5
               (u "The quick brown fox jumps over the lazy dog. "))
             ++ u "The quick brown fox jumps over the lazy dog...." in
  Forall (fun piece => (Py.len piece <= 300 - 6)%Z)
    (pieces short_sentences 300)
  /\ (300 < Py.len short_sentences)%Z
  /\ Segmenter._split_text short_sentences 300 !! 0 = Some out
  /\ exists chunk,
      marked 0 (length (Segmenter._split_text short_sentences 300)) out chunk
      /\ (Py.len chunk <= 300)%Z.
Proof.
  intros out.
  assert (Forall (fun piece => (Py.len piece <= 300 - 6)%Z)
            (pieces short_sentences 300)) as H.
  { apply (bool_decide_unpack _). vm_compute. exact I. }
  assert (Segmenter._split_text short_sentences 300 !! 0 = Some out) as Hout
    by (vm_compute; reflexivity).
  split; [exact H|]. split; [vm_compute; reflexivity|].
  split; [exact Hout|].
  exact (split_text_within_budget short_sentences 300 0 out H Hout).
Defined.

Lemma split_text_ellipses_witness :
  let out := u "[2/2] ...Bye bye." in
  Segmenter._split_text two_sentences 300 !! 1 = Some out
  /\ (Segmenter.indicator 1 2 ++ Segmenter.dots) `prefix_of` out.
Proof.
  intros out.
  assert (Segmenter._split_text two_sentences 300 !! 1 = Some out) as Hout
    by (vm_compute; reflexivity).
  split; [exact Hout|].
  apply (proj2 (split_text_ellipses two_sentences 300 1 out Hout)). lia.
Defined.

(** ** The Content Normalizer: the shape of the text *)

Lemma calm_newlines (k : nat) (s : str) :
  k <= 2 -> lf_prefix s = 0 -> calm s -> calm (replicate k Py.LF ++ s).
Proof.
  intros Hk H0 Hs.
  destruct k as [|[|[|k]]]; [done| | |lia]; simpl; rewrite ?H0; auto with lia.
Qed.

Lemma sub_go_calm (s : str) : forall run, calm (Re.sub_go run s).
Proof.
  induction s as [|c s IH]; intros run; simpl.
  - rewrite <- (app_nil_r (replicate _ _)).
    apply calm_newlines; [lia | done | done].
  - destruct (c =? Py.LF)%N eqn:Hc; [apply IH|].
    apply calm_newlines; [lia | by simpl; rewrite Hc |].
    simpl. rewrite Hc. split; [lia | apply IH].
Qed.

Lemma calm_no_blank_run (s : str) :
  calm s -> forall a b, s <> a ++ [Py.LF; Py.LF; Py.LF] ++ b.
Proof.
  intros Hs a. revert s Hs.
  induction a as [|x a IH]; intros s Hs b ->; simpl in Hs.
  - destruct Hs as [Hs _]. lia.
  - destruct Hs as [_ Hs]. by eapply IH.
Qed.

Lemma lstrip_suffix (s : str) : exists pre, s = pre ++ Py.lstrip s.
Proof.
  induction s as [|c s [pre IH]]; simpl; [by exists []|].
  destruct (Py.isspace c); [|by exists []].
  exists (c :: pre). simpl. by rewrite <- IH.
Qed.

Lemma rstrip_prefix (s : str) : exists post, s = Py.rstrip s ++ post.
Proof.
  unfold Py.rstrip. destruct (lstrip_suffix (rev s)) as [pre H].
  exists (rev pre). rewrite <- rev_app_distr, <- H. by rewrite rev_involutive.
Qed.

Lemma lstrip_head (s : str) (c : N) (rest : str) :
  Py.lstrip s = c :: rest -> Py.isspace c = false.
Proof.
  induction s as [|x s IH]; simpl; [done|].
  destruct (Py.isspace x) eqn:Hx; [done|]. by intros [= <- _].
Qed.

Lemma rstrip_last (s init : str) (c : N) :
  Py.rstrip s = init ++ [c] -> Py.isspace c = false.
Proof.
  unfold Py.rstrip. intros H. apply (f_equal (@rev N)) in H.
  rewrite rev_involutive, rev_app_distr in H. simpl in H.
  by eapply lstrip_head.
Qed.

Section NormalizerProperties.

Context {World : Type} `{C : Collaborators World}.

(** X4.  The text that [_html_to_text] returns has no space at either
    end and nowhere more than two newlines in a row, that is, never more
    than one empty line. *)
Theorem html_to_text_shape (html text : str) :
  _html_to_text html = Ok text ->
  (forall c rest, text = c :: rest -> Py.isspace c = false)
  /\ (forall init c, text = init ++ [c] -> Py.isspace c = false)
  /\ (forall a b, text <> a ++ [Py.LF; Py.LF; Py.LF] ++ b).
Proof.
  unfold _html_to_text.
  destruct (BeautifulSoup html) as [contents|e]; [|done].
  intros [= <-].
  set (raw := Re.sub_newlines _).
  destruct (lstrip_suffix raw) as [pre Hpre].
  destruct (rstrip_prefix (Py.lstrip raw)) as [post Hpost].
  fold (Py.strip raw) in Hpost.
  split; [|split].
  - intros c rest Hc. rewrite Hc in Hpost. by eapply lstrip_head.
  - intros init c Hc. by eapply rstrip_last.
  - intros a b Hab.
    apply (calm_no_blank_run raw (sub_go_calm _ _) (pre ++ a) (b ++ post)).
    etrans; [exact Hpre|]. rewrite Hpost, Hab.
    by rewrite <- !app_assoc.
Qed.

(** *** Paragraphs *)

Lemma paragraphs_get_text (ts : list str) :
  Soup.get_text
    (Soup.insert_after_p
       (Soup.replace_br (Soup.document (List.map paragraph ts))))
  = concat (List.map (fun t => t ++ [Py.LF; Py.LF]) ts).
Proof.
  unfold Soup.document. cbn [Soup.replace_br].
  change (bool_decide (u "[document]" = u "br")) with false. cbv iota.
  cbn [Soup.insert_after_p Soup.get_text].
  induction ts as [|t ts IH]; [done|].
  cbn [List.map List.flat_map paragraph Soup.replace_br].
  change (bool_decide (u "p" = u "br")) with false. cbv iota.
  cbn [List.map Soup.replace_br Soup.is_tag].
  change (bool_decide (u "p" = u "p")) with true. cbv iota.
  cbn [List.flat_map app Soup.insert_after_p Soup.is_tag Soup.get_text
       concat].
  rewrite IH, app_nil_r, <- app_assoc. reflexivity.
Qed.

Lemma sub_go_line (t : str) :
  t <> [] -> Forall (fun c => c <> Py.LF) t ->
  forall run rest,
    Re.sub_go run (t ++ rest)
    = replicate (min run 2) Py.LF ++ t ++ Re.sub_go 0 rest.
Proof.
  intros Hne Ht. destruct Ht as [|c t Hc Ht]; [done|]. clear Hne.
  intros run rest. simpl.
  apply N.eqb_neq in Hc. rewrite Hc. f_equal. f_equal.
  induction Ht as [|x t Hx _ IH]; [done|]. simpl.
  apply N.eqb_neq in Hx. rewrite Hx. simpl. by rewrite IH.
Qed.

Lemma sub_go_paragraphs (ts : list str) :
  Forall plain_paragraph ts ->
  forall run,
    Re.sub_go run (concat (List.map (fun t => t ++ [Py.LF; Py.LF]) ts))
    = replicate (min run 2) Py.LF
      ++ concat (List.map (fun t => t ++ [Py.LF; Py.LF]) ts).
Proof.
  induction 1 as [|t ts (Hne & Hline & _) _ IH]; intros run; simpl.
  - by rewrite app_nil_r.
  - rewrite <- !app_assoc. rewrite sub_go_line by done.
    f_equal. f_equal. simpl. by rewrite IH.
Qed.

Lemma paragraphs_blank_line_separated (ts : list str) :
  ts <> [] ->
  concat (List.map (fun t => t ++ [Py.LF; Py.LF]) ts)
  = blank_line_separated ts ++ [Py.LF; Py.LF].
Proof.
  destruct ts as [|t ts]; [done|]. intros _. simpl.
  revert t. induction ts as [|t' ts IH]; intros t; simpl.
  - by rewrite !app_nil_r.
  - rewrite (IH t'). rewrite <- !app_assoc. simpl.
    by rewrite <- ?app_assoc.
Qed.

Lemma lstrip_clean (s : str) :
  (forall c rest, s = c :: rest -> Py.isspace c = false) -> Py.lstrip s = s.
Proof.
  destruct s as [|c s]; [done|]. intros H. simpl.
  by rewrite (H c s eq_refl).
Qed.

Lemma rstrip_clean (s tail : str) :
  (forall init c, s = init ++ [c] -> Py.isspace c = false) ->
  Forall (fun c => Py.isspace c = true) tail ->
  Py.rstrip (s ++ tail) = s.
Proof.
  intros Hs Htail. unfold Py.rstrip. rewrite rev_app_distr.
  assert (forall r k, Forall (fun c => Py.isspace c = true) r ->
                      Py.lstrip (r ++ k) = Py.lstrip k) as Hskip.
  { induction 1 as [|x r Hx _ IH]; [done|]. simpl. by rewrite Hx. }
  rewrite Hskip by (by apply Forall_rev).
  rewrite lstrip_clean; [apply rev_involutive|].
  intros c rest Hrev. apply (Hs (rev rest) c).
  apply (f_equal (@rev N)) in Hrev. rewrite rev_involutive in Hrev.
  by rewrite Hrev.
Qed.

(** X5.  Markup that the parser reads as a sequence of paragraphs of
    plain text is normalized to these paragraphs with exactly one empty
    line between them. *)
Theorem paragraphs_text (html : str) (ts : list str) :
  BeautifulSoup html = Ok (List.map paragraph ts) ->
  Forall plain_paragraph ts ->
  _html_to_text html = Ok (blank_line_separated ts).
Proof.
  intros Hparse Hts. unfold _html_to_text. rewrite Hparse.
  cbv zeta. rewrite paragraphs_get_text. unfold Re.sub_newlines.
  rewrite sub_go_paragraphs by done. simpl.
  destruct ts as [|t ts]; [done|].
  rewrite paragraphs_blank_line_separated by done.
  f_equal. unfold Py.strip.
  assert (forall c rest, blank_line_separated (t :: ts) ++ [Py.LF; Py.LF]
                         = c :: rest -> Py.isspace c = false) as Hhead.
  { inversion Hts as [|? ? (Hne & _ & Hfirst & _) _]; subst.
    destruct t as [|c0 t]; [done|]. simpl. intros c rest [= <- _].
    by eapply Hfirst. }
  rewrite lstrip_clean by exact Hhead.
  apply rstrip_clean; [|by repeat constructor].
  intros init c Hlast.
  assert (exists t' k, In t' (t :: ts)
                       /\ blank_line_separated (t :: ts) = k ++ t')
    as (t' & k & Hin & Hk).
  { clear. simpl. revert t. induction ts as [|t2 ts IH]; intros t.
    - exists t, []. simpl. rewrite app_nil_r. auto.
    - destruct (IH t2) as (t' & k & Hin & Hk). simpl in *.
      exists t', (t ++ [Py.LF; Py.LF] ++ k).
      split; [destruct Hin; auto|].
      rewrite <- !app_assoc. simpl. do 3 f_equal. exact Hk. }
  rewrite Forall_forall in Hts.
  destruct (Hts t') as (Hne & _ & _ & Hend); [by apply list_elem_of_In|].
  destruct (exists_last Hne) as (init' & c' & ->).
  rewrite Hk, app_assoc in Hlast.
  apply app_inj_tail in Hlast as [_ <-]. by eapply Hend.
Qed.

End NormalizerProperties.

Lemma html_to_text_shape_witness :
  _html_to_text (u "<p> Hi<br><br><br><br>there </p>")
  = Ok (u "Hi" ++ [Py.LF; Py.LF] ++ u "there")
  /\ forall a b,
      u "Hi" ++ [Py.LF; Py.LF] ++ u "there"
      <> a ++ [Py.LF; Py.LF; Py.LF] ++ b.
Proof.
  assert (_html_to_text (u "<p> Hi<br><br><br><br>there </p>")
          = Ok (u "Hi" ++ [Py.LF; Py.LF] ++ u "there")) as H
    by (vm_compute; reflexivity).
  split; [exact H|].
  exact (proj2 (proj2 (html_to_text_shape _ _ H))).
Defined.

Lemma paragraphs_text_witness :
  BeautifulSoup (u "<p>One</p><p>Two words</p><p>Three</p>")
  = Ok (List.map paragraph [u "One"; u "Two words"; u "Three"])
  /\ Forall plain_paragraph [u "One"; u "Two words"; u "Three"]
  /\ _html_to_text (u "<p>One</p><p>Two words</p><p>Three</p>")
     = Ok (u "One" ++ [Py.LF; Py.LF] ++ u "Two words"
           ++ [Py.LF; Py.LF] ++ u "Three").
Proof.
  assert (BeautifulSoup (u "<p>One</p><p>Two words</p><p>Three</p>")
          = Ok (List.map paragraph [u "One"; u "Two words"; u "Three"]))
    as Hparse by reflexivity.
  assert (forall t : str,
             t <> [] ->
             forallb (fun c => negb (c =? Py.LF)%N) t = true ->
             negb (Py.isspace (hd 0%N t)) = true ->
             negb (Py.isspace (List.last t 0%N)) = true ->
             plain_paragraph t) as Hplain.
  { intros t Hne Hline Hfirst Hlast. split; [done|]. split; [|split].
    - rewrite forallb_forall in Hline. apply Forall_forall.
      intros c Hc ->. apply list_elem_of_In, Hline in Hc. done.
    - intros c rest ->. simpl in Hfirst. by destruct (Py.isspace c).
    - intros init c ->. rewrite last_last in Hlast.
      by destruct (Py.isspace c). }
  assert (Forall plain_paragraph [u "One"; u "Two words"; u "Three"]) as Hts.
  { repeat (apply Forall_cons; split; [by apply Hplain|]). constructor. }
  split; [exact Hparse|]. split; [exact Hts|].
  exact (paragraphs_text _ _ Hparse Hts).
Defined.

(** ** The Media Resolver: more *)

Section MediaProperties.

Context {World : Type} `{C : Collaborators World}.
Implicit Types (m : machine World) (post : MastodonPost.t).

(** [_transfer_post], with the sequencing written out. *)
Lemma transfer_post_unfold dry_run post m :
  _transfer_post dry_run post m =
  match post_text post with
  | Raise e => (m, Raise e)
  | Ok text =>
      match media_embed dry_run post m with
      | (m1, Raise e) => (m1, Raise e)
      | (m1, Ok embed) =>
          thread_loop (length (Segmenter._split_text text 300))
            (MastodonPost.created_at post) embed 0 None
            (Segmenter._split_text text 300) m1
      end
  end.
Proof.
  unfold _transfer_post, bind, of_result.
  destruct (post_text post) as [text|e]; [|done].
  by destruct (media_embed dry_run post m) as [m1 [embed|e]].
Qed.

Lemma media_embed_images post m m' embed :
  media_embed false post m = (m', Ok embed) ->
  Forall2 image_of
    (List.filter is_image (take 4 (MastodonPost.media_attachments post)))
    (images_in embed).
Proof.
  unfold media_embed.
  destruct (MastodonPost.media_attachments post) as [|a rest] eqn:Hatt.
  - intros [= _ <-]. constructor.
  - change (negb false) with true. cbv iota.
    unfold _create_media_embed, bind.
    destruct (images_loop (take 4 (a :: rest)) [] m) as [m1 [out|e]]
      eqn:Hloop; [|discriminate].
    apply images_loop_spec in Hloop as (new & -> & Hnew).
    unfold ret. simpl. by destruct new; intros [= _ <-].
Qed.

Lemma alt_of_bound (attachment : dict) (a : str) :
  alt_of attachment = Some a ->
  a <> [] /\ length a <= 1000
  /\ exists description,
      attachment !! u "description" = Some (VStr description)
      /\ a = take 1000 description.
Proof.
  unfold alt_of.
  destruct (attachment !! u "description") as [[|[|c d]]|]; try done.
  intros [= <-]. split; [done|]. split.
  - cbn [length]. rewrite length_take. lia.
  - by exists (c :: d).
Qed.

(** X6.  In an embed that the Media Resolver returns, an image has an
    alternative text exactly when its attachment has a non-empty
    description, and the text is the first 1000 characters of the
    description: never empty, never longer than 1000 characters. *)
Theorem embed_alt_text post m m' embed :
  media_embed false post m = (m', Ok embed) ->
  Forall2
    (fun attachment img =>
       match attachment !! u "description" with
       | Some (VStr (c :: d)) =>
           alt img = Some (take 1000 (c :: d))
       | _ => alt img = None
       end
       /\ forall a, alt img = Some a -> a <> [] /\ length a <= 1000)
    (List.filter is_image (take 4 (MastodonPost.media_attachments post)))
    (images_in embed).
Proof.
  intros H. apply media_embed_images in H.
  eapply Forall2_impl; [exact H|].
  intros attachment img [Halt _]. split.
  - rewrite Halt. unfold alt_of.
    by destruct (attachment !! u "description") as [[|[|c d]]|].
  - intros a Ha. rewrite Halt in Ha.
    apply alt_of_bound in Ha as (Hne & Hlen & _). done.
Qed.

(** *** Attachments that cannot be read *)

Lemma images_loop_malformed attachments :
  Exists malformed attachments ->
  forall images m, exists e, (images_loop attachments images m).2 = Raise e.
Proof.
  induction 1 as [a rest Ha|a rest _ IH]; intros images m;
    cbn [images_loop]; unfold bind at 1; unfold getitem at 1.
  - destruct Ha as [Hty|[Hty Hurl]]; rewrite Hty; cbn.
    + by eexists.
    + rewrite bool_decide_eq_true_2 by done.
      unfold bind at 1. unfold getitem at 1. rewrite Hurl. cbn.
      by eexists.
  - destruct (a !! u "type") as [ty|]; cbn; [|by eexists].
    case_bool_decide; [|apply IH].
    unfold bind at 1. unfold getitem at 1.
    destruct (a !! u "url") as [url|]; cbn; [|by eexists].
    unfold bind at 1. unfold call at 1.
    destruct (download_media url (world m)) as [w2 [data|e]]; cbn;
      [|by eexists].
    unfold bind at 1. unfold call at 1. cbn.
    destruct (upload_image data w2) as [w3 [blob|e]]; cbn; [|by eexists].
    apply IH.
Qed.

Lemma within_thread_loop_create n t embed posts_to_create :
  forall i parent_ref,
    within World create_event
      (thread_loop n t embed i parent_ref posts_to_create).
Proof.
  induction posts_to_create as [|chunk rest IH]; intros i parent_ref; simpl.
  - apply within_ret.
  - apply within_bind; [apply within_call; by intros ? ? [=]|]. intros rich.
    apply within_bind; [apply within_call; by intros ? ? [= <-]|].
    intros res.
    apply within_bind; [apply within_next_parent_ref|]. intros pr. apply IH.
Qed.

(** X7.  A post with, among its first four attachments, one that has no
    [type], or an image that has no [url], is not transferred:
    [_transfer_post] raises and no post at all is submitted for it. *)
Theorem malformed_attachment_fails post m :
  Exists malformed (take 4 (MastodonPost.media_attachments post)) ->
  let out := _transfer_post false post m in
  (exists e, out.2 = Raise e)
  /\ submissions (trace out.1) = submissions (trace m).
Proof.
  intros Hbad out. subst out. rewrite transfer_post_unfold.
  destruct (post_text post) as [text|e]; cbn [fst snd];
    [|split; [by eexists | done]].
  pose proof (within_media_embed false post m) as (_ & _ & _ & evs & Htr & Hevs).
  assert (exists e, (media_embed false post m).2 = Raise e) as [e He].
  { unfold media_embed.
    destruct (MastodonPost.media_attachments post) as [|a rest] eqn:Hatt.
    - by apply Exists_nil in Hbad.
    - change (negb false) with true. cbv iota.
      unfold _create_media_embed, bind.
      destruct (images_loop_malformed _ Hbad [] m) as [e He].
      destruct (images_loop _ _ _) as [m1 r]. cbn [snd] in He. subst r.
      by exists e. }
  destruct (media_embed false post m) as [m1 r]. cbn [fst snd] in *. subst r.
  split; [by exists e|]. cbn [fst]. rewrite Htr. unfold submissions.
  rewrite omap_app. fold (submissions evs).
  by rewrite (submissions_media evs Hevs), app_nil_r.
Qed.

(** *** How much is fetched and uploaded *)

Lemma images_loop_calls attachments :
  forall images m,
  exists evs,
    trace (images_loop attachments images m).1 = trace m ++ evs
    /\ uploads evs <= downloads evs
    /\ downloads evs <= length (List.filter is_image attachments)
    /\ Forall media_event evs.
Proof.
  induction attachments as [|a rest IH]; intros images m;
    cbn [images_loop].
  - exists []. cbn. rewrite app_nil_r. repeat split; [lia | lia | constructor].
  - unfold bind at 1. unfold getitem at 1. unfold is_image at 1.
    destruct (a !! u "type") as [ty|] eqn:Hty; cbn.
    2:{ exists []. cbn. rewrite app_nil_r.
        repeat split; [lia | lia | constructor]. }
    case_bool_decide as Himg.
    + subst ty. rewrite bool_decide_eq_true_2 by done.
      unfold bind at 1. unfold getitem at 1.
      destruct (a !! u "url") as [url|]; cbn.
      2:{ exists []. cbn. rewrite app_nil_r.
          repeat split; [lia | lia | constructor]. }
      unfold bind at 1. unfold call at 1.
      destruct (download_media url (world m)) as [w2 [data|e]]; cbn.
      2:{ exists [DownloadMedia url]. cbn.
          repeat split; [lia | lia | by repeat constructor]. }
      unfold bind at 1. unfold call at 1. cbn.
      destruct (upload_image data w2) as [w3 [blob|e]]; cbn.
      2:{ exists [DownloadMedia url; UploadImage data]. cbn.
          rewrite <- app_assoc.
          repeat split; [lia | lia | by repeat constructor]. }
      match goal with
      | |- context [images_loop rest ?im ?m0] =>
          destruct (IH im m0) as (evs & Htr & Hup & Hdown & Hall)
      end.
      exists (DownloadMedia url :: UploadImage data :: evs).
      rewrite Htr. cbn. rewrite <- !app_assoc.
      unfold uploads, downloads in *. cbn. fold is_image.
      split; [done|]. split; [lia|]. split; [lia|].
      by repeat constructor.
    + rewrite bool_decide_eq_false_2 by congruence.
      destruct (IH images m) as (evs & Htr & Hup & Hdown & Hall).
      exists evs. done.
Qed.

(** X8.  Whatever happens to it, the transfer of one post downloads at
    most four media files (not more than there are images among its
    first four attachments) and uploads no more than it has downloaded.
    The events that it leaves in the trace are these downloads and
    uploads and its submissions: it does not fetch posts, and it does
    not write the state file.  (Its calls of [create_rich_text], one for
    each chunk, leave no event.) *)
Theorem transfer_post_media_calls post m :
  exists evs,
    trace (_transfer_post false post m).1 = trace m ++ evs
    /\ uploads evs <= downloads evs
    /\ downloads evs
       <= length (List.filter is_image
                    (take 4 (MastodonPost.media_attachments post)))
    /\ downloads evs <= 4
    /\ Forall (fun e => media_event e \/ create_event e) evs.
Proof.
  assert (exists evs,
             trace (media_embed false post m).1 = trace m ++ evs
             /\ uploads evs <= downloads evs
             /\ downloads evs
                <= length (List.filter is_image
                             (take 4 (MastodonPost.media_attachments post)))
             /\ Forall media_event evs) as (evs1 & Htr1 & Hup & Hdown & Hall1).
  { unfold media_embed.
    destruct (MastodonPost.media_attachments post) as [|a rest].
    - exists []. cbn. rewrite app_nil_r.
      repeat split; [lia | lia | constructor].
    - change (negb false) with true. cbv iota.
      unfold _create_media_embed, bind.
      destruct (images_loop_calls (take 4 (a :: rest)) [] m)
        as (evs & Htr & H1 & H2 & H3).
      destruct (images_loop _ _ _) as [m1 [out|e]]; by exists evs. }
  assert (length (List.filter is_image
                    (take 4 (MastodonPost.media_attachments post))) <= 4)
    as Hfour.
  { etrans; [apply List.filter_length_le|]. rewrite length_take. lia. }
  rewrite transfer_post_unfold.
  destruct (post_text post) as [text|e]; cbn [fst snd].
  2:{ exists []. cbn. rewrite app_nil_r.
      repeat split; [lia | lia | lia | constructor]. }
  destruct (media_embed false post m) as [m1 [embed|e]]; cbn [fst snd] in *.
  2:{ exists evs1. repeat split; try done; try lia.
      eapply Forall_impl; [exact Hall1 | auto]. }
  match goal with
  | |- context [thread_loop ?n ?t ?e ?i ?p ?l m1] =>
      destruct (within_thread_loop_create n t e l i p m1)
        as (_ & _ & _ & evs2 & Htr2 & Hall2)
  end.
  exists (evs1 ++ evs2). rewrite Htr2, Htr1, <- app_assoc.
  assert (downloads evs2 = 0 /\ uploads evs2 = 0) as [Hd2 Hu2].
  { clear -Hall2. unfold downloads, uploads.
    induction Hall2 as [|e evs He _ [IH1 IH2]]; [done|].
    destruct e; try done; simpl; auto. }
  unfold downloads, uploads in *.
  rewrite !List.filter_app, !length_app, Hd2, Hu2.
  repeat split; try lia.
  apply Forall_app. split; eapply Forall_impl; eauto.
Qed.

(** *** A post that needs no thread *)

(** X9.  A post whose text has at most 300 characters (an empty text
    too) is submitted as one post: when the rich text of the whole text
    is made, exactly one post is handed to [create_post], with this text,
    the creation time of the source post, the embed and no reply
    reference; and the transfer returns exactly when [create_post]
    returns, whatever the returned reference holds. *)
Theorem short_post_is_one_post dry_run post m text m1 embed w1 rich w2 r :
  post_text post = Ok text ->
  (Py.len text <= 300)%Z ->
  media_embed dry_run post m = (m1, Ok embed) ->
  create_rich_text text (world m1) = (w1, Ok rich) ->
  let req := request (MastodonPost.created_at post) embed 0 None rich in
  create_post req w1 = (w2, r) ->
  let out := _transfer_post dry_run post m in
  submissions (trace out.1) = submissions (trace m) ++ [(req, r)]
  /\ BlueskyPost.text req = rich.1
  /\ BlueskyPost.reply req = None
  /\ BlueskyPost.embed req = embed
  /\ out.2 = match r with
             | Ok _ => Ok tt
             | Raise e => Raise e
             end.
Proof.
  intros Htext Hlen Hmedia Hrich req Hpost out. subst out.
  assert (Segmenter._split_text text 300 = [text]) as Hone.
  { unfold Segmenter._split_text, Segmenter.chunks_of.
    apply Z.leb_le in Hlen. by rewrite Hlen. }
  pose proof (within_media_embed dry_run post m)
    as (_ & _ & _ & evs & Htr & Hevs).
  rewrite Hmedia in Htr. cbn [fst] in Htr.
  rewrite transfer_post_unfold, Htext, Hmedia, Hone.
  rewrite thread_loop_cons, Hrich. cbv zeta. fold req. rewrite Hpost.
  assert (submissions (trace m1) = submissions (trace m)) as Hsub.
  { rewrite Htr. unfold submissions. rewrite omap_app.
    fold (submissions evs). by rewrite (submissions_media evs Hevs), app_nil_r. }
  destruct r as [d|e]; cbn.
  - unfold submissions in *. rewrite omap_app, Hsub. done.
  - unfold submissions in *. rewrite omap_app, Hsub. done.
Qed.

End MediaProperties.

Lemma embed_alt_text_witness :
  let out := media_embed false described (start [] 0) in
  let embed := match out.2 with Ok e => e | Raise _ => None end in
  out = (out.1, Ok embed)
  /\ List.map (fun img => length <$> alt img) (images_in embed)
     = [Some 1000]
  /\ Forall (fun img => forall a, alt img = Some a -> length a <= 1000)
       (images_in embed).
Proof.
  intros out embed.
  assert (out = (out.1, Ok embed)) as H by (vm_compute; reflexivity).
  split; [exact H|]. split; [vm_compute; reflexivity|].
  pose proof (embed_alt_text described (start [] 0) out.1 embed H) as Hall.
  apply Forall2_Forall_r with (Q := fun img =>
    forall a, alt img = Some a -> length a <= 1000) in Hall; [exact Hall|].
  apply Forall_forall. intros att _ img [_ Himg] a Ha.
  by destruct (Himg a Ha).
Defined.

Lemma malformed_attachment_fails_witness :
  let out := _transfer_post false broken (start [] 0) in
  Exists malformed (take 4 (MastodonPost.media_attachments broken))
  /\ out.2 = Raise (KeyError (u "type"))
  /\ submissions (trace out.1) = [].
Proof.
  intros out.
  assert (Exists malformed (take 4 (MastodonPost.media_attachments broken)))
    as H.
  { apply Exists_cons_tl, Exists_cons_hd. left. reflexivity. }
  split; [exact H|]. split; [vm_compute; reflexivity|].
  exact (proj2 (malformed_attachment_fails broken (start [] 0) H)).
Defined.

Lemma short_post_is_one_post_witness :
  let m := start [] 0 in
  let out := _transfer_post false hello m in
  post_text hello = Ok (u "Hello" ++ [Py.LF; Py.LF] ++ u "World")
  /\ out.2 = Ok tt
  /\ length (submissions (trace out.1)) = 1.
Proof.
  intros m out.
  assert (post_text hello = Ok (u "Hello" ++ [Py.LF; Py.LF] ++ u "World"))
    as Htext by (vm_compute; reflexivity).
  split; [exact Htext|].
  destruct (short_post_is_one_post false hello m _ m None
              (Sim.serving [] 0)
              (u "Hello" ++ [Py.LF; Py.LF] ++ u "World", [])
              (Sim.sim_create_post
                 (request (MastodonPost.created_at hello) None 0 None
                    (u "Hello" ++ [Py.LF; Py.LF] ++ u "World", []))
                 (Sim.serving [] 0)).1
              (Ok (Sim.post_ref 0)) Htext)
    as (Hsub & _ & _ & _ & Hout).
  - vm_compute. discriminate.
  - reflexivity.
  - reflexivity.
  - reflexivity.
  - split; [exact Hout|]. fold m in Hsub. fold out in Hsub.
    rewrite Hsub. reflexivity.
Defined.

(** ** The Orchestrator: more *)

Section OrchestratorProperties.

Context {World : Type} `{C : Collaborators World}.
Implicit Types (m : machine World) (st : Stats.t) (post : MastodonPost.t).

Ltac project :=
  cbn [fst snd trace state_file state world console print set_world
       set_state set_state_file add_event].

(** What one turn can do to [self.state]: nothing, or record the post. *)
Lemma process_post_state dry_run skip_existing post st m :
  let m' := (process_post dry_run skip_existing post st m).1 in
  state m' = state m
  \/ exists m1, state m1 = state m /\ state m' = recorded post m1.
Proof.
  cbv zeta.
  assert (state (convert_and_create dry_run post m).1 = state m
          \/ exists m1, state m1 = state m
               /\ state (convert_and_create dry_run post m).1
                  = recorded post m1) as Hcc.
  { destruct dry_run; [|apply convert_and_create_state].
    left. unfold convert_and_create. apply say_quiet. }
  destruct (process_post_cases dry_run skip_existing post st m)
    as [[_ ->]|[(_ & m' & Heq & ->)|[(_ & m' & e & Heq & _ & _ & ->)
       |(_ & m' & e & e' & Heq & _ & ->)]]]; cbn [fst];
    try (rewrite Heq in Hcc; exact Hcc).
  by left.
Qed.

Lemma for_posts_ids dry_run skip_existing posts :
  forall st m,
    let m' := (for_posts dry_run skip_existing posts st m).1 in
    TransferState.transferred_ids (state m)
    ⊆ TransferState.transferred_ids (state m')
    /\ forall i,
        i ∈ TransferState.transferred_ids (state m') ->
        i ∈ TransferState.transferred_ids (state m)
        \/ exists post, post ∈ posts /\ MastodonPost.id post = i.
Proof.
  induction posts as [|post rest IH]; intros st m.
  - cbn. split; [done | by left].
  - cbv zeta. rewrite for_posts_cons.
    pose proof (process_post_state dry_run skip_existing post st m) as H1.
    cbv zeta in H1.
    assert (TransferState.transferred_ids (state m)
            ⊆ TransferState.transferred_ids
                (state (process_post dry_run skip_existing post st m).1)
            /\ forall i,
                i ∈ TransferState.transferred_ids
                      (state (process_post dry_run skip_existing post st m).1)
                ->
                i ∈ TransferState.transferred_ids (state m)
                \/ MastodonPost.id post = i) as [Hsub1 Hnew1].
    { destruct H1 as [->|(m0 & Hm0 & ->)]; [split; [done | by left]|].
      cbn. rewrite Hm0. split; [apply union_subseteq_r|].
      intros i Hi. apply elem_of_union in Hi as [Hi|Hi]; [|by left].
      apply elem_of_singleton in Hi as ->. by right. }
    destruct (process_post dry_run skip_existing post st m)
      as [m1 [st1|e]]; cbn [fst] in *.
    + destruct (IH st1 m1) as [Hsub Hnew]. split; [by etrans|].
      intros i Hi. destruct (Hnew i Hi) as [Hold|(p & Hp & <-)].
      * destruct (Hnew1 i Hold) as [?|<-]; [by left|].
        right. exists post. split; [by left | done].
      * right. exists p. split; [by right | done].
    + split; [done|]. intros i Hi.
      destruct (Hnew1 i Hi) as [?|<-]; [by left|].
      right. exists post. split; [by left | done].
Qed.

(** X10.  During a run the set of transferred identifiers only grows,
    and an identifier that the run adds is the identifier of a fetched
    post. *)
Theorem ids_only_grow dry_run q skip_existing m :
  let m' := (transfer_posts dry_run q skip_existing m).1 in
  TransferState.transferred_ids (state m)
  ⊆ TransferState.transferred_ids (state m')
  /\ forall i,
      i ∈ TransferState.transferred_ids (state m') ->
      i ∈ TransferState.transferred_ids (state m)
      \/ exists w' posts post,
          get_posts q (world m) = (w', Ok posts)
          /\ post ∈ posts /\ MastodonPost.id post = i.
Proof.
  cbv zeta. rewrite transfer_posts_unfold.
  destruct (get_posts q (world m)) as [w' [[|p ps]|e]] eqn:Hget;
    cbn [fst]; try (split; [done | by left]).
  match goal with
  | |- context [for_posts ?d ?s ?l ?z ?m0] =>
      destruct (for_posts_ids d s l z m0) as [Hsub Hnew]
  end.
  cbn [state print add_event set_world] in *. split; [exact Hsub|].
  intros i Hi. destruct (Hnew i Hi) as [Hold|(post & Hpost & <-)].
  - by left.
  - right. exists w', (p :: ps), post. split; [done|]. split; [|done].
    apply list_elem_of_In, in_rev, list_elem_of_In. exact Hpost.
Qed.

(** *** Writing the state file *)

Lemma writes_app evs1 evs2 : writes (evs1 ++ evs2) = writes evs1 ++ writes evs2.
Proof. unfold writes. apply omap_app. Qed.

Lemma breaks_app evs1 evs2 : breaks (evs1 ++ evs2) = breaks evs1 + breaks evs2.
Proof. unfold breaks. by rewrite List.filter_app, length_app. Qed.

Lemma replay_app evs1 evs2 (f : file) :
  replay (evs1 ++ evs2) f = replay evs2 (replay evs1 f).
Proof. unfold replay. apply foldl_app. Qed.

Lemma file_after_app ws1 ws2 (f : file) :
  file_after (ws1 ++ ws2) f = file_after ws2 (file_after ws1 f).
Proof.
  unfold file_after. rewrite last_app. by destruct (last ws2).
Qed.

(** The calls for a post do not touch the state file. *)
Lemma post_events_file t evs (f : file) :
  Forall (post_event t) evs ->
  writes evs = [] /\ breaks evs = 0 /\ replay evs f = f.
Proof.
  induction 1 as [|e evs He _ (IH1 & IH2 & IH3)]; [done|].
  unfold writes, breaks, replay in *.
  destruct e; try done; cbn; auto.
Qed.

(** Without a write that broke off, the file holds the state written
    last. *)
Lemma replay_no_breaks evs (f : file) :
  breaks evs = 0 -> replay evs f = file_after (writes evs) f.
Proof.
  induction evs as [|e evs IH] using rev_ind; [done|].
  rewrite breaks_app, replay_app, writes_app, file_after_app.
  intros Hb. rewrite IH by lia.
  destruct e; try done. cbn in Hb. lia.
Qed.

Lemma process_post_events skip_existing post st m :
  let out := process_post false skip_existing post st m in
  exists evs,
    trace out.1 = trace m ++ evs
    /\ state_file out.1 = replay evs (state_file m)
    /\ Forall (fun s => s = state out.1) (writes evs)
    /\ forall st',
        out.2 = Ok st' ->
        Stats.transferred st' = Stats.transferred st + length (writes evs)
        /\ Stats.errors st + breaks evs <= Stats.errors st'.
Proof.
  cbv zeta.
  (* what the conversion leaves behind *)
  assert (exists evs,
             trace (convert_and_create false post m).1 = trace m ++ evs
             /\ state_file (convert_and_create false post m).1
                = replay evs (state_file m)
             /\ Forall (fun s => s = state (convert_and_create false post m).1)
                  (writes evs)
             /\ match (convert_and_create false post m).2 with
                | Ok _ => length (writes evs) = 1 /\ breaks evs = 0
                | Raise _ => writes evs = [] /\ breaks evs <= 1
                end) as (evs & Htr & Hfile & Hws & Hres).
  { rewrite convert_and_create_unfold.
    pose proof (within__transfer_post false post m)
      as (_ & Hf & _ & calls & Htr & Hcalls).
    destruct (post_events_file _ calls (state_file m) Hcalls)
      as (Hw & Hb & Hr).
    destruct (_transfer_post false post m) as [m1 [[]|e]]; cbn [fst] in *.
    2:{ exists calls. rewrite Hw, Hb, Hr. project.
        repeat split; try done; lia. }
    cbv zeta. destruct (open_w (world m1)) as [w [[]|e]].
    2:{ exists calls. rewrite Hw, Hb, Hr. project.
        repeat split; try done; lia. }
    destruct (json_dump (recorded post m1) w) as [w' [|e remains]]; project.
    - exists (calls ++ [WriteStateFile (recorded post m1)]).
      rewrite writes_app, breaks_app, replay_app, Hw, Hb, Hr, Htr.
      rewrite <- app_assoc. cbn. repeat split; try done.
      by repeat constructor.
    - exists (calls ++ [BreakStateFile remains]).
      rewrite writes_app, breaks_app, replay_app, Hw, Hb, Hr, Htr.
      rewrite <- app_assoc. cbn. repeat split; try done. }
  destruct (process_post_cases false skip_existing post st m)
    as [[_ ->]|[(_ & m' & Heq & ->)|[(_ & m' & e & Heq & _ & _ & ->)
       |(_ & m' & e & e' & Heq & _ & ->)]]]; project.
  - exists []. rewrite app_nil_r. cbn.
    split; [done|]. split; [done|]. split; [done|].
    intros st' [= <-]; cbn; lia.
  - rewrite Heq in *. project. cbn [snd] in Hres. destruct Hres as [H1 H0].
    exists evs. rewrite H1, H0.
    split; [done|]. split; [done|]. split; [done|].
    intros st' [= <-]; cbn; lia.
  - rewrite Heq in *. project. cbn [snd] in Hres. destruct Hres as [H1 H0].
    exists evs. rewrite H1.
    split; [done|]. split; [done|]. split; [done|].
    intros st' [= <-]; cbn; lia.
  - rewrite Heq in *. project.
    exists evs. split; [done|]. split; [done|]. split; [done|]. done.
Qed.

Lemma for_posts_events skip_existing posts :
  forall st m,
    let out := for_posts false skip_existing posts st m in
    exists evs,
      trace out.1 = trace m ++ evs
      /\ state_file out.1 = replay evs (state_file m)
      /\ Forall (fun s =>
                   TransferState.transferred_ids s
                   ⊆ TransferState.transferred_ids (state out.1))
           (writes evs)
      /\ forall st',
          out.2 = Ok st' ->
          Stats.transferred st' = Stats.transferred st + length (writes evs)
          /\ Stats.errors st + breaks evs <= Stats.errors st'.
Proof.
  induction posts as [|post rest IH]; intros st m.
  - exists []. cbn. rewrite app_nil_r.
    split; [done|]. split; [done|]. split; [done|].
    intros st' [= <-]; lia.
  - cbv zeta. rewrite for_posts_cons.
    destruct (process_post_events skip_existing post st m)
      as (evs1 & Htr1 & Hf1 & Hs1 & Hst1).
    destruct (process_post false skip_existing post st m)
      as [m1 [st1|e]]; cbn [fst snd] in *.
    + destruct (IH st1 m1) as (evs2 & Htr2 & Hf2 & Hs2 & Hst2).
      pose proof (for_posts_ids false skip_existing rest st1 m1)
        as [Hsub _]. cbv zeta in Hsub.
      destruct (Hst1 st1 eq_refl) as [Ht1 He1].
      exists (evs1 ++ evs2).
      rewrite Htr2, Htr1, Hf2, Hf1, writes_app, breaks_app, replay_app,
        app_assoc.
      split; [done|]. split; [done|]. split.
      * apply Forall_app. split; [|done].
        eapply Forall_impl; [exact Hs1|]. intros s ->. exact Hsub.
      * intros st' Hst'. destruct (Hst2 st' Hst') as [Ht2 He2].
        rewrite length_app. lia.
    + exists evs1. split; [done|]. split; [done|]. split; [|done].
      eapply Forall_impl; [exact Hs1|]. by intros s ->.
Qed.

(** X11.  In a run that is not a dry run and returns its statistics,
    the document of [self.state] is written into the state file once
    for every post counted as transferred, and never otherwise.  A write
    that breaks off after [open] has emptied the file is counted as an
    error.  After the run the file holds what these writes, complete
    or not, left there one after the other; without a write that broke
    off that is the state written last (the file is untouched when
    nothing was transferred).  No written state knows an identifier
    that [self.state] does not know at the end. *)
Theorem one_write_per_transfer q skip_existing m m' st :
  transfer_posts false q skip_existing m = (m', Ok st) ->
  exists evs,
    trace m' = trace m ++ GetPosts q :: evs
    /\ length (writes evs) = Stats.transferred st
    /\ breaks evs <= Stats.errors st
    /\ state_file m' = replay evs (state_file m)
    /\ (breaks evs = 0 ->
        state_file m' = file_after (writes evs) (state_file m))
    /\ Forall (fun s =>
                 TransferState.transferred_ids s
                 ⊆ TransferState.transferred_ids (state m')) (writes evs).
Proof.
  rewrite transfer_posts_unfold.
  destruct (get_posts q (world m)) as [w' [[|p ps]|e]]; [| |discriminate].
  - intros [= <- <-]. exists []. cbn. repeat split; try done; lia.
  - match goal with
    | |- context [for_posts false ?s ?l ?z ?m0] =>
        destruct (for_posts_events s l z m0) as (evs & Htr & Hf & Hs & Hst)
    end.
    intros Hrun. rewrite Hrun in *. cbn [fst snd] in *.
    destruct (Hst st eq_refl) as [Ht He]. cbn in Ht, He.
    exists evs. rewrite Htr, Hf. project. rewrite <- app_assoc.
    split; [done|]. split; [lia|]. split; [lia|]. split; [done|].
    split; [|done]. apply replay_no_breaks.
Qed.

(** *** The last identifier *)

Lemma for_posts_consistent dry_run skip_existing posts :
  forall st m,
    consistent (state m) ->
    consistent (state (for_posts dry_run skip_existing posts st m).1).
Proof.
  induction posts as [|post rest IH]; intros st m Hm; [done|].
  rewrite for_posts_cons.
  pose proof (process_post_state dry_run skip_existing post st m) as H1.
  cbv zeta in H1.
  assert (consistent
            (state (process_post dry_run skip_existing post st m).1)) as Hc.
  { destruct H1 as [->|(m0 & _ & ->)]; [done|].
    intros i [= <-]. cbn. apply elem_of_union_l. by apply elem_of_singleton. }
  destruct (process_post dry_run skip_existing post st m) as [m1 [st1|e]];
    cbn [fst] in *; [by apply IH | exact Hc].
Qed.

(** X12.  A run keeps the state consistent: when the last identifier is
    one of the transferred identifiers before the run (as in a fresh
    state, which has none), it is one of them after the run. *)
Theorem last_id_is_transferred dry_run q skip_existing m :
  consistent (state m) ->
  consistent (state (transfer_posts dry_run q skip_existing m).1)
  /\ forall w, exists m0, init w Absent = Ok m0 /\ consistent (state m0).
Proof.
  intros Hm. split; [|intros w; eexists; split; [reflexivity | by intros i]].
  rewrite transfer_posts_unfold.
  destruct (get_posts q (world m)) as [w' [[|p ps]|e]]; try done.
  by apply for_posts_consistent.
Qed.

(** *** What the two switches do to the statistics *)

Lemma filter_rev_length {A} (f : A -> bool) (l : list A) :
  length (List.filter f (rev l)) = length (List.filter f l).
Proof.
  induction l as [|a l IH]; [done|].
  cbn [rev List.filter]. rewrite List.filter_app, length_app, IH.
  cbn [List.filter]. destruct (f a); cbn; lia.
Qed.

Lemma for_posts_no_skip dry_run posts :
  forall st m m' st',
    for_posts dry_run false posts st m = (m', Ok st') ->
    Stats.skipped st' = Stats.skipped st.
Proof.
  induction posts as [|post rest IH]; intros st m m' st'.
  - by intros [= _ <-].
  - rewrite for_posts_cons.
    destruct (process_post dry_run false post st m) as [m1 [st1|e]] eqn:H1;
      [|discriminate].
    intros H2. rewrite (IH _ _ _ _ H2).
    destruct (process_post_cases dry_run false post st m)
      as [[[Hs _] _]|[(_ & mx & _ & Heq)|[(_ & mx & e & _ & _ & _ & Heq)
         |(_ & mx & e & e' & _ & _ & Heq)]]]; [done| | |];
      rewrite Heq in H1; try discriminate; by injection H1 as _ <-.
Qed.

(** The statistics of a dry run are read off the state and the
    previews. *)
Lemma dry_for_posts_stats skip_existing posts :
  forall st m m' st',
    for_posts true skip_existing posts st m = (m', Ok st') ->
    let known post :=
      skip_existing
      && bool_decide (MastodonPost.id post
                        ∈ TransferState.transferred_ids (state m)) in
    Stats.skipped st'
    = Stats.skipped st + length (List.filter known posts)
    /\ Stats.errors st'
       = Stats.errors st
         + length (List.filter
                     (fun post => negb (known post) && refused (preview post))
                     posts)
    /\ Stats.transferred st'
       = Stats.transferred st
         + length (List.filter
                     (fun post =>
                        negb (known post) && negb (refused (preview post)))
                     posts).
Proof.
  induction posts as [|post rest IH]; intros st m m' st'.
  - intros [= _ <-]. cbn. lia.
  - rewrite for_posts_cons.
    destruct (dry_process_post skip_existing post st m) as (_ & Hstate & _).
    destruct (process_post true skip_existing post st m)
      as [m1 [st1|e]] eqn:H1; [|discriminate].
    cbn [fst] in Hstate.
    intros H2. apply IH in H2. cbv zeta in H2 |- *. rewrite Hstate in H2.
    destruct H2 as (Hk & He & Ht). rewrite Hk, He, Ht. clear Hk He Ht.
    cbn [List.filter].
    assert (forall r, (say (preview post) m).2 = r ->
              refused (preview post)
              = match r with Ok _ => false | Raise _ => true end) as Hsay.
    { intros r <-. rewrite say_unfold by done. unfold refused.
      by destruct (console_print (preview post)). }
    destruct (process_post_cases true skip_existing post st m)
      as [[[-> Hin] Heq]|[(Hns & mx & Hcc & Heq)|[(Hns & mx & e & Hcc & _ & _ & Heq)
         |(_ & mx & e & e' & _ & _ & Heq)]]];
      rewrite Heq in H1; try discriminate; injection H1 as _ <-.
    + cbn [andb]. rewrite bool_decide_eq_true_2 by done. cbn. lia.
    + assert (skip_existing
              && bool_decide (MastodonPost.id post
                                ∈ TransferState.transferred_ids (state m))
              = false) as ->.
      { destruct skip_existing; [|done]. cbn [andb].
        apply bool_decide_eq_false_2. intros Hin. by apply Hns. }
      unfold convert_and_create in Hcc. fold (preview post) in Hcc.
      rewrite (Hsay (Ok tt)) by (by rewrite Hcc). cbn. lia.
    + assert (skip_existing
              && bool_decide (MastodonPost.id post
                                ∈ TransferState.transferred_ids (state m))
              = false) as ->.
      { destruct skip_existing; [|done]. cbn [andb].
        apply bool_decide_eq_false_2. intros Hin. by apply Hns. }
      unfold convert_and_create in Hcc. fold (preview post) in Hcc.
      rewrite (Hsay (Raise e)) by (by rewrite Hcc). cbn. lia.
Qed.

(** X13.  Without [skip_existing] a run that returns counts no post as
    skipped.  The statistics that a dry run returns are read off
    [self.state] and the previews: a fetched post is counted as skipped
    when [skip_existing] is set and its identifier is known, as an
    error when it is not skipped and the console refuses its preview,
    and as transferred otherwise.  So a dry run whose previews are all
    printed counts no error. *)
Theorem switches_and_statistics dry_run q skip_existing m m' st :
  transfer_posts dry_run q skip_existing m = (m', Ok st) ->
  (skip_existing = false -> Stats.skipped st = 0)
  /\ (dry_run = true ->
      forall w posts,
        get_posts q (world m) = (w, Ok posts) ->
        let known post :=
          skip_existing
          && bool_decide (MastodonPost.id post
                            ∈ TransferState.transferred_ids (state m)) in
        Stats.skipped st = length (List.filter known posts)
        /\ Stats.errors st
           = length (List.filter
                       (fun post =>
                          negb (known post) && refused (preview post))
                       posts)
        /\ Stats.transferred st
           = length (List.filter
                       (fun post =>
                          negb (known post) && negb (refused (preview post)))
                       posts)
        /\ (Forall (fun post => refused (preview post) = false) posts ->
            Stats.errors st = 0)).
Proof.
  intros Hrun. rewrite transfer_posts_unfold in Hrun. split.
  - intros ->.
    destruct (get_posts q (world m)) as [w' [[|p ps]|e]]; [| |discriminate].
    + by injection Hrun as _ <-.
    + by apply for_posts_no_skip in Hrun.
  - intros -> w posts Hget known. rewrite Hget in Hrun.
    assert (Stats.skipped st = length (List.filter known posts)
            /\ Stats.errors st
               = length (List.filter
                           (fun post =>
                              negb (known post) && refused (preview post))
                           posts)
            /\ Stats.transferred st
               = length (List.filter
                           (fun post =>
                              negb (known post)
                              && negb (refused (preview post)))
                           posts)) as (Hk & He & Ht).
    { destruct posts as [|p ps].
      - by injection Hrun as _ <-.
      - apply dry_for_posts_stats in Hrun. cbv zeta in Hrun.
        cbn [state print add_event set_world Stats.skipped Stats.errors
             Stats.transferred Stats.zero] in Hrun.
        rewrite !filter_rev_length in Hrun. exact Hrun. }
    split; [exact Hk|]. split; [exact He|]. split; [exact Ht|].
    intros Hall. rewrite He. clear -Hall.
    induction Hall as [|post posts Hp _ IH]; [done|].
    cbn [List.filter]. rewrite Hp, andb_false_r. exact IH.
Qed.

End OrchestratorProperties.

Lemma one_write_per_transfer_witness :
  let out := run true (start [gallery; hello; essay] 1) in
  out = (out.1, Ok (Stats.mk 3 2 0 1))
  /\ (exists evs,
        trace out.1 = GetPosts Sim.all_posts :: evs
        /\ length (writes evs) = 2 /\ breaks evs = 0)
  /\ exists s, state_file out.1 = Saved s
               /\ elements (TransferState.transferred_ids s)
                  = elements ({[u "101"; u "103"]} : gset str).
Proof.
  intros out.
  assert (out = (out.1, Ok (Stats.mk 3 2 0 1))) as H
    by (vm_compute; reflexivity).
  split; [exact H|].
  destruct (one_write_per_transfer Sim.all_posts true _ _ _ H)
    as (evs & Htr & Hlen & _).
  split.
  - exists evs. split; [exact Htr|]. split; [exact Hlen|].
    assert (breaks (trace out.1) = 0) as Hb by (vm_compute; reflexivity).
    rewrite Htr in Hb. exact Hb.
  - eexists. split; vm_compute; reflexivity.
Defined.

Lemma last_id_is_transferred_witness :
  let m := start [gallery; hello] 0 in
  consistent (state m)
  /\ consistent (state (run true m).1)
  /\ TransferState.last_mastodon_id (state (run true m).1) = Some (u "103").
Proof.
  intros m.
  assert (consistent (state m)) as H by (by intros i).
  split; [exact H|]. split; [|vm_compute; reflexivity].
  exact (proj1 (last_id_is_transferred false Sim.all_posts true m H)).
Defined.

(** A dry run over a post that is known, a post whose preview the
    console cannot encode, and a post that is previewed. *)
Lemma switches_and_statistics_witness :
  exists m,
    init (Sim.serving [essay; smiling; hello] 0) hello_done = Ok m
    /\ let out := transfer_posts true Sim.all_posts true m in
       out = (out.1, Ok (Stats.mk 3 1 1 1))
       /\ refused (preview smiling) = true
       /\ Stats.errors (Stats.mk 3 1 1 1)
          = length (List.filter
                      (fun post =>
                         negb (bool_decide
                                 (MastodonPost.id post
                                    ∈ TransferState.transferred_ids (state m)))
                         && refused (preview post))
                      [essay; smiling; hello]).
Proof.
  eexists. split; [reflexivity|].
  match goal with
  | |- context [transfer_posts true Sim.all_posts true ?m0] => set (m := m0)
  end.
  intros out.
  assert (out = (out.1, Ok (Stats.mk 3 1 1 1))) as H
    by (vm_compute; reflexivity).
  split; [exact H|]. split; [vm_compute; reflexivity|].
  destruct (switches_and_statistics true Sim.all_posts true _ _ _ H)
    as (_ & Hdry).
  destruct (Hdry eq_refl (world m) [essay; smiling; hello] eq_refl)
    as (_ & He & _).
  exact He.
Defined.


(** ** The command line *)

Lemma startswith_length (prefix s : str) :
  Py.startswith s prefix = true -> length prefix <= length s.
Proof.
  revert s. induction prefix as [|p prefix IH]; intros [|c s]; simpl;
    try lia; try discriminate.
  intros [_ Hrest]%andb_prop. specialize (IH s Hrest). lia.
Qed.

Lemma replace_go_length (old new : str) :
  length new <= length old -> old <> [] ->
  forall (s : str) (skip : nat),
    skip <= length s ->
    length (Py.replace_go old new skip s) + skip <= length s.
Proof.
  intros Hlen Hold s. induction s as [|c s IH]; intros skip Hskip.
  - simpl in *. lia.
  - cbn [Py.replace_go]. destruct skip as [|k].
    + destruct (Py.startswith (c :: s) old) eqn:Hstart.
      * apply startswith_length in Hstart. cbn [length] in *.
        rewrite length_app.
        assert (0 < length old) by (destruct old; [done|simpl; lia]).
        specialize (IH (length old - 1)). lia.
      * cbn [length]. specialize (IH 0). lia.
    + cbn [length] in *. specialize (IH k). lia.
Qed.

Lemma replace_length (s old new : str) :
  length new <= length old -> old <> [] ->
  length (Py.replace s old new) <= length s.
Proof.
  intros Hlen Hold. unfold Py.replace. destruct old as [|o old]; [done|].
  pose proof (replace_go_length (o :: old) new Hlen Hold s 0). lia.
Qed.

(** X21. A row of the table of [test_mastodon] shows at most 50
    characters of a post's content, whatever the content is. *)
Theorem display_content_fits (content : str) :
  length (Cli.display_content content) <= 50.
Proof.
  unfold Cli.display_content.
  assert (forall s : str,
            length (Py.replace
                      (Py.replace (Py.replace s (u "<p>") []) (u "</p>") [])
                      (u "<br>") (u " ")) <= length s) as Hshrink.
  { intros s.
    etrans; [apply replace_length; [vm_compute; lia|done]|].
    etrans; [apply replace_length; [vm_compute; lia|done]|].
    apply replace_length; [vm_compute; lia|done]. }
  etrans; [apply Hshrink|].
  unfold Py.len. destruct (50 <? Z.of_nat (length content))%Z eqn:Hlong.
  - rewrite length_app, length_take.
    change (length (u "...")) with 3. lia.
  - apply Z.ltb_ge in Hlong. lia.
Qed.

Lemma foldl_override_raise (environ : gmap str str) e
    (l : list (str * str)) :
  foldl (Cli.override environ) (Raise e) l = Raise e.
Proof. induction l as [|entry l IH]; [done|exact IH]. Qed.

Lemma foldl_override_object (environ : gmap str str)
    (l : list (str * str)) :
  forall d : dict, exists d' : dict,
    foldl (Cli.override environ) (Ok (Cli.JObject d)) l
    = Ok (Cli.JObject d')
    /\ (forall key : str, key ∉ l.*2 -> d' !! key = d !! key)
    /\ (NoDup l.*2 ->
        forall env_var key : str, (env_var, key) ∈ l ->
          d' !! key = match environ !! env_var with
                      | Some (c :: v) => Some (VStr (c :: v))
                      | _ => d !! key
                      end).
Proof.
  induction l as [|[ev k] l IH]; intros d.
  - exists d. split; [done|]. split; [done|].
    intros _ ? ? Hin. by apply elem_of_nil in Hin.
  - cbn [foldl].
    set (d1 := match environ !! ev with
               | Some (c :: v) => <[k := VStr (c :: v)]> d
               | _ => d
               end).
    assert (Cli.override environ (Ok (Cli.JObject d)) (ev, k)
            = Ok (Cli.JObject d1)) as ->.
    { unfold Cli.override, d1. cbn [fst snd].
      by destruct (environ !! ev) as [[|c v]|]. }
    assert (forall key : str, key <> k -> d1 !! key = d !! key) as Hd1.
    { intros key Hne. unfold d1.
      destruct (environ !! ev) as [[|c v]|]; try done.
      by rewrite lookup_insert_ne. }
    destruct (IH d1) as (d' & Heq & Hother & Hset).
    exists d'. split; [done|]. split.
    + intros key Hkey. rewrite fmap_cons in Hkey.
      apply not_elem_of_cons in Hkey as [Hne Hkey].
      rewrite (Hother key Hkey). by apply Hd1.
    + intros Hnd env_var key Hin. rewrite fmap_cons in Hnd.
      apply NoDup_cons in Hnd as [Hk Hnd]. cbn [snd] in Hk.
      apply elem_of_cons in Hin as [[= -> ->]|Hin].
      * rewrite (Hother k Hk). unfold d1.
        destruct (environ !! ev) as [[|c v]|]; try done.
        by rewrite lookup_insert_eq.
      * rewrite (Hset Hnd _ _ Hin).
        assert (key <> k) as Hne.
        { intros ->. apply Hk.
          by apply (list_elem_of_fmap_2' snd l (env_var, k)). }
        by rewrite (Hd1 key Hne).
Qed.

(** X14. [load_config] with a configuration file that is absent or holds
    an object: each of the four credential keys takes the value of its
    environment variable when that is set and not empty, and otherwise what the
    file has under the key; every other key of the file is kept. *)
Theorem load_config_precedence (file : Cli.config_file)
    (environ : gmap str str) (d : dict) :
  file_object file d ->
  exists d' : dict,
    Cli.load_config file environ = Ok (Cli.JObject d')
    /\ (forall env_var key : str, (env_var, key) ∈ Cli.env_mapping ->
          d' !! key = match environ !! env_var with
                      | Some (c :: v) => Some (VStr (c :: v))
                      | _ => d !! key
                      end)
    /\ (forall key : str, key ∉ Cli.env_mapping.*2 -> d' !! key = d !! key).
Proof.
  intros Hfile.
  destruct (foldl_override_object environ Cli.env_mapping d)
    as (d' & Heq & Hother & Hset).
  exists d'. split.
  - destruct Hfile as [[-> ->]| ->]; exact Heq.
  - split; [|exact Hother]. apply Hset.
    apply (bool_decide_unpack _). by vm_compute.
Qed.

Lemma load_config_raises (file : Cli.config_file) (environ : gmap str str)
    (e : exn) :
  file = Cli.BadConfig e
  \/ (file = Cli.Config Cli.JOther /\ overriding environ) ->
  exists e', Cli.load_config file environ = Raise e'.
Proof.
  intros [->|[-> (ev & k & c & v & Hin & Hev)]]; [by exists e|].
  unfold Cli.load_config.
  assert (forall l : list (str * str), (ev, k) ∈ l ->
            exists e', foldl (Cli.override environ) (Ok Cli.JOther) l
                       = Raise e') as Hl.
  { induction l as [|[ev0 k0] l IH]; intros Hl.
    - by apply elem_of_nil in Hl.
    - cbn [foldl]. unfold Cli.override at 2. cbn [fst snd].
      destruct (environ !! ev0) as [[|c0 v0]|] eqn:Hev0.
      + apply elem_of_cons in Hl as [[= <- <-]|Hl]; [congruence|by apply IH].
      + cbn [Cli.setitem]. rewrite foldl_override_raise. by eexists.
      + apply elem_of_cons in Hl as [[= <- <-]|Hl]; [congruence|by apply IH]. }
  by apply Hl.
Qed.

Section CliProperties.
Context {World : Type} `{Collaborators World} `{Cli.Clients World}.

(** X15. A configuration file that cannot be read or parsed, or one that
    holds no object while a credential is set in the environment, ends
    the command with an exception of its own, whatever the command line
    gives: nothing is printed, no state file is read and nothing is
    contacted. *)
Theorem unusable_config_is_not_caught (opts : Cli.options)
    (cfg : Cli.config_file) (environ : gmap str str) (f : file)
    (w : World) (e : exn) :
  cfg = Cli.BadConfig e
  \/ (cfg = Cli.Config Cli.JOther /\ overriding environ) ->
  exists e',
    left_early (Cli.transfer opts cfg environ f w) (Cli.Uncaught e') [] w.
Proof.
  intros Hfile. destruct (load_config_raises cfg environ e Hfile) as [e' He].
  exists e'. unfold Cli.transfer. rewrite He. by repeat split.
Qed.

(** X16. When a credential is empty on the command line and the
    configuration has nothing, or nothing but an empty text, under its key, the
    command prints the two lines on missing credentials and exits with
    status 1 before any client or manager is built. *)
Theorem missing_credential_exits (opts : Cli.options)
    (cfg : Cli.config_file) (environ : gmap str str) (f : file)
    (w : World) (d : dict) :
  Cli.load_config cfg environ = Ok (Cli.JObject d) ->
  Exists (fun c => Py.truthy c.1 = false
                   /\ Cli.truthy (default VNone (d !! c.2)) = false)
    (credentials opts) ->
  left_early (Cli.transfer opts cfg environ f w) (Cli.Exit 1)
    [Cli.MissingCredentials; Cli.PleaseProvide] w.
Proof.
  intros Hload Hmissing. unfold Cli.transfer. rewrite Hload.
  unfold Cli.or_config, Cli.get.
  assert (forall (c : str * str),
            Py.truthy c.1 = false
            /\ Cli.truthy (default VNone (d !! c.2)) = false ->
            Cli.truthy (if Py.truthy c.1 then VStr c.1
                        else default VNone (d !! c.2)) = false) as Hc.
  { intros c [-> ->]. done. }
  unfold credentials in Hmissing.
  repeat (apply Exists_cons in Hmissing as [Hmissing|Hmissing];
          [apply Hc in Hmissing; cbn [fst snd] in Hmissing|]);
    [| | | |by apply Exists_nil in Hmissing].
  all: repeat match goal with
       | |- context [match (if ?b then _ else _) with _ => _ end] =>
           destruct b
       end.
  all: cbn [fst snd] in *.
  all: rewrite ?Hmissing, ?andb_false_r; try done.
  all: repeat match goal with
       | |- context [Cli.truthy ?v] =>
           lazymatch v with
           | VStr _ => fail
           | _ => destruct (Cli.truthy v)
           end
       end; try done.
Qed.

End CliProperties.


Section CommandProperties.
Context {World : Type} `{Collaborators World} `{Cli.Clients World}.

Lemma resolves_inv (opts : Cli.options) (config : Cli.json)
    (instance token handle password : value) :
  resolves opts config instance token handle password ->
  (Cli.or_config (Cli.mastodon_instance opts) config (u "mastodon_instance")
   = Ok instance /\ Cli.truthy instance = true)
  /\ (Cli.or_config (Cli.mastodon_token opts) config (u "mastodon_token")
      = Ok token /\ Cli.truthy token = true)
  /\ (Cli.or_config (Cli.bluesky_handle opts) config (u "bluesky_handle")
      = Ok handle /\ Cli.truthy handle = true)
  /\ (Cli.or_config (Cli.bluesky_password opts) config
        (u "bluesky_password") = Ok password
      /\ Cli.truthy password = true).
Proof.
  unfold resolves, credentials. intros Hres.
  inversion Hres as [|? ? ? ? H1 Hres1]; subst.
  inversion Hres1 as [|? ? ? ? H2 Hres2]; subst.
  inversion Hres2 as [|? ? ? ? H3 Hres3]; subst.
  inversion Hres3 as [|? ? ? ? H4 Hres4]; subst.
  cbn [fst snd] in *. done.
Qed.

Lemma transfer_resolved (opts : Cli.options) (cfg : Cli.config_file)
    (environ : gmap str str) (f : file) (w : World) (config : Cli.json)
    (instance token handle password : value) :
  Cli.load_config cfg environ = Ok config ->
  resolves opts config instance token handle password ->
  Cli.transfer opts cfg environ f w
  = Cli.connect_and_transfer opts instance token handle password f w.
Proof.
  intros Hload
    ([Hi Ti] & [Ht Tt] & [Hh Th] & [Hp Tp])%resolves_inv.
  unfold Cli.transfer. by rewrite Hload, Hi, Ht, Hh, Hp, Ti, Tt, Th, Tp.
Qed.

(** The command with the credentials found, the two lines printed and
    the manager built: what is left is the [try]. *)
Lemma transfer_connected (opts : Cli.options) (cfg : Cli.config_file)
    (environ : gmap str str) (f : file) (w : World) (config : Cli.json)
    (instance token handle password : value) (m0 : machine World) :
  Cli.load_config cfg environ = Ok config ->
  resolves opts config instance token handle password ->
  connects instance handle ->
  init w f = Ok m0 ->
  let connecting :=
    [Cli.ConnectingToMastodon instance; Cli.ConnectingToBluesky handle] in
  Cli.transfer opts cfg environ f w
  = match Cli.attempt opts instance token handle password m0 with
    | (m, Ok result) =>
        {| Cli.ended := Cli.Returned;
           Cli.printed := connecting ++ Cli.report (Cli.dry_run opts) result;
           Cli.manager := Some m; Cli.world_after := world m |}
    | (m, Raise e) => Cli.except connecting m e
    end.
Proof.
  intros Hload Hres [Hm Hb] Hinit connecting.
  rewrite (transfer_resolved _ _ _ _ _ _ _ _ _ _ Hload Hres).
  unfold Cli.connect_and_transfer, Cli.say. cbn [Cli.fixed].
  by rewrite Hm, Hb, Hinit.
Qed.

Lemma except_ends_on (lines : list Cli.line) (m : machine World) (e : exn) :
  ends_on e lines (Cli.except lines m e)
  /\ Cli.manager (Cli.except lines m e) = Some m
  /\ Cli.world_after (Cli.except lines m e) = world m.
Proof.
  unfold ends_on, Cli.except, Cli.say.
  destruct e as [key|msg|]; cbn [is_exception Cli.fixed];
    try (destruct (Cli.console_print _) as [[]|e']); done.
Qed.

(** X17.  With the four credentials found, the two lines on the
    connections printed and the manager built, a login that fails with
    [e] ends the command as the two [except] clauses have it: an
    interrupt and an exception whose line the console takes give the
    status 1, an exception whose line the console refuses leaves the
    command with the exception of the print.  The manager has fetched
    nothing, posted nothing and written nothing; after a failed
    Mastodon login the Bluesky login is not tried. *)
Theorem failed_login_exits (opts : Cli.options) (cfg : Cli.config_file)
    (environ : gmap str str) (f : file) (w w1 : World) (config : Cli.json)
    (instance token handle password : value) (m0 : machine World)
    (e : exn) :
  Cli.load_config cfg environ = Ok config ->
  resolves opts config instance token handle password ->
  connects instance handle ->
  init w f = Ok m0 ->
  Cli.mastodon_authenticate instance token w = (w1, Raise e)
  \/ (exists w0 account,
        Cli.mastodon_authenticate instance token w = (w0, Ok account)
        /\ Cli.bluesky_authenticate handle password w0 = (w1, Raise e)) ->
  let out := Cli.transfer opts cfg environ f w in
  ends_on e
    [Cli.ConnectingToMastodon instance; Cli.ConnectingToBluesky handle] out
  /\ Cli.world_after out = w1
  /\ exists m, Cli.manager out = Some m
               /\ trace m = [] /\ state_file m = f /\ state m = state m0.
Proof.
  intros Hload Hres Hcon Hinit Hfail out. subst out.
  rewrite (transfer_connected _ _ _ _ _ _ _ _ _ _ _ Hload Hres Hcon Hinit).
  destruct (init_untouched _ _ _ Hinit) as (Hw & Hfile & Htrace).
  assert (Cli.attempt opts instance token handle password m0
          = (set_world w1 m0, Raise e)) as ->.
  { unfold Cli.attempt. rewrite Hw.
    by destruct Hfail as [->|(w0 & account & -> & ->)]. }
  destruct (except_ends_on
              [Cli.ConnectingToMastodon instance;
               Cli.ConnectingToBluesky handle] (set_world w1 m0) e)
    as (Hends & -> & ->).
  split; [exact Hends|]. split; [done|]. by eexists.
Qed.

(** X18.  With the four credentials found, the two lines on the
    connections printed, the manager built and both logins accepted, a
    fetch that fails with [e] ends the command as the two [except]
    clauses have it.  The state file and the state are as the manager
    found them, and the fetch is the only call that it has made. *)
Theorem failed_fetch_exits (opts : Cli.options) (cfg : Cli.config_file)
    (environ : gmap str str) (f : file) (w w1 w2 w3 : World)
    (config : Cli.json) (instance token handle password : value)
    (m0 : machine World) (a1 a2 : dict) (e : exn) :
  Cli.load_config cfg environ = Ok config ->
  resolves opts config instance token handle password ->
  connects instance handle ->
  init w f = Ok m0 ->
  Cli.mastodon_authenticate instance token w = (w1, Ok a1) ->
  Cli.bluesky_authenticate handle password w1 = (w2, Ok a2) ->
  get_posts (Cli.fetch opts) w2 = (w3, Raise e) ->
  let out := Cli.transfer opts cfg environ f w in
  ends_on e
    [Cli.ConnectingToMastodon instance; Cli.ConnectingToBluesky handle] out
  /\ Cli.world_after out = w3
  /\ exists m, Cli.manager out = Some m
               /\ trace m = [GetPosts (Cli.fetch opts)]
               /\ state_file m = f /\ state m = state m0.
Proof.
  intros Hload Hres Hcon Hinit Hm Hb Hget out. subst out.
  rewrite (transfer_connected _ _ _ _ _ _ _ _ _ _ _ Hload Hres Hcon Hinit).
  destruct (init_untouched _ _ _ Hinit) as (Hw & Hfile & Htrace).
  unfold Cli.attempt. rewrite Hw, Hm, Hb.
  rewrite transfer_posts_unfold. cbn [world set_world]. rewrite Hget.
  match goal with
  | |- context [Cli.except ?l ?m ?e0] =>
      destruct (except_ends_on l m e0) as (Hends & -> & ->)
  end.
  split; [exact Hends|]. split; [done|]. eexists. split; [done|].
  cbn. by rewrite Htrace.
Qed.

Lemma report_errors (dry_run : bool) (st : Stats.t) (n : nat) :
  Cli.Errors n ∈ Cli.report dry_run st
  <-> n = Stats.errors st /\ n <> 0.
Proof.
  unfold Cli.report. rewrite !elem_of_app, !elem_of_cons, elem_of_nil.
  destruct (Nat.eqb_spec (Stats.errors st) 0) as [Hz|Hnz];
    destruct dry_run;
    rewrite ?elem_of_cons, ?elem_of_nil; naive_solver.
Qed.

Lemma report_dry_run (dry_run : bool) (st : Stats.t) :
  Cli.DryRunNotice ∈ Cli.report dry_run st <-> dry_run = true.
Proof.
  unfold Cli.report. rewrite !elem_of_app, !elem_of_cons, elem_of_nil.
  destruct (Stats.errors st =? 0); destruct dry_run;
    rewrite ?elem_of_cons, ?elem_of_nil; naive_solver.
Qed.

(** X19.  With the four credentials found, the two lines on the
    connections printed, the manager built and both logins accepted,
    the command returns normally whenever [transfer_posts] returns its
    statistics, whatever number of errors they count.  It prints the
    report; the numbers of the report add up; the line on errors is
    there exactly when a post failed, the line on the dry run exactly in
    a dry run. *)
Theorem command_reports_and_returns (opts : Cli.options)
    (cfg : Cli.config_file) (environ : gmap str str) (f : file)
    (w w1 w2 : World) (config : Cli.json)
    (instance token handle password : value) (m0 m' : machine World)
    (a1 a2 : dict) (st : Stats.t) :
  Cli.load_config cfg environ = Ok config ->
  resolves opts config instance token handle password ->
  connects instance handle ->
  init w f = Ok m0 ->
  Cli.mastodon_authenticate instance token w = (w1, Ok a1) ->
  Cli.bluesky_authenticate handle password w1 = (w2, Ok a2) ->
  transfer_posts (Cli.dry_run opts) (Cli.fetch opts) (Cli.skip_existing opts)
    (set_world w2 m0) = (m', Ok st) ->
  let out := Cli.transfer opts cfg environ f w in
  Cli.ended out = Cli.Returned
  /\ Cli.manager out = Some m'
  /\ Cli.printed out
     = [Cli.ConnectingToMastodon instance; Cli.ConnectingToBluesky handle]
       ++ Cli.report (Cli.dry_run opts) st
  /\ Stats.transferred st + Stats.skipped st + Stats.errors st
     = Stats.processed st
  /\ (forall n, Cli.Errors n ∈ Cli.printed out
                <-> n = Stats.errors st /\ n <> 0)
  /\ (Cli.DryRunNotice ∈ Cli.printed out <-> Cli.dry_run opts = true).
Proof.
  intros Hload Hres Hcon Hinit Hm Hb Hrun out. subst out.
  rewrite (transfer_connected _ _ _ _ _ _ _ _ _ _ _ Hload Hres Hcon Hinit).
  destruct (init_untouched _ _ _ Hinit) as (Hw & _ & _).
  unfold Cli.attempt. rewrite Hw, Hm, Hb, Hrun.
  cbn [Cli.ended Cli.printed Cli.manager].
  split; [done|]. split; [done|]. split; [done|].
  split; [by eapply transfer_posts_counts|]. split.
  - intros n. rewrite elem_of_app, report_errors.
    rewrite !elem_of_cons, elem_of_nil. naive_solver.
  - rewrite elem_of_app, report_dry_run.
    rewrite !elem_of_cons, elem_of_nil. naive_solver.
Qed.

(** X20.  When the command line gives all four credentials, neither the
    configuration file nor the environment has a say: any two
    configurations that load give the same run. *)
Theorem command_line_comes_first (opts : Cli.options)
    (cfg cfg' : Cli.config_file) (environ environ' : gmap str str)
    (f : file) (w : World) (config config' : Cli.json) :
  Forall (fun c => Py.truthy c.1 = true) (credentials opts) ->
  Cli.load_config cfg environ = Ok config ->
  Cli.load_config cfg' environ' = Ok config' ->
  Cli.transfer opts cfg environ f w = Cli.transfer opts cfg' environ' f w.
Proof.
  intros Hall Hload Hload'.
  assert (forall c : Cli.json,
            resolves opts c (VStr (Cli.mastodon_instance opts))
              (VStr (Cli.mastodon_token opts))
              (VStr (Cli.bluesky_handle opts))
              (VStr (Cli.bluesky_password opts))) as Hres.
  { intros c. unfold resolves, credentials in *.
    inversion Hall as [|? ? H1 Hall1]; subst.
    inversion Hall1 as [|? ? H2 Hall2]; subst.
    inversion Hall2 as [|? ? H3 Hall3]; subst.
    inversion Hall3 as [|? ? H4 Hall4]; subst.
    cbn [fst snd] in *. unfold Cli.or_config.
    repeat (constructor;
            [cbn [fst snd];
             first [rewrite H1 | rewrite H2 | rewrite H3 | rewrite H4];
             split; [done|];
             match goal with
             | Ht : Py.truthy ?s = true |- Cli.truthy (VStr ?s) = true =>
                 by destruct s
             end|]).
    constructor. }
  rewrite (transfer_resolved _ _ _ _ _ _ _ _ _ _ Hload (Hres config)).
  by rewrite (transfer_resolved _ _ _ _ _ _ _ _ _ _ Hload' (Hres config')).
Qed.

End CommandProperties.


(** ** The command line on the small world *)

Lemma load_config_precedence_witness :
  let d : dict :=
    {[ u "mastodon_instance" := VStr (u "https://old.example");
       u "theme" := VStr (u "dark") ]} in
  let environ : gmap str str :=
    {[ u "MASTODON_INSTANCE" := u "https://new.example";
       u "MASTODON_TOKEN" := [] ]} in
  file_object (Cli.Config (Cli.JObject d)) d
  /\ exists d' : dict,
       Cli.load_config (Cli.Config (Cli.JObject d)) environ
       = Ok (Cli.JObject d')
       /\ d' !! u "mastodon_instance" = Some (VStr (u "https://new.example"))
       /\ d' !! u "mastodon_token" = None
       /\ d' !! u "theme" = Some (VStr (u "dark")).
Proof.
  intros d environ.
  assert (file_object (Cli.Config (Cli.JObject d)) d) as Hf by (by right).
  split; [exact Hf|].
  destruct (load_config_precedence _ environ d Hf)
    as (d' & Heq & Hset & Hother).
  exists d'. split; [exact Heq|].
  assert ((u "MASTODON_INSTANCE", u "mastodon_instance") ∈ Cli.env_mapping)
    as Hin1 by (apply (bool_decide_unpack _); vm_compute; exact I).
  assert ((u "MASTODON_TOKEN", u "mastodon_token") ∈ Cli.env_mapping)
    as Hin2 by (apply (bool_decide_unpack _); vm_compute; exact I).
  assert (u "theme" ∉ Cli.env_mapping.*2)
    as Hin3 by (apply (bool_decide_unpack _); vm_compute; exact I).
  rewrite (Hset _ _ Hin1), (Hset _ _ Hin2), (Hother _ Hin3).
  repeat split; vm_compute; reflexivity.
Defined.

Lemma unusable_config_is_not_caught_witness :
  let w := Sim.serving [hello] 0 in
  exists e',
    left_early
      (Cli.transfer (command_line "token" "password" false)
         (Cli.Config Cli.JOther) {[ u "MASTODON_TOKEN" := u "token" ]}
         Absent w)
      (Cli.Uncaught e') [] w.
Proof.
  intros w.
  apply (unusable_config_is_not_caught _ _ _ _ _
           (Exception (u "Expecting value"))).
  right. split; [reflexivity|].
  exists (u "MASTODON_TOKEN"), (u "mastodon_token").
  eexists _, _. split.
  - apply (bool_decide_unpack _). vm_compute. exact I.
  - vm_compute. reflexivity.
Defined.

Lemma missing_credential_exits_witness :
  let w := Sim.serving [hello] 0 in
  left_early
    (Cli.transfer (command_line "" "password" false) Cli.NoConfig
       {[ u "MASTODON_TOKEN" := [] ]} Absent w)
    (Cli.Exit 1) [Cli.MissingCredentials; Cli.PleaseProvide] w.
Proof.
  intros w. apply (missing_credential_exits _ _ _ _ _ ∅).
  - vm_compute. reflexivity.
  - apply Exists_cons_tl, Exists_cons_hd. split; vm_compute; reflexivity.
Defined.

Lemma command_line_resolves (q : query) (token password : string)
    (dry_run : bool) (config : Cli.json) :
  Py.truthy (u token) = true -> Py.truthy (u password) = true ->
  resolves (command_line_for q token password dry_run) config
    (VStr (u "https://example.social")) (VStr (u token))
    (VStr (u "me.bsky.social")) (VStr (u password)).
Proof.
  intros Ht Hp.
  unfold resolves, credentials, command_line_for, Cli.or_config.
  cbn [Cli.mastodon_instance Cli.mastodon_token Cli.bluesky_handle
       Cli.bluesky_password].
  assert (forall (s key : str), Py.truthy s = true ->
            (if Py.truthy (s, key).1 then Ok (VStr (s, key).1)
             else Cli.get config (s, key).2) = Ok (VStr s)
            /\ Cli.truthy (VStr s) = true) as Hs.
  { intros s key Hs. cbn [fst snd]. rewrite Hs. by destruct s. }
  repeat (constructor; [apply Hs; try done|]); constructor.
Qed.

Lemma command_line_connects :
  @connects Sim.world sim_clients (VStr (u "https://example.social"))
    (VStr (u "me.bsky.social")).
Proof. split; vm_compute; reflexivity. Qed.

(** The state file is one that cannot be opened; the manager is built
    with a warning, and the login with an expired token fails. *)
Lemma failed_login_exits_witness :
  let w := Sim.serving [hello] 0 in
  let f := Unreadable (Exception (u "[Errno 13] Permission denied")) in
  let out := Cli.transfer (command_line "expired" "password" false)
               Cli.NoConfig ∅ f w in
  Cli.ended out = Cli.Exit 1
  /\ last (Cli.printed out)
     = Some (Cli.Error (Exception (u "401 Unauthorized")))
  /\ Cli.world_after out = w
  /\ exists m, Cli.manager out = Some m
               /\ trace m = [] /\ state_file m = f.
Proof.
  intros w f.
  destruct (failed_login_exits (command_line "expired" "password" false)
              Cli.NoConfig ∅ f w w (Cli.JObject ∅)
              (VStr (u "https://example.social")) (VStr (u "expired"))
              (VStr (u "me.bsky.social")) (VStr (u "password"))
              {| world := w; state := TransferState.fresh (now w);
                 state_file := f; trace := [];
                 console := [WarnCouldNotLoad
                               (Exception
                                  (u "[Errno 13] Permission denied"))] |}
              (Exception (u "401 Unauthorized")))
    as (Hends & Hw & m & Hm & Htr & Hf & _).
  - vm_compute. reflexivity.
  - apply command_line_resolves; vm_compute; reflexivity.
  - exact command_line_connects.
  - vm_compute. reflexivity.
  - left. vm_compute. reflexivity.
  - unfold ends_on in Hends.
    assert (Cli.console_print
              (Cli.Error (Exception (u "401 Unauthorized"))) = Ok tt) as Hp
      by (vm_compute; reflexivity).
    rewrite Hp in Hends. cbn [is_exception] in Hends.
    destruct Hends as [Hexit Hprinted].
    split; [exact Hexit|]. split; [by rewrite Hprinted|].
    split; [exact Hw|]. by exists m.
Defined.

Lemma failed_fetch_exits_witness :
  let w := Sim.serving [hello] 0 in
  let out := Cli.transfer
               (command_line_for negative_limit "token" "password" false)
               Cli.NoConfig ∅ hello_done w in
  Cli.ended out = Cli.Exit 1
  /\ last (Cli.printed out)
     = Some (Cli.Error (Exception (u "400 Bad Request")))
  /\ exists m, Cli.manager out = Some m
               /\ trace m = [GetPosts negative_limit]
               /\ state_file m = hello_done.
Proof.
  intros w.
  destruct (failed_fetch_exits
              (command_line_for negative_limit "token" "password" false)
              Cli.NoConfig ∅ hello_done w w w w (Cli.JObject ∅)
              (VStr (u "https://example.social")) (VStr (u "token"))
              (VStr (u "me.bsky.social")) (VStr (u "password"))
              {| world := w;
                 state := {| TransferState.last_mastodon_id :=
                               Some (MastodonPost.id hello);
                             TransferState.transferred_ids :=
                               {[MastodonPost.id hello]};
                             TransferState.last_updated := 0 |};
                 state_file := hello_done; trace := []; console := [] |}
              {[ u "username" := VStr (u "me") ]}
              {[ u "did" := VStr (u "did:plc:sim") ]}
              (Exception (u "400 Bad Request")))
    as (Hends & _ & m & Hm & Htr & Hf & _).
  - vm_compute. reflexivity.
  - apply command_line_resolves; vm_compute; reflexivity.
  - exact command_line_connects.
  - reflexivity.
  - vm_compute. reflexivity.
  - vm_compute. reflexivity.
  - reflexivity.
  - unfold ends_on in Hends.
    assert (Cli.console_print
              (Cli.Error (Exception (u "400 Bad Request"))) = Ok tt) as Hp
      by (vm_compute; reflexivity).
    rewrite Hp in Hends. cbn [is_exception] in Hends.
    destruct Hends as [Hexit Hprinted].
    split; [exact Hexit|]. split; [by rewrite Hprinted|]. by exists m.
Defined.

(** One of three posts fails: the command returns, and its report has
    the line on errors. *)
Lemma command_reports_and_returns_witness :
  let w := Sim.serving [gallery; hello; essay] 1 in
  let out := Cli.transfer (command_line "token" "password" false)
               Cli.NoConfig ∅ Absent w in
  Cli.ended out = Cli.Returned
  /\ last (Cli.printed out) = Some (Cli.Errors 1)
  /\ ~ Cli.DryRunNotice ∈ Cli.printed out.
Proof.
  intros w out.
  assert (run true (start [gallery; hello; essay] 1)
          = ((run true (start [gallery; hello; essay] 1)).1,
             Ok (Stats.mk 3 2 0 1))) as Hrun by (vm_compute; reflexivity).
  destruct (command_reports_and_returns
              (command_line "token" "password" false)
              Cli.NoConfig ∅ Absent w w w (Cli.JObject ∅)
              (VStr (u "https://example.social")) (VStr (u "token"))
              (VStr (u "me.bsky.social")) (VStr (u "password"))
              (start [gallery; hello; essay] 1)
              (run true (start [gallery; hello; essay] 1)).1
              {[ u "username" := VStr (u "me") ]}
              {[ u "did" := VStr (u "did:plc:sim") ]}
              (Stats.mk 3 2 0 1))
    as (Hret & _ & Hprinted & _ & _ & Hdry).
  - vm_compute. reflexivity.
  - apply command_line_resolves; vm_compute; reflexivity.
  - exact command_line_connects.
  - reflexivity.
  - vm_compute. reflexivity.
  - vm_compute. reflexivity.
  - exact Hrun.
  - split; [exact Hret|]. split.
    + vm_compute. reflexivity.
    + intros Hnotice. apply Hdry in Hnotice. discriminate Hnotice.
Defined.

Lemma command_line_comes_first_witness :
  let w := Sim.serving [hello; essay] 0 in
  let opts := command_line "token" "password" true in
  Cli.transfer opts Cli.NoConfig ∅ Absent w
  = Cli.transfer opts
      (Cli.Config (Cli.JObject {[ u "mastodon_token" := VStr (u "other") ]}))
      {[ u "BLUESKY_HANDLE" := u "you.bsky.social" ]} Absent w.
Proof.
  intros w opts.
  apply (command_line_comes_first opts _ _ _ _ Absent w (Cli.JObject ∅)
           (Cli.JObject (<[ u "bluesky_handle" := VStr (u "you.bsky.social") ]>
                           {[ u "mastodon_token" := VStr (u "other") ]}))).
  - repeat constructor.
  - vm_compute. reflexivity.
  - vm_compute. reflexivity.
Defined.
